(** * ModelHandler: the model-call and tool-dispatch pipeline

    A shallow embedding of [ModelHandler] (backend/flow/execution/handlers):
    [callModel], [generateCompletion] and [processToolCalls].

    JavaScript strings are modelled as [string], one [ascii] per code unit
    (code units below 256).  Objects the code copies or mutates live in an
    explicit heap; the external collaborators (model catalog, completion
    client, MCP service, uuid, clock, JSON built-ins) are fields of a
    [Services] record over an abstract world state. *)

From stdpp Require Import gmap strings list fin_maps pretty.
From Stdlib Require Import ZArith Ascii String.

Open Scope string_scope.
Open Scope list_scope.
Open Scope Z_scope.

(** ** JavaScript string helpers *)

Module JsString.

Definition LF : ascii := "010"%char.
Definition nl : string := String LF EmptyString.
Definition quote : string := String "034"%char EmptyString.

(** [s.startsWith(p)] *)
Definition startsWith (s p : string) : bool := String.prefix p s.

(** [s.split(sep)] for a non-empty separator string: the input is cut at
    the successive, non-overlapping occurrences of [sep], scanning from the
    left.  [skip] counts the code units of an occurrence still to drop,
    [cur] is the segment being collected, in reverse. *)
Fixpoint split_scan (sep s : string) (skip : nat) (cur : string) : list string :=
  match s with
  | EmptyString => [String.rev cur]
  | String c s' =>
      match skip with
      | S k => split_scan sep s' k cur
      | O =>
          if String.prefix sep s
          then String.rev cur :: split_scan sep s' (Nat.pred (String.length sep)) EmptyString
          else split_scan sep s' O (String c cur)
      end
  end.

Definition split (s sep : string) : list string := split_scan sep s O EmptyString.

(** [s.slice(n)] *)
Fixpoint slice (n : nat) (s : string) : string :=
  match n, s with
  | O, _ => s
  | S k, String _ s' => slice k s'
  | S _, EmptyString => EmptyString
  end.

(** [l.join(sep)] *)
Fixpoint join (sep : string) (l : list string) : string :=
  match l with
  | [] => EmptyString
  | [x] => x
  | x :: l' => x +:+ sep +:+ join sep l'
  end.

End JsString.

Import JsString.

(** ** Regular expressions

    The handler tests one regular-expression literal.  Patterns are kept as
    syntax and matched with derivatives; [test r s] is
    [/^r/.test(s)]: some prefix of [s] is matched by [r]. *)

Module Regex.

Inductive re : Type :=
| Void
| Eps
| Class (p : ascii -> bool)
| Cat (r1 r2 : re)
| Alt (r1 r2 : re)
| Star (r : re).

Definition Plus (r : re) : re := Cat r (Star r).

Fixpoint nullable (r : re) : bool :=
  match r with
  | Void => false
  | Eps => true
  | Class _ => false
  | Cat r1 r2 => nullable r1 && nullable r2
  | Alt r1 r2 => nullable r1 || nullable r2
  | Star _ => true
  end.

Fixpoint deriv (c : ascii) (r : re) : re :=
  match r with
  | Void => Void
  | Eps => Void
  | Class p => if p c then Eps else Void
  | Cat r1 r2 =>
      if nullable r1
      then Alt (Cat (deriv c r1) r2) (deriv c r2)
      else Cat (deriv c r1) r2
  | Alt r1 r2 => Alt (deriv c r1) (deriv c r2)
  | Star r1 => Cat (deriv c r1) (Star r1)
  end.

(** Whole-string match. *)
Fixpoint fullmatch (r : re) (s : string) : bool :=
  match s with
  | EmptyString => nullable r
  | String c s' => fullmatch (deriv c r) s'
  end.

(** Match anchored at the start only. *)
Fixpoint test (r : re) (s : string) : bool :=
  nullable r ||
  match s with
  | EmptyString => false
  | String c s' => test (deriv c r) s'
  end.

(** The language of a pattern. *)
Inductive matches : re -> string -> Prop :=
| MEps : matches Eps EmptyString
| MClass p c : p c = true -> matches (Class p) (String c EmptyString)
| MCat r1 r2 s1 s2 : matches r1 s1 -> matches r2 s2 -> matches (Cat r1 r2) (s1 +:+ s2)
| MAltL r1 r2 s : matches r1 s -> matches (Alt r1 r2) s
| MAltR r1 r2 s : matches r2 s -> matches (Alt r1 r2) s
| MStar0 r : matches (Star r) EmptyString
| MStarS r c s1 s2 :
    matches r (String c s1) -> matches (Star r) s2 ->
    matches (Star r) (String c s1 +:+ s2).

(** Character classes, on code units below 256. *)
Definition lit (c : ascii) : re := Class (fun x => Ascii.eqb x c).

Definition upper (c : ascii) : ascii :=
  let n := nat_of_ascii c in
  if (Nat.leb 97 n && Nat.leb n 122)%bool then ascii_of_nat (n - 32) else c.

(** A literal character under the [i] flag. *)
Definition lit_i (c : ascii) : re := Class (fun x => Ascii.eqb (upper x) (upper c)).

(** [.]: anything but a line terminator. *)
Definition dot : re :=
  Class (fun x => negb (Ascii.eqb x "010"%char || Ascii.eqb x "013"%char)).

(** [\s]: tab, line feed, vertical tab, form feed, carriage return, space,
    no-break space. *)
Definition space : re :=
  Class (fun x =>
           let n := nat_of_ascii x in
           (Nat.leb 9 n && Nat.leb n 13) || Nat.eqb n 32 || Nat.eqb n 160).

Fixpoint word (f : ascii -> re) (s : string) : re :=
  match s with
  | EmptyString => Eps
  | String c s' => Cat (f c) (word f s')
  end.

End Regex.

(** ** JSON values

    The values [JSON.parse] returns and [JSON.stringify] takes.  An object
    keeps its members in insertion order; a number is kept as its decimal
    literal. *)

#[warnings="-register-all"]
Inductive Json : Type :=
| JNull
| JBool (b : bool)
| JNum (literal : string)
| JStr (s : string)
| JArr (items : list Json)
| JObj (members : list (string * Json)).

(** [o?.[k]] on a parsed value: the member, if [o] is an object having it. *)
Fixpoint assoc_get (k : string) (members : list (string * Json)) : option Json :=
  match members with
  | [] => None
  | (k', v) :: rest => if String.eqb k k' then Some v else assoc_get k rest
  end.

Definition json_get (k : string) (v : option Json) : option Json :=
  match v with
  | Some (JObj members) => assoc_get k members
  | _ => None
  end.

(** ** The data model *)

Definition loc := positive.

Inductive Role := user | assistant | system | tool.

(** [OpenAI.ChatCompletionMessageToolCall]: [{ id, type: 'function',
    function: { name, arguments } }]. *)
Record RequestedToolCall := {
  tc_id : string;
  tc_name : string;
  tc_arguments : string
}.

(** A property that holds a string at run time may also hold [undefined]:
    [content] and [result] are given whatever the dispatcher computed.
    [None] stands for [undefined]. *)
Record FlujoChatMessage := {
  msg_id : string;
  msg_role : Role;
  msg_content : option string;
  msg_tool_calls : option (list RequestedToolCall);
  msg_tool_call_id : option string;
  msg_timestamp : Z;
  msg_processNodeId : option string
}.

(** A message as sent to the provider: everything but the timestamp. *)
Record ApiMessage := {
  api_id : string;
  api_role : Role;
  api_content : option string;
  api_tool_calls : option (list RequestedToolCall);
  api_tool_call_id : option string;
  api_processNodeId : option string
}.

(** [ToolCallInfo], also the element type of [processedToolCalls]. *)
Record ToolCallInfo := {
  tci_name : string;
  tci_args : Json;
  tci_id : string;
  tci_result : option string
}.

Record ModelDescriptor := {
  displayName : option string;
  name : string;
  temperature : option string;
  ApiKey : string;
  baseUrl : option string
}.

(** The raw provider response. *)
Record ProviderError := {
  pe_message : option string;
  pe_metadata_raw : option string;
  pe_code : option string;
  pe_type : option string;
  pe_param : option string
}.

Record ResponseMessage := {
  rm_content : option string;
  rm_tool_calls : option (list RequestedToolCall)
}.

Record Choice := { ch_message : option ResponseMessage }.

Record ChatCompletion := {
  cc_error : option ProviderError;
  cc_choices : option (list Choice)
}.

(** Thrown values: an [Error] instance, an [OpenAI.APIError] instance (also an
    [Error]), or any other value, kept as [String(value)]. *)
Inductive Thrown :=
| JsError (name message : string)
| APIError (message : string) (status type code param : option string)
| NonError (text : string).

(** Modelled from the spec: the error descriptor built by [createModelError]
    and [createToolError] of errorFactory, which is not among the sources.
    The taxonomy kind, the message and the subject (model id or tool name)
    are kept. *)
Inductive ErrorSource := ModelError | ToolError.

Record ExecutionError := {
  err_source : ErrorSource;
  err_type : string;
  err_message : string;
  err_subject : string
}.

Definition createModelError (type message modelId : string) : ExecutionError :=
  {| err_source := ModelError; err_type := type; err_message := message; err_subject := modelId |}.

Definition createToolError (type message toolName : string) : ExecutionError :=
  {| err_source := ToolError; err_type := type; err_message := message; err_subject := toolName |}.

Inductive Result (A : Type) :=
| Success (value : A)
| Failure (error : ExecutionError).
Arguments Success {A} value.
Arguments Failure {A} error.

Record ModelCallInput := {
  in_modelId : string;
  in_prompt : string;
  in_messages : loc;
  in_tools : option loc;
  in_nodeName : string;
  in_nodeId : option string
}.

Record ModelCallResult := {
  mcr_content : string;
  mcr_messages : loc;
  mcr_fullResponse : ChatCompletion;
  mcr_toolCalls : option (list ToolCallInfo)
}.

Record ToolCallProcessingResult := {
  toolCallMessages : list FlujoChatMessage;
  processedToolCalls : list ToolCallInfo
}.

(** Modelled from the spec: the MCP service's answer,
    [{ success: boolean, data?, error? }]; the service itself is not among
    the sources.  [data] is a JSON value and [error] a message; either may
    be absent. *)
Record McpResult := {
  mcp_success : bool;
  mcp_data : option Json;
  mcp_error : option string
}.

(** ** The heap

    Tool schemas are plain objects reached through references; arrays of
    values and transcripts (arrays of messages) are heap cells too. *)

Inductive Val :=
| VUndefined
| VNull
| VBool (b : bool)
| VNum (n : Z)
| VStr (s : string)
| VRef (l : loc).

Inductive Cell :=
| CObj (props : gmap string Val)
| CArr (elems : list Val)
| CMessages (msgs : list FlujoChatMessage).

(** The sampling temperature: [0.0], or [parseFloat] of the descriptor's
    string. *)
Inductive Temperature := TempDefault | TempParsed (src : string).

Record ClientConfig := { apiKey : string; baseURL : option string }.

Record RequestParams := {
  rq_model : string;
  rq_messages : list ApiMessage;
  rq_temperature : Temperature;
  rq_tools : option loc
}.

Inductive LogLevel := Verbose | Debug | Info | Warn | Error.

(** What the handler does to the outside, in order. *)
Inductive Event :=
| ELog (level : LogLevel) (message : string)
| EGetModel (modelId : string)
| EResolveKey (ref : string)
| ECreate (cfg : ClientConfig) (req : RequestParams)
| ECallTool (serverName toolName : string) (args : Json).

(** ** External collaborators

    The model catalog, the credential resolver, the completion client, the
    MCP service, the id generator and the clock answer from a world state [W]
    of their own: they may answer differently from one call to the next, and
    they may throw.  They get values and a read-only view of the heap, never
    the means to change it.  [JSON.parse] and [JSON.stringify] are pure. *)

Inductive Outcome (A : Type) :=
| Returns (a : A)
| Throws (e : Thrown).
Arguments Returns {A} a.
Arguments Throws {A} e.

Record Services (W : Type) := {
  svc_getModel : string -> W -> Outcome (option ModelDescriptor) * W;
  svc_resolveAndDecryptApiKey : string -> W -> Outcome (option string) * W;
  svc_create : ClientConfig -> RequestParams -> gmap loc Cell -> W -> Outcome ChatCompletion * W;
  svc_callTool : string -> string -> Json -> W -> Outcome McpResult * W;
  svc_uuidv4 : W -> string * W;
  svc_now : W -> Z * W;
  JSON_parse : string -> Outcome Json;
  JSON_stringify : Json -> string
}.
Arguments svc_getModel {W} _ _ _.
Arguments svc_resolveAndDecryptApiKey {W} _ _ _.
Arguments svc_create {W} _ _ _ _ _.
Arguments svc_callTool {W} _ _ _ _ _.
Arguments svc_uuidv4 {W} _ _.
Arguments svc_now {W} _ _.
Arguments JSON_parse {W} _ _.
Arguments JSON_stringify {W} _ _.

(** ** The state and the monad of the handler *)

Record State (W : Type) := mkState {
  heap : gmap loc Cell;
  world : W;
  trace : list Event
}.
Arguments mkState {W} heap world trace.
Arguments heap {W} _.
Arguments world {W} _.
Arguments trace {W} _.

Definition M (W A : Type) : Type := State W -> Outcome A * State W.

Definition ret {W A} (a : A) : M W A := fun st => (Returns a, st).

Definition bind {W A B} (m : M W A) (k : A -> M W B) : M W B :=
  fun st =>
    match m st with
    | (Returns a, st') => k a st'
    | (Throws e, st') => (Throws e, st')
    end.

Definition throw {W A} (e : Thrown) : M W A := fun st => (Throws e, st).

(** [try { m } catch (error) { handler error }]: what [m] did before it
    threw stays done. *)
Definition try_catch {W A} (m : M W A) (handler : Thrown -> M W A) : M W A :=
  fun st =>
    match m st with
    | (Returns a, st') => (Returns a, st')
    | (Throws e, st') => handler e st'
    end.

Declare Scope js_scope.
Delimit Scope js_scope with js.
Notation "x <- m ;; k" := (bind m (fun x => k))
  (at level 100, m at next level, right associativity) : js_scope.
Notation "m ;; k" := (bind m (fun _ => k))
  (at level 100, right associativity) : js_scope.
Open Scope js_scope.

Fixpoint mapM {W A B} (f : A -> M W B) (l : list A) : M W (list B) :=
  match l with
  | [] => ret []
  | a :: l' => b <- f a ;; bs <- mapM f l' ;; ret (b :: bs)
  end.

(** [for (const x of l) { acc = body x acc }] *)
Fixpoint forOf {W A Acc} (body : A -> Acc -> M W Acc) (l : list A) (acc : Acc) : M W Acc :=
  match l with
  | [] => ret acc
  | a :: l' => acc' <- body a acc ;; forOf body l' acc'
  end.

Definition emit {W} (e : Event) : M W unit :=
  fun st => (Returns tt, mkState (heap st) (world st) (trace st ++ [e])).

Definition log {W} (level : LogLevel) (message : string) : M W unit :=
  emit (ELog level message).

(** *** Heap primitives *)

Definition TypeError (message : string) : Thrown := JsError "TypeError" message.

(** A new object or array. *)
Definition alloc {W} (c : Cell) : M W loc :=
  fun st =>
    let l := fresh (dom (heap st)) in
    (Returns l, mkState (<[l := c]> (heap st)) (world st) (trace st)).

Definition readCell {W} (l : loc) : M W (option Cell) :=
  fun st => (Returns (heap st !! l), st).

Definition writeCell {W} (l : loc) (c : Cell) : M W unit :=
  fun st => (Returns tt, mkState (<[l := c]> (heap st)) (world st) (trace st)).

(** The messages of a transcript array. *)
Definition readMessages {W} (l : loc) : M W (list FlujoChatMessage) :=
  c <- readCell l ;;
  match c with
  | Some (CMessages msgs) => ret msgs
  | _ => throw (TypeError "messages is not an array of messages")
  end.

(** [[...messages]] *)
Definition copyMessages {W} (l : loc) : M W loc :=
  msgs <- readMessages l ;; alloc (CMessages msgs).

(** [arr.push(m)] *)
Definition pushMessage {W} (l : loc) (m : FlujoChatMessage) : M W unit :=
  msgs <- readMessages l ;; writeCell l (CMessages (msgs ++ [m])).

(** The elements of an array of values. *)
Definition readArray {W} (l : loc) : M W (list Val) :=
  c <- readCell l ;;
  match c with
  | Some (CArr elems) => ret elems
  | _ => throw (TypeError "tools is not an array")
  end.

(** [v.k] for the named properties the handler reads ([type], [function],
    [parameters], [properties], [imageUrl], [format]): reading off
    [undefined] or [null] throws, a primitive or an array has none of them. *)
Definition getField {W} (v : Val) (k : string) : M W Val :=
  match v with
  | VUndefined | VNull => throw (TypeError ("Cannot read properties of undefined (reading '" +:+ k +:+ "')"))
  | VRef l =>
      c <- readCell l ;;
      match c with
      | Some (CObj props) => ret (default VUndefined (props !! k))
      | _ => ret VUndefined
      end
  | _ => ret VUndefined
  end.

(** ToBoolean *)
Definition truthy (v : Val) : bool :=
  match v with
  | VUndefined | VNull => false
  | VBool b => b
  | VNum n => negb (n =? 0)
  | VStr s => negb (String.eqb s "")
  | VRef _ => true
  end.

(** [typeof v === 'object'] *)
Definition typeof_object (v : Val) : bool :=
  match v with
  | VNull | VRef _ => true
  | _ => false
  end.

(** [v === 'text'] *)
Definition is_str (v : Val) (text : string) : bool :=
  match v with
  | VStr s => String.eqb s text
  | _ => false
  end.

(** The own enumerable properties an object spread copies. *)
Definition ownProps (c : option Cell) : gmap string Val :=
  match c with
  | Some (CObj props) => props
  | Some (CArr elems) => list_to_map (imap (fun i v => (pretty i, v)) elems)
  | _ => ∅
  end.

(** [{ ...v }]; a transcript is never spread. *)
Definition spread {W} (v : Val) : M W (gmap string Val) :=
  match v with
  | VRef l => c <- readCell l ;; ret (ownProps c)
  | _ => ret ∅
  end.

(** [delete o.k] and [o.k = v] on an object cell. *)
Definition updateObj {W} (l : loc) (f : gmap string Val -> gmap string Val) : M W unit :=
  c <- readCell l ;;
  match c with
  | Some (CObj props) => writeCell l (CObj (f props))
  | _ => ret tt
  end.

Definition deleteField {W} (l : loc) (k : string) : M W unit := updateObj l (delete k).

Definition setField {W} (l : loc) (k : string) (v : Val) : M W unit := updateObj l (<[k := v]>).

(** *** Reading the heap *)

(** Reading the heap: the properties of the object [v] refers to, the
    value of [v.k] ([undefined] when [v] is no object or has no [k]), and
    the value at the end of a chain of properties. *)
Definition objAt (h : gmap loc Cell) (v : Val) : option (gmap string Val) :=
  match v with
  | VRef l =>
      match h !! l with
      | Some (CObj props) => Some props
      | _ => None
      end
  | _ => None
  end.

Definition field (h : gmap loc Cell) (v : Val) (k : string) : Val :=
  match objAt h v with
  | Some props => default VUndefined (props !! k)
  | None => VUndefined
  end.

Definition path (h : gmap loc Cell) (v : Val) (ks : list string) : Val :=
  fold_left (field h) ks v.

(** Whether the object [v] refers to has an own property [k]. *)
Definition hasField (h : gmap loc Cell) (v : Val) (k : string) : bool :=
  match objAt h v with
  | Some props => bool_decide (is_Some (props !! k))
  | None => false
  end.

(** [tool.function.parameters.properties.imageUrl] *)
Definition imageUrlOf (h : gmap loc Cell) (tool : Val) : Val :=
  path h tool ["function"; "parameters"; "properties"; "imageUrl"].

(** The two guards of the tool-schema patch, read off the heap. *)
Definition functionToolWithProperties (h : gmap loc Cell) (tool : Val) : bool :=
  is_str (field h tool "type") "function"
  && (let parameters := field h (field h tool "function") "parameters" in
      truthy parameters && typeof_object parameters
      && (let properties := field h parameters "properties" in
          truthy properties && typeof_object properties)).

Definition stringWithFormat (h : gmap loc Cell) (imageUrl : Val) : bool :=
  truthy imageUrl && typeof_object imageUrl
  && is_str (field h imageUrl "type") "string"
  && truthy (field h imageUrl "format").

(** An [OpenAI.ChatCompletionTool]: an object whose [function] is an
    object. *)
Definition isTool (h : gmap loc Cell) (v : Val) : bool :=
  match field h v "function" with
  | VRef l => bool_decide (is_Some (objAt h (VRef l)))
  | _ => false
  end.

Definition needsPatch (h : gmap loc Cell) (tool : Val) : bool :=
  functionToolWithProperties h tool && stringWithFormat h (imageUrlOf h tool).

(** A function tool whose parameters have a property [imageUrl] of string
    type that carries a format: [format] is there with a truthy value. *)
Definition imageUrlWithFormat (h : gmap loc Cell) (tool : Val) : Prop :=
  field h tool "type" = VStr "function"
  /\ field h (imageUrlOf h tool) "type" = VStr "string"
  /\ truthy (field h (imageUrlOf h tool) "format") = true.

(** *** Small pure helpers *)

(** [a || b] on strings that may be absent. *)
Definition str_or (a : option string) (b : string) : string :=
  match a with
  | Some s => if String.eqb s "" then b else s
  | None => b
  end.

(** [error instanceof Error] *)
Definition instanceof_Error (e : Thrown) : bool :=
  match e with
  | NonError _ => false
  | _ => true
  end.

Definition error_name (e : Thrown) : string :=
  match e with
  | JsError n _ => n
  | _ => "Error"
  end.

Definition error_message (e : Thrown) : string :=
  match e with
  | JsError _ m => m
  | APIError m _ _ _ _ => m
  | NonError _ => ""
  end.

(** [error instanceof Error ? error.message : String(error)] *)
Definition message_or_String (e : Thrown) : string :=
  match e with
  | NonError text => text
  | _ => error_message e
  end.

(** [error instanceof Error ? error.message : 'Unknown error'] *)
Definition message_or_unknown (e : Thrown) : string :=
  if instanceof_Error e then error_message e else "Unknown error".

(** The number a JSON number literal denotes, as [m * 10^k] with the sign
    dropped: [mantissa] reads the digits up to the exponent marker, counts
    those behind the decimal point and returns what follows the marker;
    [exponent] reads a signed run of digits. *)
Definition digit_of (c : ascii) : option Z :=
  let n := nat_of_ascii c in
  if (Nat.leb 48 n && Nat.leb n 57)%bool then Some (Z.of_nat (n - 48)) else None.

Fixpoint mantissa (s : string) (m : Z) (behindPoint : bool) (decimals : Z) : Z * Z * string :=
  match s with
  | EmptyString => (m, decimals, EmptyString)
  | String c s' =>
      if (Ascii.eqb c "e" || Ascii.eqb c "E")%bool then (m, decimals, s')
      else if Ascii.eqb c "." then mantissa s' m true decimals
      else
        match digit_of c with
        | Some d => mantissa s' (10 * m + d) behindPoint (if behindPoint then decimals + 1 else decimals)
        | None => mantissa s' m behindPoint decimals
        end
  end.

Fixpoint digits (s : string) (n : Z) : Z :=
  match s with
  | EmptyString => n
  | String c s' =>
      match digit_of c with
      | Some d => digits s' (10 * n + d)
      | None => digits s' n
      end
  end.

Definition exponent (s : string) : Z :=
  match s with
  | String c s' => if Ascii.eqb c "-" then - digits s' 0 else digits s 0
  | EmptyString => 0
  end.

(** A number literal that [JSON.parse] reads as [0] or [-0]: its value is
    zero, or so small that the nearest double is zero, which is the case
    up to and including [2^-1075], half the least positive double. *)
Definition zero_literal (literal : string) : bool :=
  let '(m, decimals, rest) := mantissa literal 0 false 0 in
  let k := exponent rest - decimals in
  (m =? 0) || ((k <? 0) && (m * 2 ^ 1075 <=? 10 ^ (- k))).

Definition json_truthy (v : Json) : bool :=
  match v with
  | JNull => false
  | JBool b => b
  | JNum literal => negb (zero_literal literal)
  | JStr s => negb (String.eqb s "")
  | JArr _ | JObj _ => true
  end.

(** [({ timestamp, ...rest }) => rest] *)
Definition stripTimestamp (m : FlujoChatMessage) : ApiMessage :=
  {| api_id := msg_id m;
     api_role := msg_role m;
     api_content := msg_content m;
     api_tool_calls := msg_tool_calls m;
     api_tool_call_id := msg_tool_call_id m;
     api_processNodeId := msg_processNodeId m |}.

(** [chatCompletion?.choices?.[0]] *)
Definition firstChoice (cc : ChatCompletion) : option Choice :=
  match cc_choices cc with
  | Some (c :: _) => Some c
  | _ => None
  end.

(** [fullResponse?.choices?.[0]?.message?.tool_calls] *)
Definition firstChoiceToolCalls (cc : ChatCompletion) : option (list RequestedToolCall) :=
  match firstChoice cc with
  | Some c =>
      match ch_message c with
      | Some m => rm_tool_calls m
      | None => None
      end
  | None => None
  end.

(** [choice.message?.content || ''] *)
Definition choiceContent (c : Choice) : string :=
  match ch_message c with
  | Some m => str_or (rm_content m) ""
  | None => ""
  end.

(** [/^## .+says:\s*\n\n/i] *)
Definition headingPattern : Regex.re :=
  Regex.Cat (Regex.word Regex.lit_i "## ")
    (Regex.Cat (Regex.Plus Regex.dot)
       (Regex.Cat (Regex.word Regex.lit_i "says:")
          (Regex.Cat (Regex.Star Regex.space)
             (Regex.word Regex.lit_i (nl +:+ nl))))).

Definition hasHeadingPattern (content : string) : bool :=
  Regex.test headingPattern content.

(** [`## ${nodeDisplayName} - ${modelDisplayName} (${modelTechnicalName}) says:\n\n${content}`] *)
Definition prefixWith (nodeDisplayName modelDisplayName modelTechnicalName content : string) : string :=
  "## " +:+ nodeDisplayName +:+ " - " +:+ modelDisplayName +:+ " (" +:+ modelTechnicalName
    +:+ ") says:" +:+ nl +:+ nl +:+ content.

(** [modelDisplayName && !hasHeadingPattern ? `## ... says:\n\n${content}` : content] *)
Definition prefixedContent (nodeDisplayName modelDisplayName modelTechnicalName content : string) : string :=
  if (negb (String.eqb modelDisplayName "") && negb (hasHeadingPattern content))%bool
  then prefixWith nodeDisplayName modelDisplayName modelTechnicalName content
  else content.

(** [name.startsWith('handoff_to_') || name === 'handoff'] *)
Definition isHandoff (name : string) : bool :=
  (startsWith name "handoff_to_" || String.eqb name "handoff")%bool.

Definition toolMessage (id tool_call_id : string) (content : option string) (timestamp : Z)
  : FlujoChatMessage :=
  {| msg_id := id;
     msg_role := tool;
     msg_content := content;
     msg_tool_calls := None;
     msg_tool_call_id := Some tool_call_id;
     msg_timestamp := timestamp;
     msg_processNodeId := None |}.

(** ** Frames and traces

    [keeps h0 m Q]: run from a heap that extends [h0], [m] ends in a heap
    that still extends [h0] (no cell of [h0] is changed or removed), and a
    value it returns satisfies [Q].  [tracesOn m]: what is in the trace
    when [m] starts is in it when [m] ends. *)

Definition keeps {W A} (h0 : gmap loc Cell) (m : M W A) (Q : A -> Prop) : Prop :=
  forall st, h0 ⊆ heap st ->
    h0 ⊆ heap (snd (m st)) /\ forall a, fst (m st) = Returns a -> Q a.

Definition tracesOn {W A} (m : M W A) : Prop :=
  forall st e, e ∈ trace st -> e ∈ trace (snd (m st)).

(** ** The handler *)

Section ModelHandler.

Context {W : Type} (S : Services W).

(** *** Calls to the collaborators *)

Definition getModel (modelId : string) : M W (option ModelDescriptor) :=
  fun st =>
    let '(r, w) := svc_getModel S modelId (world st) in
    (r, mkState (heap st) w (trace st ++ [EGetModel modelId])).

Definition resolveAndDecryptApiKey (ref : string) : M W (option string) :=
  fun st =>
    let '(r, w) := svc_resolveAndDecryptApiKey S ref (world st) in
    (r, mkState (heap st) w (trace st ++ [EResolveKey ref])).

(** [new OpenAI(cfg).chat.completions.create(req)] *)
Definition create (cfg : ClientConfig) (req : RequestParams) : M W ChatCompletion :=
  fun st =>
    let '(r, w) := svc_create S cfg req (heap st) (world st) in
    (r, mkState (heap st) w (trace st ++ [ECreate cfg req])).

(** [mcpService.callTool(serverName, toolName, args)] *)
Definition callTool (serverName toolName : string) (args : Json) : M W McpResult :=
  fun st =>
    let '(r, w) := svc_callTool S serverName toolName args (world st) in
    (r, mkState (heap st) w (trace st ++ [ECallTool serverName toolName args])).

Definition uuidv4 : M W string :=
  fun st =>
    let '(u, w) := svc_uuidv4 S (world st) in
    (Returns u, mkState (heap st) w (trace st)).

Definition Date_now : M W Z :=
  fun st =>
    let '(t, w) := svc_now S (world st) in
    (Returns t, mkState (heap st) w (trace st)).

Definition parseJson (text : string) : M W Json :=
  fun st => (JSON_parse S text, st).

(** A message taken from a parsed payload; one that is not a string is
    kept in its serialised form. *)
Definition json_message (v : Json) : string :=
  match v with
  | JStr s => s
  | _ => JSON_stringify S v
  end.

(** *** The tool-schema patch of [generateCompletion] *)

(** The type guard on the tool: a function tool whose [parameters] and
    [parameters.properties] are objects. *)
Definition hasParameterProperties (tool : Val) : M W bool :=
  type <- getField tool "type" ;;
  if is_str type "function" then
    fn <- getField tool "function" ;;
    parameters <- getField fn "parameters" ;;
    if (truthy parameters && typeof_object parameters)%bool then
      properties <- getField parameters "properties" ;;
      ret (truthy properties && typeof_object properties)%bool
    else ret false
  else ret false.

(** The check on [props.imageUrl]: an object of type [string] with a
    truthy [format]. *)
Definition isStringWithFormat (imageUrl : Val) : M W bool :=
  if (truthy imageUrl && typeof_object imageUrl)%bool then
    type <- getField imageUrl "type" ;;
    if is_str type "string" then
      format <- getField imageUrl "format" ;;
      ret (truthy format)
    else ret false
  else ret false.

(** The copies: [parameters], [properties] and [imageUrl] are spread into
    new objects, [format] is deleted from the new [imageUrl], the new
    objects are linked, and a new tool with a new [function] is built
    around them. *)
Definition withoutFormat (tool fn params props imageUrl : Val) : M W Val :=
  mutableParams <- (p <- spread params ;; alloc (CObj p)) ;;
  mutableProps <- (p <- spread props ;; alloc (CObj p)) ;;
  mutableImageUrl <- (p <- spread imageUrl ;; alloc (CObj p)) ;;
  deleteField mutableImageUrl "format" ;;
  setField mutableProps "imageUrl" (VRef mutableImageUrl) ;;
  setField mutableParams "properties" (VRef mutableProps) ;;
  fnProps <- spread fn ;;
  newFunction <- alloc (CObj (<["parameters" := VRef mutableParams]> fnProps)) ;;
  toolProps <- spread tool ;;
  newTool <- alloc (CObj (<["function" := VRef newFunction]> toolProps)) ;;
  ret (VRef newTool).

(** The callback of [tools.map]. *)
Definition patchTool (tool : Val) : M W Val :=
  isFunctionTool <- hasParameterProperties tool ;;
  if (isFunctionTool : bool) then
    fn <- getField tool "function" ;;
    params <- getField fn "parameters" ;;
    props <- getField params "properties" ;;
    imageUrl <- getField props "imageUrl" ;;
    needsPatch <- isStringWithFormat imageUrl ;;
    if (needsPatch : bool) then withoutFormat tool fn params props imageUrl
    else ret tool
  else ret tool.

(** [tools.map(tool => ...)] *)
Definition patchTools (tools : list Val) : M W loc :=
  patched <- mapM patchTool tools ;;
  alloc (CArr patched).

(** *** generateCompletion *)

(** The [catch] block of [generateCompletion]. *)
Definition completionFailed (modelId : string) (error : Thrown) : M W (Result ModelCallResult) :=
  log Error "--- Error during openai.chat.completions.create ---" ;;
  (if instanceof_Error error then
     log Error ("Error Name: " +:+ error_name error) ;;
     log Error ("Error Message: " +:+ error_message error) ;;
     log Error "Error Stack"
   else log Error "Caught non-Error object:") ;;
  (match error with
   | APIError _ _ _ _ _ =>
       log Error "API Error Status" ;;
       log Error "API Error Type" ;;
       log Error "API Error Code" ;;
       log Error "API Error Param" ;;
       log Error "API Error Headers"
   | _ => ret tt
   end) ;;
  log Error "--- End Error Details ---" ;;
  match error with
  | APIError message _ _ _ _ =>
      log Verbose "generateCompletion API error" ;;
      ret (Failure (createModelError "api_error" message modelId))
  | _ =>
      log Verbose "generateCompletion unknown error" ;;
      ret (Failure (createModelError "unknown_error" (message_or_String error) modelId))
  end.

(** The response body carries an [error] object. *)
Definition embeddedError (modelId : string) (errorObj : ProviderError) : M W (Result ModelCallResult) :=
  log Warn "API call returned successfully but contained an error object:" ;;
  let fallback :=
    str_or (pe_message errorObj) "Provider returned an unspecified error in the response body." in
  detailedMessage <-
    try_catch
      (match pe_metadata_raw errorObj with
       | Some raw =>
           if String.eqb raw "" then ret fallback
           else
             rawErrorData <- parseJson raw ;;
             match json_get "message" (json_get "error" (Some rawErrorData)) with
             | Some m =>
                 if json_truthy m then
                   log Info "Extracted detailed error message from metadata.raw:" ;;
                   ret (json_message m)
                 else ret fallback
             | None => ret fallback
             end
       | None => ret fallback
       end)
      (fun parseError =>
         log Warn "Failed to parse metadata.raw for detailed error message:" ;;
         ret fallback) ;;
  log Verbose "generateCompletion returning error from response body" ;;
  ret (Failure (createModelError "api_error" detailedMessage modelId)).

(** The tools of the request: none when no tool is supplied, the patched
    copy of the array otherwise. *)
Definition requestTools (tools : option loc) : M W (option loc) :=
  match tools with
  | Some t =>
      elems <- readArray t ;;
      match elems with
      | [] => ret None
      | _ :: _ => patchedTools <- patchTools elems ;; ret (Some patchedTools)
      end
  | None => ret None
  end.

(** What [generateCompletion] makes of the provider's response. *)
Definition completionResult (modelId : string) (messages : loc) (chatCompletion : ChatCompletion)
  : M W (Result ModelCallResult) :=
  log Verbose "chatcompletion returned" ;;
  log Verbose "chatcompletion returned" ;;
  match cc_error chatCompletion with
  | Some errorObj => embeddedError modelId errorObj
  | None =>
      match firstChoice chatCompletion with
      | None =>
          log Error "API response missing choices array or first choice." ;;
          ret (Failure (createModelError "api_error"
                          "Invalid response structure from API: Missing choices." modelId))
      | Some choice =>
          messagesCopy <- copyMessages messages ;;
          log Verbose "generateCompletion success result" ;;
          ret (Success {| mcr_content := choiceContent choice;
                          mcr_messages := messagesCopy;
                          mcr_fullResponse := chatCompletion;
                          mcr_toolCalls := None |})
      end
  end.

(** The request for a resolved model and key: the messages without their
    timestamps, the patched tools, then the call and its result. *)
Definition requestCompletion (modelId : string) (messages : loc) (tools : option loc)
    (model : ModelDescriptor) (key : string) : M W (Result ModelCallResult) :=
  let temperature :=
    match temperature model with
    | Some t => if String.eqb t "" then TempDefault else TempParsed t
    | None => TempDefault
    end in
  log Verbose "decrypted api key" ;;
  log Verbose "baseurl" ;;
  let openai := {| apiKey := key; baseURL := baseUrl model |} in
  msgs <- readMessages messages ;;
  let apiMessages := map stripTimestamp msgs in
  patchedTools <- requestTools tools ;;
  let requestParams :=
    {| rq_model := name model;
       rq_messages := apiMessages;
       rq_temperature := temperature;
       rq_tools := patchedTools |} in
  log Debug "calling chatcompletion" ;;
  log Verbose "calling chatcompletion now with MODEL" ;;
  log Verbose "calling chatcompletion now with TEMP" ;;
  log Verbose "calling chatcompletion now with MESSAGES" ;;
  log Verbose "calling chatcompletion now with TOOLS" ;;
  chatCompletion <- create openai requestParams ;;
  completionResult modelId messages chatCompletion.

Definition generateCompletion (modelId prompt : string) (messages : loc) (tools : option loc)
  : M W (Result ModelCallResult) :=
  log Verbose "generateCompletion input" ;;
  try_catch
    (model <- getModel modelId ;;
     match model with
     | None =>
         ret (Failure (createModelError "model_not_found" ("Model not found: " +:+ modelId) modelId))
     | Some model =>
         decryptedApiKey <- resolveAndDecryptApiKey (ApiKey model) ;;
         match decryptedApiKey with
         | None =>
             ret (Failure (createModelError "api_key_error" "Failed to resolve or decrypt API key" modelId))
         | Some key =>
             if String.eqb key "" then
               ret (Failure (createModelError "api_key_error" "Failed to resolve or decrypt API key" modelId))
             else requestCompletion modelId messages tools model key
         end
     end)
    (completionFailed modelId).

(** *** callModel *)

(** The model lookup for the display names; a failed lookup leaves both
    names empty. *)
Definition lookupDisplayNames (modelId : string) : M W (string * string) :=
  try_catch
    (model <- getModel modelId ;;
     match model with
     | Some model => ret (str_or (displayName model) (name model), name model)
     | None => ret ("", "")
     end)
    (fun error =>
       log Warn ("Failed to fetch model information for prefix: " +:+ message_or_String error) ;;
       ret ("", "")).

(** [callModel] up to the completion call. *)
Definition callModelPrelude (input : ModelCallInput) : M W (string * string) :=
  names <- lookupDisplayNames (in_modelId input) ;;
  messagesCount <- readMessages (in_messages input) ;;
  log Info "callModel - Single execution" ;;
  log Verbose "callModel input" ;;
  ret names.

(** The callback of [tool_calls.map] in [callModel]. *)
Definition extractToolCall (tc : RequestedToolCall) : M W ToolCallInfo :=
  try_catch
    (args <- parseJson (tc_arguments tc) ;;
     ret {| tci_name := tc_name tc; tci_args := args; tci_id := tc_id tc;
            tci_result := Some "" |})
    (fun e =>
       log Warn ("Failed to parse tool arguments for call " +:+ tc_id tc) ;;
       ret {| tci_name := tc_name tc; tci_args := JObj []; tci_id := tc_id tc;
              tci_result := Some "" |}).

(** [callModel] after a successful completion call.  The mapped
    descriptors are objects, so [filter(Boolean)] keeps them all. *)
Definition appendAssistant (input : ModelCallInput) (names : string * string)
    (modelResponse : ModelCallResult) : M W (Result ModelCallResult) :=
  let modelDisplayName := fst names in
  let modelTechnicalName := snd names in
  let nodeDisplayName := in_nodeName input in
  let content := str_or (Some (mcr_content modelResponse)) "" in
  finalMessages <- copyMessages (in_messages input) ;;
  let prefixed := prefixedContent nodeDisplayName modelDisplayName modelTechnicalName content in
  id <- uuidv4 ;;
  timestamp <- Date_now ;;
  let assistantMessage :=
    {| msg_id := id;
       msg_role := assistant;
       msg_content := Some prefixed;
       msg_tool_calls := firstChoiceToolCalls (mcr_fullResponse modelResponse);
       msg_tool_call_id := None;
       msg_timestamp := timestamp;
       msg_processNodeId := in_nodeId input |} in
  pushMessage finalMessages assistantMessage ;;
  toolCalls <-
    (match firstChoiceToolCalls (mcr_fullResponse modelResponse) with
     | Some tcs => infos <- mapM extractToolCall tcs ;; ret (Some infos)
     | None => ret None
     end) ;;
  log Verbose "callModel single step result" ;;
  ret (Success {| mcr_content := match msg_content assistantMessage with
                                 | Some text => text
                                 | None => content
                                 end;
                  mcr_messages := finalMessages;
                  mcr_fullResponse := mcr_fullResponse modelResponse;
                  mcr_toolCalls := toolCalls |}).

Definition callModel (input : ModelCallInput) : M W (Result ModelCallResult) :=
  names <- callModelPrelude input ;;
  response <- generateCompletion (in_modelId input) (in_prompt input) (in_messages input) (in_tools input) ;;
  match response with
  | Failure error =>
      log Verbose "callModel error response" ;;
      ret (Failure error)
  | Success modelResponse => appendAssistant input names modelResponse
  end.

(** The display name and the technical name [callModel] has resolved
    when the model catalog is asked in world [w]. *)
Definition resolvedNames (modelId : string) (w : W) : string * string :=
  match fst (svc_getModel S modelId w) with
  | Returns (Some model) => (str_or (displayName model) (name model), name model)
  | _ => ("", "")
  end.

(** What the extraction makes of one requested call, and the warnings it
    logs for a sequence of them. *)
Definition extracted (tc : RequestedToolCall) : ToolCallInfo :=
  {| tci_name := tc_name tc;
     tci_args := match JSON_parse S (tc_arguments tc) with
                 | Returns args => args
                 | Throws _ => JObj []
                 end;
     tci_id := tc_id tc;
     tci_result := Some "" |}.

Definition extractionWarnings (tcs : list RequestedToolCall) : list Event :=
  flat_map
    (fun tc =>
       match JSON_parse S (tc_arguments tc) with
       | Returns _ => []
       | Throws _ => [ELog Warn ("Failed to parse tool arguments for call " +:+ tc_id tc)]
       end)
    tcs.

(** The completion call [callModel] makes when started in [st]: it runs
    in the state the prelude leaves. *)
Definition completionCall (input : ModelCallInput) (st : State W)
  : Outcome (Result ModelCallResult) * State W :=
  generateCompletion (in_modelId input) (in_prompt input) (in_messages input)
    (in_tools input) (snd (callModelPrelude input st)).

(** *** processToolCalls *)

Definition Collected : Type := list FlujoChatMessage * list ToolCallInfo.

(** The body of the [for] loop, with its [try]/[catch]. *)
Definition processToolCall (toolCall : RequestedToolCall) (acc : Collected) : M W Collected :=
  let id := tc_id toolCall in
  let name := tc_name toolCall in
  let argsString := tc_arguments toolCall in
  try_catch
    (args <- parseJson argsString ;;
     log Info "trying to call tool" ;;
     if isHandoff name then
       log Info ("Processing handoff tool: " +:+ name) ;;
       let resultContent := JSON_stringify S (JObj [("handoff", JBool true); ("args", args)]) in
       messageId <- uuidv4 ;;
       timestamp <- Date_now ;;
       ret ((fst acc ++ [toolMessage messageId id (Some resultContent) timestamp]),
            (snd acc ++ [{| tci_name := name; tci_args := args; tci_id := id;
                            tci_result := Some resultContent |}]))
     else
       let parts := split name "_-_-_" in
       if negb (Nat.eqb (List.length parts) 3) then
         log Error "invalid tool format" ;;
         throw (JsError "Error" ("Invalid tool name format: " +:+ name))
       else
         let serverName := default "" (parts !! 1%nat) in
         let toolName := default "" (parts !! 2%nat) in
         result <- callTool serverName toolName args ;;
         let resultContent :=
           if mcp_success result
           then option_map (JSON_stringify S) (mcp_data result)
           else Some ("Error: " +:+ default "undefined" (mcp_error result)) in
         messageId <- uuidv4 ;;
         timestamp <- Date_now ;;
         ret ((fst acc ++ [toolMessage messageId id resultContent timestamp]),
              (snd acc ++ [{| tci_name := name; tci_args := args; tci_id := id;
                              tci_result := resultContent |}])))
    (fun error =>
       let errorMessage := "Error: " +:+ message_or_unknown error in
       messageId <- uuidv4 ;;
       timestamp <- Date_now ;;
       ret ((fst acc ++ [toolMessage messageId id (Some errorMessage) timestamp]),
            (snd acc ++ [{| tci_name := name; tci_args := JObj []; tci_id := id;
                            tci_result := Some errorMessage |}]))).

Definition processToolCalls (toolCalls : option (list RequestedToolCall))
  : M W (Result ToolCallProcessingResult) :=
  log Verbose "processToolCalls input" ;;
  match toolCalls with
  | None | Some [] =>
      log Verbose "processToolCalls empty result" ;;
      ret (Success {| toolCallMessages := []; processedToolCalls := [] |})
  | Some toolCalls =>
      try_catch
        (collected <- forOf processToolCall toolCalls ([], []) ;;
         log Verbose "processToolCalls success result" ;;
         ret (Success {| toolCallMessages := fst collected; processedToolCalls := snd collected |}))
        (fun error =>
           log Verbose "processToolCalls error result" ;;
           ret (Failure (createToolError "tool_processing_failed" (message_or_String error) "unknown")))
  end.

(** The loop of [processToolCalls] starts after the entry log line; the
    state in which a call is taken up is the one the calls before it
    ([earlier]) have left. *)
Definition loopStart (st : State W) : State W :=
  snd (log Verbose "processToolCalls input" st).

Definition stateBeforeCall (earlier : list RequestedToolCall) (st : State W) : State W :=
  snd (forOf processToolCall earlier ([], []) (loopStart st)).

(** The id and the timestamp a message created in world [w] gets
    ([uuidv4()], then [Date.now()]), and the world after the two calls. *)
Definition stampId (w : W) : string := fst (svc_uuidv4 S w).
Definition stampTime (w : W) : Z := fst (svc_now S (snd (svc_uuidv4 S w))).
Definition stamped (w : W) : W := snd (svc_now S (snd (svc_uuidv4 S w))).

(** The result content of an MCP-routed call the service has answered:
    [result.success ? JSON.stringify(result.data) : `Error: ${result.error}`].
    [JSON.stringify(undefined)] is [undefined], and an absent [error] is
    printed as [undefined]. *)
Definition mcpResultContent (result : McpResult) : option string :=
  if mcp_success result
  then option_map (JSON_stringify S) (mcp_data result)
  else Some ("Error: " +:+ default "undefined" (mcp_error result)).

(** The dispatcher succeeds on [calls]; the message and the record at
    position [i] are [m] and [r]; messages and records come in the order of
    the calls, one of each per call. *)
Definition dispatchedAs (calls : list RequestedToolCall) (st : State W) (i : nat)
    (m : FlujoChatMessage) (r : ToolCallInfo) : Prop :=
  exists v st',
    processToolCalls (Some calls) st = (Returns (Success v), st')
    /\ toolCallMessages v !! i = Some m
    /\ processedToolCalls v !! i = Some r
    /\ map msg_tool_call_id (toolCallMessages v) = map (fun tc => Some (tc_id tc)) calls
    /\ map tci_id (processedToolCalls v) = map tc_id calls
    /\ heap st' = heap st.

(** *** hasToolCalls *)

Definition hasToolCalls (response : ModelCallResult) : bool :=
  match firstChoiceToolCalls (mcr_fullResponse response) with
  | Some (_ :: _) => true
  | _ => false
  end.

End ModelHandler.

(** ** Views of a run

    What a trace says about the collaborators: the completion requests and
    the MCP calls made, in order; and [emitsOnly Q m]: the trace only grows
    while [m] runs, by events that satisfy [Q]. *)

Definition requests (t : list Event) : list (ClientConfig * RequestParams) :=
  omap (fun e => match e with ECreate cfg req => Some (cfg, req) | _ => None end) t.

Definition mcpCalls (t : list Event) : list (string * string * Json) :=
  omap (fun e =>
          match e with
          | ECallTool serverName toolName args => Some (serverName, toolName, args)
          | _ => None
          end) t.

Definition notRequest (e : Event) : Prop :=
  match e with ECreate _ _ => False | _ => True end.

Definition notMcpCall (e : Event) : Prop :=
  match e with ECallTool _ _ _ => False | _ => True end.

(** A log line or an MCP call: what the dispatcher may do to the outside. *)
Definition logOrMcpCall (e : Event) : Prop :=
  match e with ELog _ _ | ECallTool _ _ _ => True | _ => False end.

Definition emitsOnly {W A} (Q : Event -> Prop) (m : M W A) : Prop :=
  forall st, exists evs, trace (snd (m st)) = trace st ++ evs /\ Forall Q evs.

(** A run that makes at most one completion request. *)
Definition atMostOneRequest {W A} (m : M W A) : Prop :=
  forall st,
    requests (trace (snd (m st))) = requests (trace st)
    \/ exists cfg req, requests (trace (snd (m st))) = requests (trace st) ++ [(cfg, req)].

Definition isLog (e : Event) : Prop :=
  match e with ELog _ _ => True | _ => False end.

(** [returnsOnly Q m]: a value [m] returns satisfies [Q]. *)
Definition returnsOnly {W A} (Q : A -> Prop) (m : M W A) : Prop :=
  forall st a, fst (m st) = Returns a -> Q a.

(** The kinds of error [generateCompletion] builds, and a failure of one
    of these kinds, made by [createModelError] for the model [modelId]. *)
Definition modelErrorKinds : list string :=
  ["model_not_found"; "api_key_error"; "api_error"; "unknown_error"].

Definition modelFailure (modelId : string) (e : ExecutionError) : Prop :=
  err_source e = ModelError /\ err_subject e = modelId /\ err_type e ∈ modelErrorKinds.

(** A result that, when it is a failure, is a failure of these kinds. *)
Definition failsWith (modelId : string) (r : Result ModelCallResult) : Prop :=
  forall e, r = Failure e -> modelFailure modelId e.

(** The objects [v] in [h] and [v'] in [h'] agree on every property but
    [k]. *)
Definition sameBut (h h' : gmap loc Cell) (v v' : Val) (k : string) : Prop :=
  forall k', k' <> k -> field h' v' k' = field h v k'.

(** [!(tools && tools.length > 0)]: no array of tools, or an empty one. *)
Definition noTools (h : gmap loc Cell) (tools : option loc) : Prop :=
  tools = None \/ exists l, tools = Some l /\ h !! l = Some (CArr []).

(** [tools] is left out, or it is an array of tools: objects whose
    [function] is an object. *)
Definition toolsOrNone (h : gmap loc Cell) (tools : option loc) : Prop :=
  match tools with
  | None => True
  | Some t =>
      exists elems, h !! t = Some (CArr elems) /\ Forall (fun v => isTool h v = true) elems
  end.

(** A string without line terminator, which [.] matches throughout. *)
Fixpoint oneLine (s : string) : bool :=
  match s with
  | EmptyString => true
  | String c s' => negb (Ascii.eqb c "010"%char || Ascii.eqb c "013"%char) && oneLine s'
  end.

(** The failure [generateCompletion] makes of a thrown value: [api_error]
    with the error's message for an [OpenAI.APIError], [unknown_error] with
    the message, or [String(error)], for anything else. *)
Definition classified (modelId : string) (error : Thrown) : ExecutionError :=
  match error with
  | APIError message _ _ _ _ => createModelError "api_error" message modelId
  | _ => createModelError "unknown_error" (message_or_String error) modelId
  end.

Section Routing.

Context {W : Type} (S : Services W).

(** The MCP call the dispatcher makes for a requested call: none when the
    arguments do not parse, for a handoff name, or for a name that does not
    split into three segments. *)
Definition routed (tc : RequestedToolCall) : option (string * string * Json) :=
  match JSON_parse S (tc_arguments tc) with
  | Returns args =>
      if isHandoff (tc_name tc) then None
      else
        let parts := split (tc_name tc) "_-_-_" in
        if Nat.eqb (List.length parts) 3
        then Some (default "" (parts !! 1%nat), default "" (parts !! 2%nat), args)
        else None
  | Throws _ => None
  end.

(** The request [generateCompletion] builds for a resolved model and key,
    the transcript [T] and the tools [tools]. *)
Definition requestFor (model : ModelDescriptor) (key : string) (T : list FlujoChatMessage)
    (tools : option loc) : ClientConfig * RequestParams :=
  ({| apiKey := key; baseURL := baseUrl model |},
   {| rq_model := name model;
      rq_messages := map stripTimestamp T;
      rq_temperature :=
        match temperature model with
        | Some t => if String.eqb t "" then TempDefault else TempParsed t
        | None => TempDefault
        end;
      rq_tools := tools |}).

End Routing.

(** ** A reference world

    One concrete choice of collaborators, to run the handler on concrete
    inputs: a parser and a printer for JSON texts, and services that answer
    from a script.  The theorems below hold for every [Services]; this one
    serves the examples. *)

Module Reference.

(** *** JSON texts *)

Definition is_ws (c : ascii) : bool :=
  (Ascii.eqb c " " || Ascii.eqb c "009" || Ascii.eqb c "010" || Ascii.eqb c "013")%bool.

Definition is_digit (c : ascii) : bool :=
  let n := nat_of_ascii c in (Nat.leb 48 n && Nat.leb n 57)%bool.

Fixpoint skip_ws (s : string) : string :=
  match s with
  | String c s' => if is_ws c then skip_ws s' else s
  | EmptyString => s
  end.

Definition hex_value (c : ascii) : option nat :=
  let n := nat_of_ascii c in
  if (Nat.leb 48 n && Nat.leb n 57)%bool then Some (n - 48)%nat
  else if (Nat.leb 97 n && Nat.leb n 102)%bool then Some (n - 87)%nat
  else if (Nat.leb 65 n && Nat.leb n 70)%bool then Some (n - 55)%nat
  else None.

(** The body of a string literal, after its opening quote; [acc] is what
    was read, in reverse.  An escape for a code unit above 255 is outside
    this reference parser. *)
Fixpoint parse_string (s : string) (acc : string) : option (string * string) :=
  match s with
  | EmptyString => None
  | String c r =>
      if Ascii.eqb c "034" then Some (String.rev acc, r)
      else if Ascii.eqb c "\" then
        match r with
        | String e r' =>
            if Ascii.eqb e "034" then parse_string r' (String "034" acc)
            else if Ascii.eqb e "\" then parse_string r' (String "\" acc)
            else if Ascii.eqb e "/" then parse_string r' (String "/" acc)
            else if Ascii.eqb e "b" then parse_string r' (String "008" acc)
            else if Ascii.eqb e "f" then parse_string r' (String "012" acc)
            else if Ascii.eqb e "n" then parse_string r' (String "010" acc)
            else if Ascii.eqb e "r" then parse_string r' (String "013" acc)
            else if Ascii.eqb e "t" then parse_string r' (String "009" acc)
            else if Ascii.eqb e "u" then
              match r' with
              | String h1 (String h2 (String h3 (String h4 r''))) =>
                  match hex_value h1, hex_value h2, hex_value h3, hex_value h4 with
                  | Some 0%nat, Some 0%nat, Some a, Some b =>
                      parse_string r'' (String (ascii_of_nat (16 * a + b)) acc)
                  | _, _, _, _ => None
                  end
              | _ => None
              end
            else None
        | EmptyString => None
        end
      else if Nat.ltb (nat_of_ascii c) 32 then None
      else parse_string r (String c acc)
  end.

(** The longest run of digits at the head. *)
Fixpoint take_digits (s : string) : string * string :=
  match s with
  | String c s' =>
      if is_digit c then let '(d, r) := take_digits s' in (String c d, r) else (EmptyString, s)
  | EmptyString => (EmptyString, s)
  end.

(** A number literal: an optional minus sign, an integer part without
    leading zero, an optional fraction, an optional exponent. *)
Definition parse_number (s : string) : option (string * string) :=
  let '(sign, s1) :=
    match s with
    | String "-" r => ("-", r)
    | _ => ("", s)
    end in
  let '(int, s2) := take_digits s1 in
  match int with
  | EmptyString => None
  | String d ds =>
      if (Ascii.eqb d "0" && negb (String.eqb ds ""))%bool then None
      else
        let frac :=
          match s2 with
          | String "." r =>
              let '(f, s3) := take_digits r in
              if String.eqb f "" then None else Some ("." +:+ f, s3)
          | _ => Some ("", s2)
          end in
        match frac with
        | None => None
        | Some (f, s3) =>
            let expo :=
              match s3 with
              | String e r =>
                  if (Ascii.eqb e "e" || Ascii.eqb e "E")%bool then
                    let '(sg, r1) :=
                      match r with
                      | String "+" r0 => ("+", r0)
                      | String "-" r0 => ("-", r0)
                      | _ => ("", r)
                      end in
                    let '(x, s4) := take_digits r1 in
                    if String.eqb x "" then None
                    else Some (String e EmptyString +:+ sg +:+ x, s4)
                  else Some ("", s3)
              | EmptyString => Some ("", s3)
              end in
            match expo with
            | None => None
            | Some (x, s4) => Some (sign +:+ int +:+ f +:+ x, s4)
            end
        end
  end.

(** [word] at the head of [s], and what follows it. *)
Definition keyword (word s : string) : option string :=
  if String.prefix word s
  then Some (String.substring (String.length word) (String.length s - String.length word) s)
  else None.

(** A value, its elements and its members; [fuel] bounds the number of
    nested and chained calls, which twice the length of the text covers. *)
Fixpoint parse_value (fuel : nat) (s : string) : option (Json * string) :=
  match fuel with
  | O => None
  | S fuel' =>
      match skip_ws s with
      | EmptyString => None
      | String c r =>
          if Ascii.eqb c "{" then
            match skip_ws r with
            | String "}" r' => Some (JObj [], r')
            | _ => parse_members fuel' r []
            end
          else if Ascii.eqb c "[" then
            match skip_ws r with
            | String "]" r' => Some (JArr [], r')
            | _ => parse_items fuel' r []
            end
          else if Ascii.eqb c "034" then
            match parse_string r EmptyString with
            | Some (str, r') => Some (JStr str, r')
            | None => None
            end
          else if Ascii.eqb c "t" then
            match keyword "true" (String c r) with
            | Some r' => Some (JBool true, r')
            | None => None
            end
          else if Ascii.eqb c "f" then
            match keyword "false" (String c r) with
            | Some r' => Some (JBool false, r')
            | None => None
            end
          else if Ascii.eqb c "n" then
            match keyword "null" (String c r) with
            | Some r' => Some (JNull, r')
            | None => None
            end
          else
            match parse_number (String c r) with
            | Some (literal, r') => Some (JNum literal, r')
            | None => None
            end
      end
  end
with parse_items (fuel : nat) (s : string) (acc : list Json) : option (Json * string) :=
  match fuel with
  | O => None
  | S fuel' =>
      match parse_value fuel' s with
      | Some (v, r) =>
          match skip_ws r with
          | String "," r' => parse_items fuel' r' (v :: acc)
          | String "]" r' => Some (JArr (rev (v :: acc)), r')
          | _ => None
          end
      | None => None
      end
  end
with parse_members (fuel : nat) (s : string) (acc : list (string * Json)) : option (Json * string) :=
  match fuel with
  | O => None
  | S fuel' =>
      match skip_ws s with
      | String "034" r =>
          match parse_string r EmptyString with
          | Some (key, r1) =>
              match skip_ws r1 with
              | String ":" r2 =>
                  match parse_value fuel' r2 with
                  | Some (v, r3) =>
                      match skip_ws r3 with
                      | String "," r4 => parse_members fuel' r4 ((key, v) :: acc)
                      | String "}" r4 => Some (JObj (rev ((key, v) :: acc)), r4)
                      | _ => None
                      end
                  | None => None
                  end
              | _ => None
              end
          | None => None
          end
      | _ => None
      end
  end.

Definition SyntaxError : Thrown := JsError "SyntaxError" "Unexpected token in JSON".

(** [JSON.parse(text)]; the message of the error is the engine's own. *)
Definition parse (text : string) : Outcome Json :=
  match parse_value (2 * String.length text + 2) text with
  | Some (v, rest) =>
      match skip_ws rest with
      | EmptyString => Returns v
      | _ => Throws SyntaxError
      end
  | None => Throws SyntaxError
  end.

Definition hex_digit (n : nat) : ascii :=
  if Nat.ltb n 10 then ascii_of_nat (48 + n) else ascii_of_nat (87 + n).

(** The characters of a string literal, escaped as [JSON.stringify] does. *)
Fixpoint escape (s : string) : string :=
  match s with
  | EmptyString => EmptyString
  | String c s' =>
      let n := nat_of_ascii c in
      (if Ascii.eqb c "034" then "\" +:+ quote
       else if Ascii.eqb c "\" then "\\"
       else if Ascii.eqb c "008" then "\b"
       else if Ascii.eqb c "012" then "\f"
       else if Ascii.eqb c "010" then "\n"
       else if Ascii.eqb c "013" then "\r"
       else if Ascii.eqb c "009" then "\t"
       else if Nat.ltb n 32 then
         "\u00" +:+ String (hex_digit (n / 16)) (String (hex_digit (n mod 16)) EmptyString)
       else String c EmptyString) +:+ escape s'
  end.

Definition quoted (s : string) : string := quote +:+ escape s +:+ quote.

Definition commas (l : list string) : string := join "," l.

(** [JSON.stringify(v)], without indentation. *)
Fixpoint stringify (v : Json) : string :=
  match v with
  | JNull => "null"
  | JBool true => "true"
  | JBool false => "false"
  | JNum literal => literal
  | JStr s => quoted s
  | JArr items => "[" +:+ commas (map stringify items) +:+ "]"
  | JObj members =>
      "{" +:+ commas (map (fun kv => quoted (fst kv) +:+ ":" +:+ stringify (snd kv)) members) +:+ "}"
  end.

(** *** Scripted services

    Each service answers with the next entry of its script; ids and
    timestamps come from a counter. *)

Record Script := {
  sc_models : list (Outcome (option ModelDescriptor));
  sc_keys : list (Outcome (option string));
  sc_completions : list (Outcome ChatCompletion);
  sc_tools : list (Outcome McpResult);
  sc_ticks : nat
}.

Definition next {A} (dflt : A) (l : list A) : A * list A :=
  match l with
  | [] => (dflt, [])
  | a :: l' => (a, l')
  end.

Definition unavailable {A} : Outcome A := Throws (JsError "Error" "service unavailable").

Definition services : Services Script :=
  {| svc_getModel := fun _ w =>
       let '(r, l) := next (Returns None) (sc_models w) in
       (r, {| sc_models := l; sc_keys := sc_keys w; sc_completions := sc_completions w;
              sc_tools := sc_tools w; sc_ticks := sc_ticks w |});
     svc_resolveAndDecryptApiKey := fun _ w =>
       let '(r, l) := next (Returns None) (sc_keys w) in
       (r, {| sc_models := sc_models w; sc_keys := l; sc_completions := sc_completions w;
              sc_tools := sc_tools w; sc_ticks := sc_ticks w |});
     svc_create := fun _ _ _ w =>
       let '(r, l) := next unavailable (sc_completions w) in
       (r, {| sc_models := sc_models w; sc_keys := sc_keys w; sc_completions := l;
              sc_tools := sc_tools w; sc_ticks := sc_ticks w |});
     svc_callTool := fun _ _ _ w =>
       let '(r, l) := next unavailable (sc_tools w) in
       (r, {| sc_models := sc_models w; sc_keys := sc_keys w; sc_completions := sc_completions w;
              sc_tools := l; sc_ticks := sc_ticks w |});
     svc_uuidv4 := fun w =>
       ("id-" +:+ pretty (sc_ticks w),
        {| sc_models := sc_models w; sc_keys := sc_keys w; sc_completions := sc_completions w;
           sc_tools := sc_tools w; sc_ticks := Datatypes.S (sc_ticks w) |});
     svc_now := fun w =>
       (1700000000000 + Z.of_nat (sc_ticks w),
        {| sc_models := sc_models w; sc_keys := sc_keys w; sc_completions := sc_completions w;
           sc_tools := sc_tools w; sc_ticks := Datatypes.S (sc_ticks w) |});
     JSON_parse := parse;
     JSON_stringify := stringify |}.

Definition script0 : Script :=
  {| sc_models := []; sc_keys := []; sc_completions := []; sc_tools := []; sc_ticks := 0 |}.

Definition start (h : gmap loc Cell) (w : Script) : State Script := mkState h w [].

(** *** Sample inputs *)

(** [{"q":"x"}], [{"x":1}], [{"hits":3}] *)
Definition text_q_x : string :=
  "{" +:+ quote +:+ "q" +:+ quote +:+ ":" +:+ quote +:+ "x" +:+ quote +:+ "}".
Definition text_x_1 : string := "{" +:+ quote +:+ "x" +:+ quote +:+ ":1}".
Definition text_hits_3 : string := "{" +:+ quote +:+ "hits" +:+ quote +:+ ":3}".

Definition lookupCall : RequestedToolCall :=
  {| tc_id := "c1"; tc_name := "_-_-_search_-_-_lookup"; tc_arguments := text_q_x |}.

Definition billingCall : RequestedToolCall :=
  {| tc_id := "c2"; tc_name := "handoff_to_billing"; tc_arguments := text_x_1 |}.

Definition misnamedCall : RequestedToolCall :=
  {| tc_id := "c3"; tc_name := "lookup"; tc_arguments := text_q_x |}.

(** A call whose argument string is cut short. *)
Definition brokenCall : RequestedToolCall :=
  {| tc_id := "c4"; tc_name := "_-_-_search_-_-_lookup"; tc_arguments := "{" |}.

(** The message a call is answered with: of role [tool], with the id of
    the call it answers, and nothing else beside id, content and time. *)
Definition reply (id tool_call_id content : string) (timestamp : Z) : FlujoChatMessage :=
  {| msg_id := id; msg_role := tool; msg_content := Some content; msg_tool_calls := None;
     msg_tool_call_id := Some tool_call_id; msg_timestamp := timestamp;
     msg_processNodeId := None |}.

(** A reported success without payload, and a reported failure without
    message. *)
Definition emptySuccess : McpResult :=
  {| mcp_success := true; mcp_data := None; mcp_error := None |}.

Definition silentFailure : McpResult :=
  {| mcp_success := false; mcp_data := None; mcp_error := None |}.

Definition hits3 : McpResult :=
  {| mcp_success := true; mcp_data := Some (JObj [("hits", JNum "3")]); mcp_error := None |}.

Definition gpt : ModelDescriptor :=
  {| displayName := Some "GPT"; name := "gpt-x"; temperature := None;
     ApiKey := "key-ref"; baseUrl := None |}.

Definition question : FlujoChatMessage :=
  {| msg_id := "m-1"; msg_role := user; msg_content := Some "hi"; msg_tool_calls := None;
     msg_tool_call_id := None; msg_timestamp := 1699999999999; msg_processNodeId := None |}.

(** A completion whose first choice says [hello] and requests two tool
    calls, the first with a cut-short argument string. *)
Definition helloResponse : ChatCompletion :=
  {| cc_error := None;
     cc_choices :=
       Some [{| ch_message :=
                  Some {| rm_content := Some "hello";
                          rm_tool_calls := Some [brokenCall; lookupCall] |} |}] |}.

(** What the completion call returns for it, the copy of the transcript
    at location 2. *)
Definition helloCompletion : ModelCallResult :=
  {| mcr_content := "hello"; mcr_messages := 2%positive;
     mcr_fullResponse := helloResponse; mcr_toolCalls := None |}.

Definition askInput : ModelCallInput :=
  {| in_modelId := "m1"; in_prompt := ""; in_messages := 1%positive; in_tools := None;
     in_nodeName := "Node"; in_nodeId := Some "n1" |}.

(** The transcript at location 1; the catalog answers the two lookups
    with [lookups]. *)
Definition asking (lookups : list (Outcome (option ModelDescriptor))) : State Script :=
  start {[ 1%positive := CMessages [question] ]}
    {| sc_models := lookups;
       sc_keys := [Returns (Some "sk-1")];
       sc_completions := [Returns helloResponse];
       sc_tools := [];
       sc_ticks := 0 |}.

Definition catalogUp : list (Outcome (option ModelDescriptor)) :=
  [Returns (Some gpt); Returns (Some gpt)].

(** The lookup for the display names fails, the one of the completion
    call succeeds. *)
Definition catalogFlaky : list (Outcome (option ModelDescriptor)) :=
  [Throws (JsError "Error" "catalog offline"); Returns (Some gpt)].

(** A transcript at location 1 and, at location 10, an array with one
    tool, [draw], whose parameters are [imageUrl], a string with the format
    [format], and [caption], a string. *)
Definition drawHeap (format : Val) : gmap loc Cell :=
  {[ 1%positive := CMessages [question];
     10%positive := CArr [VRef 11%positive];
     11%positive := CObj {[ "type" := VStr "function"; "function" := VRef 12%positive ]};
     12%positive := CObj {[ "name" := VStr "draw"; "parameters" := VRef 13%positive ]};
     13%positive := CObj {[ "type" := VStr "object"; "properties" := VRef 14%positive ]};
     14%positive := CObj {[ "imageUrl" := VRef 15%positive; "caption" := VRef 16%positive ]};
     15%positive := CObj {[ "type" := VStr "string"; "format" := format ]};
     16%positive := CObj {[ "type" := VStr "string" ]} ]}.

Definition drawing (format : Val) : State Script :=
  start (drawHeap format)
    {| sc_models := [Returns (Some gpt)];
       sc_keys := [Returns (Some "sk-1")];
       sc_completions := [Returns helloResponse];
       sc_tools := [];
       sc_ticks := 0 |}.

(** The tools of the requests made so far, read off the trace and the
    heap. *)
Definition sentTools (st : State Script) : list (list Val) :=
  omap (fun e =>
          match e with
          | ECreate _ req =>
              match rq_tools req with
              | Some l =>
                  match heap st !! l with
                  | Some (CArr elems) => Some elems
                  | _ => None
                  end
              | None => None
              end
          | _ => None
          end)
       (trace st).

(** The transcript at location 1 and an empty array of tools at location
    3; the model and its key resolve, and the provider answers [c]. *)
Definition answering (c : Outcome ChatCompletion) : State Script :=
  start {[ 1%positive := CMessages [question]; 3%positive := CArr [] ]}
    {| sc_models := [Returns (Some gpt)];
       sc_keys := [Returns (Some "sk-1")];
       sc_completions := [c];
       sc_tools := [];
       sc_ticks := 0 |}.

(** The transcript and the [draw] tool with the [uri] format; the
    provider answers [c]. *)
Definition drawingAnswered (c : Outcome ChatCompletion) : State Script :=
  start (drawHeap (VStr "uri"))
    {| sc_models := [Returns (Some gpt)];
       sc_keys := [Returns (Some "sk-1")];
       sc_completions := [c];
       sc_tools := [];
       sc_ticks := 0 |}.

(** The same with the credential resolver answering [k]. *)
Definition keyed (k : Outcome (option string)) : State Script :=
  start {[ 1%positive := CMessages [question] ]}
    {| sc_models := [Returns (Some gpt)];
       sc_keys := [k];
       sc_completions := [Returns helloResponse];
       sc_tools := [];
       sc_ticks := 0 |}.

(** [{"error":{"message":"model overloaded"}}] *)
Definition text_overloaded : string :=
  "{" +:+ quote +:+ "error" +:+ quote +:+ ":{" +:+ quote +:+ "message" +:+ quote +:+ ":"
    +:+ quote +:+ "model overloaded" +:+ quote +:+ "}}".

(** A response body with an error object beside a first choice; the error
    carries the raw text [raw] of the upstream answer. *)
Definition rejected (raw : string) : ChatCompletion :=
  {| cc_error :=
       Some {| pe_message := Some "Provider returned error";
               pe_metadata_raw := Some raw;
               pe_code := Some "502"; pe_type := None; pe_param := None |};
     cc_choices := cc_choices helloResponse |}.

Definition noChoices : ChatCompletion := {| cc_error := None; cc_choices := Some [] |}.

(** A first choice whose message has no content. *)
Definition silentResponse : ChatCompletion :=
  {| cc_error := None;
     cc_choices :=
       Some [{| ch_message := Some {| rm_content := None; rm_tool_calls := None |} |}] |}.

Definition mcpAnswers (answers : list (Outcome McpResult)) : State Script :=
  start ∅ {| sc_models := []; sc_keys := []; sc_completions := [];
             sc_tools := answers; sc_ticks := 0 |}.

End Reference.

(** * Properties *)

(** ** The monad *)

Section MonadFacts.

Context {W : Type}.

Lemma bind_returns {A B} (m : M W A) (k : A -> M W B) st a st' :
  m st = (Returns a, st') -> bind m k st = k a st'.
Proof. intros H. unfold bind. now rewrite H. Qed.

Lemma bind_throws {A B} (m : M W A) (k : A -> M W B) st e st' :
  m st = (Throws e, st') -> bind m k st = (Throws e, st').
Proof. intros H. unfold bind. now rewrite H. Qed.

Lemma try_catch_returns {A} (m : M W A) h st a st' :
  m st = (Returns a, st') -> try_catch m h st = (Returns a, st').
Proof. intros H. unfold try_catch. now rewrite H. Qed.

Lemma try_catch_throws {A} (m : M W A) h st e st' :
  m st = (Throws e, st') -> try_catch m h st = h e st'.
Proof. intros H. unfold try_catch. now rewrite H. Qed.

Lemma forOf_app {A Acc} (body : A -> Acc -> M W Acc) l1 l2 acc st acc1 st1 :
  forOf body l1 acc st = (Returns acc1, st1) ->
  forOf body (l1 ++ l2) acc st = forOf body l2 acc1 st1.
Proof.
  revert acc st. induction l1 as [|a l1 IH]; intros acc st H; simpl in *.
  - unfold ret in H. now inversion H.
  - unfold bind in *. destruct (body a acc st) as [[acc'|e] st'].
    + now apply IH.
    + discriminate.
Qed.

End MonadFacts.


(** ** Strings and patterns *)

Example split_mcp_name :
  split "_-_-_search_-_-_lookup" "_-_-_" = [""; "search"; "lookup"].
Proof. reflexivity. Qed.

Example split_plain_name : split "lookup" "_-_-_" = ["lookup"].
Proof. reflexivity. Qed.

Example split_two_segments : split "search_-_-_lookup" "_-_-_" = ["search"; "lookup"].
Proof. reflexivity. Qed.

Example split_four_segments :
  split "_-_-_a_-_-_b_-_-_c" "_-_-_" = [""; "a"; "b"; "c"].
Proof. reflexivity. Qed.

Example split_trailing_separator : split "a_-_-_" "_-_-_" = ["a"; ""].
Proof. reflexivity. Qed.

Example split_overlapping : split "a_-_-_-_-_b" "_-_-_" = ["a"; "-_-_b"].
Proof. reflexivity. Qed.

Example split_empty : split "" "_-_-_" = [""].
Proof. reflexivity. Qed.

Section SplitFacts.

Lemma append_cons x (a b : string) : String x a +:+ b = String x (a +:+ b).
Proof. reflexivity. Qed.

Lemma append_assoc (a b c : string) : (a +:+ b) +:+ c = a +:+ (b +:+ c).
Proof.
  induction a as [|x a IH]; [reflexivity|]. rewrite !append_cons. now rewrite IH.
Qed.

Lemma append_nil_r (a : string) : a +:+ "" = a.
Proof. induction a as [|x a IH]; [reflexivity|]. rewrite append_cons. now rewrite IH. Qed.

Lemma rev_app_append a : forall b, String.rev_app a b = String.rev a +:+ b.
Proof.
  unfold String.rev. induction a as [|x a IH]; intros b; [reflexivity|].
  cbn [String.rev_app]. rewrite (IH (String x b)), (IH (String x "")).
  now rewrite append_assoc.
Qed.

Lemma rev_cons x a : String.rev (String x a) = String.rev a +:+ String x "".
Proof. unfold String.rev at 1. cbn [String.rev_app]. apply rev_app_append. Qed.

Lemma prefix_slice a : forall b,
  String.prefix a b = true -> a +:+ slice (String.length a) b = b.
Proof.
  induction a as [|x a IH]; intros b H; [reflexivity|].
  destruct b as [|y b]; [discriminate|]. cbn in H.
  destruct (Ascii.ascii_dec x y) as [->|]; [|discriminate].
  rewrite append_cons. cbn [String.length slice]. now rewrite IH.
Qed.

Lemma prefix_length a : forall b,
  String.prefix a b = true -> (String.length a <= String.length b)%nat.
Proof.
  induction a as [|x a IH]; intros b H; cbn; [lia|].
  destruct b as [|y b]; [discriminate|]. cbn in H.
  destruct (Ascii.ascii_dec x y); [|discriminate].
  cbn. apply IH in H. lia.
Qed.

Lemma split_scan_cons sep s : forall skip cur,
  exists x l, split_scan sep s skip cur = x :: l.
Proof.
  induction s as [|c s IH]; intros skip cur; cbn [split_scan]; [eauto|].
  destruct skip; [|apply IH].
  destruct (String.prefix sep (String c s)); [eauto | apply IH].
Qed.

Lemma join_cons sep x y l : join sep (x :: y :: l) = x +:+ sep +:+ join sep (y :: l).
Proof. reflexivity. Qed.

(** Joining the segments with the separator gives the scanned text back. *)
Lemma join_split_scan sep s : forall skip cur,
  sep <> "" ->
  (skip <= String.length s)%nat ->
  join sep (split_scan sep s skip cur) = String.rev cur +:+ slice skip s.
Proof.
  induction s as [|c s IH]; intros skip cur Hsep Hskip.
  - cbn in Hskip. replace skip with 0%nat by lia. cbn [split_scan join slice].
    now rewrite append_nil_r.
  - destruct skip as [|k].
    + cbn [split_scan slice].
      destruct (String.prefix sep (String c s)) eqn:Hp.
      * destruct (split_scan_cons sep s (Nat.pred (String.length sep)) "") as (x & l & E).
        rewrite E, join_cons, <- E.
        pose proof (prefix_length _ _ Hp) as Hlen.
        pose proof (prefix_slice _ _ Hp) as Hs.
        destruct sep as [|c0 sep]; [congruence|]. cbn in Hlen.
        rewrite IH by (cbn; (congruence || lia)).
        cbn [String.length Nat.pred slice] in *.
        change (String.rev "" +:+ slice (String.length sep) s)
          with (slice (String.length sep) s).
        now rewrite Hs.
      * rewrite IH by (auto; lia). rewrite rev_cons, append_assoc. reflexivity.
    + cbn [split_scan slice]. apply IH; [exact Hsep | cbn in Hskip; lia].
Qed.

(** [s.split(sep).join(sep) === s] *)
Lemma join_split s sep : sep <> "" -> join sep (split s sep) = s.
Proof.
  intros Hsep. unfold split. rewrite join_split_scan by (auto; lia). reflexivity.
Qed.

End SplitFacts.

Section RegexFacts.

Import Regex.

Lemma append_empty s1 s2 : s1 +:+ s2 = "" -> s1 = "" /\ s2 = "".
Proof. destruct s1; cbn; [auto | discriminate]. Qed.

Lemma nullable_matches r : nullable r = true <-> matches r "".
Proof.
  split.
  - induction r; cbn; intros H; try discriminate.
    + constructor.
    + apply andb_prop in H as [H1 H2].
      change "" with ("" +:+ ""). constructor; auto.
    + apply orb_prop in H as [H|H]; [apply MAltL | apply MAltR]; auto.
    + constructor.
  - remember "" as s eqn:Es. intros H.
    induction H; cbn; try discriminate; auto.
    + apply append_empty in Es as [-> ->]. now rewrite IHmatches1, IHmatches2.
    + rewrite IHmatches by exact Es. reflexivity.
    + rewrite IHmatches by exact Es. apply orb_true_r.
Qed.

Lemma matches_Cat_inv r1 r2 s :
  matches (Cat r1 r2) s ->
  exists s1 s2, s = s1 +:+ s2 /\ matches r1 s1 /\ matches r2 s2.
Proof. inversion 1; subst; eauto. Qed.

Lemma matches_Star_inv r s :
  matches (Star r) s ->
  s = "" \/ exists c s1 s2,
              s = String c s1 +:+ s2 /\ matches r (String c s1) /\ matches (Star r) s2.
Proof.
  inversion 1; subst; [now left | right].
  eexists _, _, _. repeat split; eassumption.
Qed.

Lemma deriv_matches c r : forall s, matches (deriv c r) s <-> matches r (String c s).
Proof.
  induction r as [| |p|r1 IH1 r2 IH2|r1 IH1 r2 IH2|r IH]; intros s; cbn.
  - split; inversion 1.
  - split; inversion 1.
  - destruct (p c) eqn:Hp; split; intros H; inversion H; subst.
    + now constructor.
    + constructor.
    + congruence.
  - assert (Hcat : matches (Cat (deriv c r1) r2) s
                   <-> exists s1 s2, s = s1 +:+ s2 /\ matches r1 (String c s1) /\ matches r2 s2).
    { split.
      - intros H. apply matches_Cat_inv in H as (s1 & s2 & -> & H1 & H2).
        apply IH1 in H1. eauto.
      - intros (s1 & s2 & -> & H1 & H2). constructor; [now apply IH1 | exact H2]. }
    assert (Hinv : matches (Cat r1 r2) (String c s)
                   <-> (matches r1 "" /\ matches r2 (String c s))
                       \/ exists s1 s2, s = s1 +:+ s2 /\ matches r1 (String c s1) /\ matches r2 s2).
    { split.
      - intros H. apply matches_Cat_inv in H as (s1 & s2 & E & H1 & H2).
        destruct s1 as [|c' s1].
        + change (String c s = s2) in E. subst. left. auto.
        + change (String c s = String c' (s1 +:+ s2)) in E.
          injection E as <- ->. right. eauto.
      - intros [[H1 H2] | (s1 & s2 & -> & H1 & H2)].
        + change (String c s) with ("" +:+ String c s). now constructor.
        + change (String c (s1 +:+ s2)) with (String c s1 +:+ s2). now constructor. }
    rewrite Hinv. destruct (nullable r1) eqn:N.
    + split.
      * intros H. inversion H; subst.
        -- right. now apply Hcat.
        -- left. split; [now apply nullable_matches | now apply IH2].
      * intros [[_ H2] | H]; [apply MAltR; now apply IH2 | apply MAltL; now apply Hcat].
    + rewrite Hcat. split; [auto|].
      intros [[H1 _] | H]; [|exact H].
      apply nullable_matches in H1. congruence.
  - split; intros H; inversion H; subst.
    + apply MAltL. now apply IH1.
    + apply MAltR. now apply IH2.
    + apply MAltL. now apply IH1.
    + apply MAltR. now apply IH2.
  - split; intros H.
    + apply matches_Cat_inv in H as (s1 & s2 & -> & H1 & H2).
      change (String c (s1 +:+ s2)) with (String c s1 +:+ s2).
      constructor; [now apply IH | exact H2].
    + apply matches_Star_inv in H as [E | (c' & s1 & s2 & E & H1 & H2)]; [discriminate|].
      change (String c s = String c' (s1 +:+ s2)) in E. injection E as <- ->.
      constructor; [now apply IH | exact H2].
Qed.

(** [fullmatch] decides the language of the pattern. *)
Lemma fullmatch_matches s : forall r, fullmatch r s = true <-> matches r s.
Proof.
  induction s as [|c s IH]; intros r; cbn.
  - apply nullable_matches.
  - rewrite IH. apply deriv_matches.
Qed.

(** [test] holds of the strings a prefix of which is in the language of
    the pattern. *)
Lemma test_prefix s : forall r,
  test r s = true <-> exists p q, s = p +:+ q /\ matches r p.
Proof.
  induction s as [|c s IH]; intros r; cbn.
  - rewrite orb_false_r, nullable_matches. split.
    + intros H. exists "", "". auto.
    + intros (p & q & E & H). symmetry in E. apply append_empty in E as [-> _]. exact H.
  - split.
    + intros H. apply orb_prop in H as [H|H].
      * exists "", (String c s). split; [reflexivity | now apply nullable_matches].
      * apply IH in H as (p & q & -> & H). exists (String c p), q.
        split; [reflexivity | now apply deriv_matches].
    + intros (p & q & E & H). destruct p as [|c' p].
      * apply nullable_matches in H. now rewrite H.
      * change (String c s = String c' (p +:+ q)) in E.
        injection E as <- ->. apply orb_true_iff. right.
        apply IH. exists p, q. split; [reflexivity | now apply deriv_matches].
Qed.

(** The content has the heading when one of its prefixes is in the
    language of the heading pattern. *)
Lemma hasHeadingPattern_prefix content :
  hasHeadingPattern content = true
  <-> exists heading rest, content = heading +:+ rest /\ matches headingPattern heading.
Proof. apply test_prefix. Qed.

End RegexFacts.

(** ** Frame reasoning *)

Section Frame.

Context {W : Type}.

Lemma keeps_weaken {A} h0 (m : M W A) (Q Q' : A -> Prop) :
  keeps h0 m Q -> (forall a, Q a -> Q' a) -> keeps h0 m Q'.
Proof. intros H HQ st Hst. destruct (H st Hst). split; auto. Qed.

Lemma keeps_ret {A} h0 (a : A) : keeps h0 (ret (W:=W) a) (fun _ => True).
Proof. intros st Hst. split; auto. Qed.

Lemma keeps_throw {A} h0 e (Q : A -> Prop) : keeps h0 (throw (W:=W) e) Q.
Proof. intros st Hst. split; [auto|]. simpl. discriminate. Qed.

Lemma keeps_bind {A B} h0 (m : M W A) (k : A -> M W B) Q R :
  keeps h0 m Q -> (forall a, Q a -> keeps h0 (k a) R) -> keeps h0 (bind m k) R.
Proof.
  intros Hm Hk st Hst. destruct (Hm st Hst) as [Hh HQ]. unfold bind.
  destruct (m st) as [[a|e] st1]; simpl in *.
  - apply Hk; auto.
  - split; [auto|discriminate].
Qed.

Lemma keeps_try_catch {A} h0 (m : M W A) (h : Thrown -> M W A) Q :
  keeps h0 m Q -> (forall e, keeps h0 (h e) Q) -> keeps h0 (try_catch m h) Q.
Proof.
  intros Hm Hh st Hst. destruct (Hm st Hst) as [Hheap HQ]. unfold try_catch.
  destruct (m st) as [[a|e] st1]; simpl in *.
  - split; auto.
  - apply Hh; auto.
Qed.

(** Computations that leave the heap as it is. *)
Lemma keeps_same_heap {A} h0 (m : M W A) :
  (forall st, heap (snd (m st)) = heap st) -> keeps h0 m (fun _ => True).
Proof. intros H st Hst. rewrite H. auto. Qed.

Lemma keeps_log h0 level message : keeps h0 (log (W:=W) level message) (fun _ => True).
Proof. now apply keeps_same_heap. Qed.

Lemma keeps_readCell h0 l : keeps h0 (readCell (W:=W) l) (fun _ => True).
Proof. now apply keeps_same_heap. Qed.

(** A new cell is not one of [h0]. *)
Lemma keeps_alloc h0 c : keeps h0 (alloc (W:=W) c) (fun l => h0 !! l = None).
Proof.
  intros st Hst. unfold alloc. simpl.
  assert (Hfresh : heap st !! fresh (dom (heap st)) = None)
    by (apply not_elem_of_dom, is_fresh).
  assert (Hnone : h0 !! fresh (dom (heap st)) = None).
  { destruct (h0 !! fresh (dom (heap st))) as [c'|] eqn:E; [|reflexivity].
    apply (lookup_weaken _ _ _ _ E) in Hst. congruence. }
  split.
  - etransitivity; [exact Hst|]. now apply insert_subseteq.
  - intros a Ha. now inversion Ha.
Qed.

(** Writing to a cell that is not one of [h0]. *)
Lemma keeps_writeCell h0 l c :
  h0 !! l = None -> keeps h0 (writeCell (W:=W) l c) (fun _ => True).
Proof.
  intros Hl st Hst. unfold writeCell. simpl. split; [|auto].
  apply map_subseteq_spec. intros i x Hi.
  destruct (decide (l = i)) as [->|Hne]; [congruence|].
  rewrite lookup_insert_ne by exact Hne.
  now apply (lookup_weaken _ _ _ _ Hi).
Qed.

Lemma keeps_readMessages h0 l : keeps h0 (readMessages (W:=W) l) (fun _ => True).
Proof.
  apply keeps_same_heap. intros st. unfold readMessages, bind, readCell. simpl.
  now destruct (heap st !! l) as [[]|].
Qed.

Lemma keeps_readArray h0 l : keeps h0 (readArray (W:=W) l) (fun _ => True).
Proof.
  apply keeps_same_heap. intros st. unfold readArray, bind, readCell. simpl.
  now destruct (heap st !! l) as [[]|].
Qed.

Lemma keeps_getField h0 v k : keeps h0 (getField (W:=W) v k) (fun _ => True).
Proof.
  apply keeps_same_heap. intros st. unfold getField, bind, readCell.
  destruct v; simpl; try reflexivity.
  now destruct (heap st !! l) as [[]|].
Qed.

Lemma keeps_spread h0 v : keeps h0 (spread (W:=W) v) (fun _ => True).
Proof. apply keeps_same_heap. intros st. now destruct v. Qed.

Lemma keeps_copyMessages h0 l : keeps h0 (copyMessages (W:=W) l) (fun l' => h0 !! l' = None).
Proof.
  unfold copyMessages. eapply keeps_bind; [apply keeps_readMessages|].
  intros msgs _. apply keeps_alloc.
Qed.

Lemma keeps_updateObj h0 l f :
  h0 !! l = None -> keeps h0 (updateObj (W:=W) l f) (fun _ => True).
Proof.
  intros Hl. unfold updateObj. eapply keeps_bind; [apply keeps_readCell|].
  intros [[props|elems|msgs]|] _; try apply keeps_ret. now apply keeps_writeCell.
Qed.

Lemma keeps_pushMessage h0 l m :
  h0 !! l = None -> keeps h0 (pushMessage (W:=W) l m) (fun _ => True).
Proof.
  intros Hl. unfold pushMessage. eapply keeps_bind; [apply keeps_readMessages|].
  intros msgs _. now apply keeps_writeCell.
Qed.

Lemma keeps_mapM {A B} h0 (f : A -> M W B) (l : list A) :
  (forall a, keeps h0 (f a) (fun _ => True)) -> keeps h0 (mapM f l) (fun _ => True).
Proof.
  intros Hf. induction l as [|a l IH]; simpl.
  - apply keeps_ret.
  - eapply keeps_bind; [apply Hf|]. intros b _.
    eapply keeps_bind; [apply IH|]. intros bs _. apply keeps_ret.
Qed.

End Frame.

(** ** The handler and the heap *)

Section HandlerFrame.

Context {W : Type} (S : Services W).

Lemma keeps_getModel h0 modelId : keeps h0 (getModel S modelId) (fun _ => True).
Proof.
  apply keeps_same_heap. intros st. unfold getModel.
  now destruct (svc_getModel S modelId (world st)).
Qed.

Lemma keeps_resolveAndDecryptApiKey h0 ref :
  keeps h0 (resolveAndDecryptApiKey S ref) (fun _ => True).
Proof.
  apply keeps_same_heap. intros st. unfold resolveAndDecryptApiKey.
  now destruct (svc_resolveAndDecryptApiKey S ref (world st)).
Qed.

Lemma keeps_create h0 cfg req : keeps h0 (create S cfg req) (fun _ => True).
Proof.
  apply keeps_same_heap. intros st. unfold create.
  now destruct (svc_create S cfg req (heap st) (world st)).
Qed.

Lemma keeps_uuidv4 h0 : keeps h0 (uuidv4 S) (fun _ => True).
Proof.
  apply keeps_same_heap. intros st. unfold uuidv4.
  now destruct (svc_uuidv4 S (world st)).
Qed.

Lemma keeps_Date_now h0 : keeps h0 (Date_now S) (fun _ => True).
Proof.
  apply keeps_same_heap. intros st. unfold Date_now.
  now destruct (svc_now S (world st)).
Qed.

Lemma keeps_parseJson h0 text : keeps h0 (parseJson S text) (fun _ => True).
Proof. now apply keeps_same_heap. Qed.

(** One step of a frame proof: the rule for the head of the computation.
    A leaf whose own postcondition is not the one asked for is weakened. *)
Ltac keeps_leaf :=
  first
    [ apply keeps_ret | apply keeps_throw | apply keeps_log | apply keeps_readCell
    | apply keeps_alloc | apply keeps_copyMessages
    | apply keeps_readMessages | apply keeps_readArray | apply keeps_getField
    | apply keeps_spread | apply keeps_getModel | apply keeps_resolveAndDecryptApiKey
    | apply keeps_create | apply keeps_uuidv4 | apply keeps_Date_now | apply keeps_parseJson
    | apply keeps_writeCell; assumption
    | apply keeps_updateObj; assumption
    | apply keeps_pushMessage; assumption ].

Ltac keeps_step :=
  lazymatch goal with
  | |- keeps _ (bind _ _) _ => eapply keeps_bind; [ | intros ? ? ]
  | |- keeps _ (try_catch _ _) _ => apply keeps_try_catch; [ | intros ? ]
  | |- keeps _ (match ?x with _ => _ end) _ => destruct x
  | |- keeps _ _ _ =>
      first [ keeps_leaf | eapply keeps_weaken; [ keeps_leaf | intros; exact I ] ]
  end.

Lemma keeps_patchTool h0 tool : keeps h0 (patchTool (W:=W) tool) (fun _ => True).
Proof.
  unfold patchTool, hasParameterProperties, isStringWithFormat, withoutFormat,
    deleteField, setField. repeat keeps_step.
Qed.

Lemma keeps_patchTools h0 tools : keeps h0 (patchTools (W:=W) tools) (fun l => h0 !! l = None).
Proof.
  unfold patchTools. eapply keeps_bind; [apply keeps_mapM, keeps_patchTool|].
  intros patched _. apply keeps_alloc.
Qed.

Lemma keeps_completionFailed h0 modelId error :
  keeps h0 (completionFailed (W:=W) modelId error) (fun _ => True).
Proof. unfold completionFailed. repeat keeps_step. Qed.

Lemma keeps_embeddedError h0 modelId errorObj :
  keeps h0 (embeddedError S modelId errorObj) (fun _ => True).
Proof. unfold embeddedError. repeat keeps_step. Qed.

Lemma keeps_requestTools h0 tools : keeps h0 (requestTools (W:=W) tools) (fun _ => True).
Proof.
  unfold requestTools.
  repeat first
    [ eapply keeps_weaken; [apply keeps_patchTools | intros; exact I] | keeps_step ].
Qed.

Lemma keeps_completionResult h0 modelId messages chatCompletion :
  keeps h0 (completionResult S modelId messages chatCompletion) (fun _ => True).
Proof.
  unfold completionResult. repeat first [ apply keeps_embeddedError | keeps_step ].
Qed.

Lemma keeps_requestCompletion h0 modelId messages tools model key :
  keeps h0 (requestCompletion S modelId messages tools model key) (fun _ => True).
Proof.
  unfold requestCompletion.
  repeat first [ apply keeps_requestTools | apply keeps_completionResult | keeps_step ].
Qed.

Lemma keeps_generateCompletion h0 modelId prompt messages tools :
  keeps h0 (generateCompletion S modelId prompt messages tools) (fun _ => True).
Proof.
  unfold generateCompletion.
  repeat first
    [ apply keeps_completionFailed | apply keeps_requestCompletion | keeps_step ].
Qed.

Lemma keeps_extractToolCall h0 tc : keeps h0 (extractToolCall S tc) (fun _ => True).
Proof. unfold extractToolCall. repeat keeps_step. Qed.

Lemma keeps_callModelPrelude h0 input : keeps h0 (callModelPrelude S input) (fun _ => True).
Proof. unfold callModelPrelude, lookupDisplayNames. repeat keeps_step. Qed.

Lemma keeps_appendAssistant h0 input names modelResponse :
  keeps h0 (appendAssistant S input names modelResponse) (fun _ => True).
Proof.
  unfold appendAssistant.
  repeat first [ apply keeps_mapM; intros; apply keeps_extractToolCall | keeps_step ].
Qed.

Lemma keeps_callModel h0 input : keeps h0 (callModel S input) (fun _ => True).
Proof.
  unfold callModel.
  repeat first
    [ apply keeps_callModelPrelude | apply keeps_generateCompletion
    | apply keeps_appendAssistant | keeps_step ].
Qed.

(** [callModel] changes no cell that was there before it ran. *)
Lemma callModel_frame input st : heap st ⊆ heap (snd (callModel S input st)).
Proof. now apply (keeps_callModel (heap st) input st). Qed.

(** [generateCompletion] always returns a result: what is thrown inside
    is turned into a failure by its [catch] block. *)
Lemma completionFailed_returns modelId error st :
  exists e st', completionFailed (W:=W) modelId error st = (Returns (Failure e), st').
Proof.
  unfold completionFailed, bind, log, emit, ret.
  destruct error; simpl; eexists _, _; reflexivity.
Qed.

Lemma generateCompletion_returns modelId prompt messages tools st :
  exists r st', generateCompletion S modelId prompt messages tools st = (Returns r, st').
Proof.
  unfold generateCompletion. unfold bind at 1. simpl. unfold try_catch.
  match goal with |- context [match ?m ?s with _ => _ end] => destruct (m s) as [[r|e] st1] end.
  - eauto.
  - destruct (completionFailed_returns modelId e st1) as (err & st' & ->). eauto.
Qed.

End HandlerFrame.

(** ** The tool-schema patch *)

Section SchemaPatch.

Context {W : Type}.

Lemma getField_obj (st : State W) l props k :
  heap st !! l = Some (CObj props) ->
  getField (VRef l) k st = (Returns (default VUndefined (props !! k)), st).
Proof. intros H. unfold getField, bind, readCell. cbn. now rewrite H. Qed.

Lemma spread_obj (st : State W) l props :
  heap st !! l = Some (CObj props) -> spread (VRef l) st = (Returns props, st).
Proof. intros H. unfold spread, bind, readCell, ret. cbn. now rewrite H. Qed.

Lemma updateObj_obj (st : State W) l props f :
  heap st !! l = Some (CObj props) ->
  updateObj l f st
    = (Returns tt, mkState (<[l := CObj (f props)]> (heap st)) (world st) (trace st)).
Proof. intros H. unfold updateObj, bind, readCell, writeCell. cbn. now rewrite H. Qed.

Lemma alloc_fresh {B} (c : Cell) (k : loc -> M W B) st :
  exists l,
    heap st !! l = None
    /\ bind (alloc c) k st = k l (mkState (<[l := c]> (heap st)) (world st) (trace st)).
Proof.
  exists (fresh (dom (heap st))). split; [apply not_elem_of_dom, is_fresh | reflexivity].
Qed.

Lemma copy_fresh {B} (k : loc -> M W B) st l props :
  heap st !! l = Some (CObj props) ->
  exists l',
    heap st !! l' = None
    /\ bind (p <- spread (VRef l) ;; alloc (CObj p)) k st
       = k l' (mkState (<[l' := CObj props]> (heap st)) (world st) (trace st)).
Proof.
  intros H. exists (fresh (dom (heap st))). split; [apply not_elem_of_dom, is_fresh|].
  unfold bind at 1. unfold bind at 1. now rewrite (spread_obj _ _ _ H).
Qed.

(** One step of a run: the computation at the head of [H] is a copy, an
    allocation or an update of an object. *)
Ltac copy_in H Hcell l Hl :=
  match type of H with
  | _ = bind (bind (spread (VRef ?x)) _) ?k ?s =>
      let E := fresh "E" in
      destruct (copy_fresh k s x _ Hcell) as (l & Hl & E);
      rewrite E in H; clear E; cbn [heap world trace] in H, Hl
  end.

Ltac alloc_in H l Hl :=
  match type of H with
  | _ = bind (alloc ?c) ?k ?s =>
      let E := fresh "E" in
      destruct (alloc_fresh c k s) as (l & Hl & E);
      rewrite E in H; clear E; cbn [heap world trace] in H, Hl
  end.

Ltac update_in H Hcell :=
  match type of H with
  | _ = bind (updateObj ?l ?f) _ ?s =>
      rewrite (bind_returns _ _ _ _ _ (updateObj_obj s l _ f Hcell)) in H;
      cbn [heap world trace] in H
  end.

Ltac spread_in H Hcell :=
  match type of H with
  | _ = bind (spread (VRef ?l)) _ ?s =>
      rewrite (bind_returns _ _ _ _ _ (spread_obj s l _ Hcell)) in H;
      cbn [heap world trace] in H
  end.

(** Lookups in a heap built by inserts, from the known inequalities. *)
Ltac fresh_facts :=
  repeat match goal with
    | H : <[_ := _]> _ !! _ = None |- _ => apply lookup_insert_None in H as [H ?]
    end;
  repeat match goal with
    | Hx : ?h !! ?x = Some _, Hn : ?h !! ?l = None |- _ =>
        lazymatch goal with
        | _ : x <> l |- _ => fail
        | _ => assert (x <> l) by congruence
        end
    end.

Ltac cell := simplify_map_eq; try done.

Lemma withoutFormat_run (st : State W) t f p q u pt pf pp pq pu :
  heap st !! t = Some (CObj pt) ->
  heap st !! f = Some (CObj pf) ->
  heap st !! p = Some (CObj pp) ->
  heap st !! q = Some (CObj pq) ->
  heap st !! u = Some (CObj pu) ->
  exists l1 l2 l3 l4 l5 h',
    withoutFormat (VRef t) (VRef f) (VRef p) (VRef q) (VRef u) st
      = (Returns (VRef l5), mkState h' (world st) (trace st))
    /\ h' !! l5 = Some (CObj (<["function" := VRef l4]> pt))
    /\ h' !! l4 = Some (CObj (<["parameters" := VRef l1]> pf))
    /\ h' !! l1 = Some (CObj (<["properties" := VRef l2]> pp))
    /\ h' !! l2 = Some (CObj (<["imageUrl" := VRef l3]> pq))
    /\ h' !! l3 = Some (CObj (delete "format" pu))
    /\ heap st !! l5 = None.
Proof.
  intros Ht Hf Hp Hq Hu.
  remember (withoutFormat (VRef t) (VRef f) (VRef p) (VRef q) (VRef u) st) as out eqn:Hout.
  unfold withoutFormat, deleteField, setField in Hout.
  copy_in Hout Hp l1 Hl1. fresh_facts.
  assert (Hq1 : <[l1:=CObj pp]> (heap st) !! q = Some (CObj pq)) by cell.
  copy_in Hout Hq1 l2 Hl2. fresh_facts.
  match type of Hout with context [mkState ?h _ _] => set (h2 := h) in * end.
  assert (Hu2 : h2 !! u = Some (CObj pu)) by (subst h2; cell).
  copy_in Hout Hu2 l3 Hl3. subst h2. fresh_facts.
  match type of Hout with context [mkState ?h _ _] => set (h3 := h) in * end.
  assert (H33 : h3 !! l3 = Some (CObj pu)) by (subst h3; cell).
  update_in Hout H33. subst h3.
  match type of Hout with context [mkState ?h _ _] => set (h4 := h) in * end.
  assert (H42 : h4 !! l2 = Some (CObj pq)) by (subst h4; cell).
  update_in Hout H42. subst h4.
  match type of Hout with context [mkState ?h _ _] => set (h5 := h) in * end.
  assert (H51 : h5 !! l1 = Some (CObj pp)) by (subst h5; cell).
  update_in Hout H51. subst h5.
  match type of Hout with context [mkState ?h _ _] => set (h6 := h) in * end.
  assert (H6f : h6 !! f = Some (CObj pf)) by (subst h6; cell).
  spread_in Hout H6f.
  alloc_in Hout l4 Hl4. subst h6. fresh_facts.
  match type of Hout with context [mkState ?h _ _] => set (h7 := h) in * end.
  assert (H7t : h7 !! t = Some (CObj pt)) by (subst h7; cell).
  spread_in Hout H7t.
  alloc_in Hout l5 Hl5. subst h7. fresh_facts.
  unfold ret in Hout.
  exists l1, l2, l3, l4, l5. eexists. split; [exact Hout|].
  repeat split; cell.
Qed.

(** *** Reading the heap *)

Lemma getField_ref (st : State W) l k :
  getField (VRef l) k st = (Returns (field (heap st) (VRef l) k), st).
Proof.
  unfold getField, field, objAt, bind, readCell. cbn.
  now destruct (heap st !! l) as [[]|].
Qed.

Lemma truthy_object_ref v :
  (truthy v && typeof_object v)%bool = true -> exists l, v = VRef l.
Proof. destruct v; cbn; try discriminate; try (rewrite andb_false_r; discriminate). eauto. Qed.

Lemma field_defined h v k :
  field h v k <> VUndefined ->
  exists props, objAt h v = Some props /\ props !! k = Some (field h v k).
Proof.
  unfold field. destruct (objAt h v) as [props|]; [|congruence].
  destruct (props !! k) as [x|] eqn:E; cbn; [eauto | congruence].
Qed.

Lemma objAt_ref h v props :
  objAt h v = Some props -> exists l, v = VRef l /\ h !! l = Some (CObj props).
Proof.
  destruct v; cbn; try discriminate.
  destruct (h !! l) as [[]|] eqn:E; try discriminate. intros [= ->]. eauto.
Qed.

Lemma objAt_weaken h h' v props :
  h ⊆ h' -> objAt h v = Some props -> objAt h' v = Some props.
Proof.
  intros Hsub H. destruct (objAt_ref _ _ _ H) as (l & -> & Hl).
  cbn. now rewrite (lookup_weaken _ _ _ _ Hl Hsub).
Qed.

Lemma field_weaken h h' v k :
  h ⊆ h' -> field h v k <> VUndefined -> field h' v k = field h v k.
Proof.
  intros Hsub H. destruct (field_defined _ _ _ H) as (props & Hobj & Hk).
  unfold field. now rewrite (objAt_weaken _ _ _ _ Hsub Hobj), Hobj.
Qed.

Lemma path_undefined h ks : path h VUndefined ks = VUndefined.
Proof. induction ks as [|k ks IH]; [reflexivity | exact IH]. Qed.

Lemma path_weaken h h' ks : forall v,
  h ⊆ h' -> path h v ks <> VUndefined -> path h' v ks = path h v ks.
Proof.
  induction ks as [|k ks IH]; intros v Hsub H; [reflexivity|].
  cbn in *. change (path h (field h v k) ks <> VUndefined) in H.
  change (path h' (field h' v k) ks = path h (field h v k) ks).
  assert (Hk : field h v k <> VUndefined).
  { intros E. rewrite E, path_undefined in H. congruence. }
  rewrite (field_weaken _ _ _ _ Hsub Hk). now apply IH.
Qed.

(** *** The guards *)

Lemma hasParameterProperties_run (st : State W) l :
  isTool (heap st) (VRef l) = true ->
  hasParameterProperties (VRef l) st
    = (Returns (functionToolWithProperties (heap st) (VRef l)), st).
Proof.
  intros Htool. unfold hasParameterProperties, functionToolWithProperties.
  rewrite (bind_returns _ _ _ _ _ (getField_ref st l "type")).
  destruct (is_str (field (heap st) (VRef l) "type") "function"); [|reflexivity].
  rewrite (bind_returns _ _ _ _ _ (getField_ref st l "function")).
  unfold isTool in Htool.
  destruct (field (heap st) (VRef l) "function") as [| | | | |f]; try discriminate.
  rewrite (bind_returns _ _ _ _ _ (getField_ref st f "parameters")).
  cbn [andb].
  destruct (truthy _ && typeof_object _)%bool eqn:Hparams; [|reflexivity].
  destruct (truthy_object_ref _ Hparams) as [p Hp]. rewrite Hp.
  now rewrite (bind_returns _ _ _ _ _ (getField_ref st p "properties")).
Qed.

Lemma isStringWithFormat_run (st : State W) v :
  isStringWithFormat v st = (Returns (stringWithFormat (heap st) v), st).
Proof.
  unfold isStringWithFormat, stringWithFormat.
  destruct (truthy v && typeof_object v)%bool eqn:Hv; [|reflexivity].
  destruct (truthy_object_ref _ Hv) as [u ->].
  rewrite (bind_returns _ _ _ _ _ (getField_ref st u "type")). cbn [andb].
  destruct (is_str (field (heap st) (VRef u) "type") "string"); [|reflexivity].
  now rewrite (bind_returns _ _ _ _ _ (getField_ref st u "format")).
Qed.

Lemma field_at h l props k x :
  h !! l = Some (CObj props) -> props !! k = Some x -> field h (VRef l) k = x.
Proof. intros Hl Hk. unfold field. cbn. now rewrite Hl, Hk. Qed.

Lemma field_ref_cell h v k l :
  field h v k = VRef l ->
  exists lv props, v = VRef lv /\ h !! lv = Some (CObj props) /\ props !! k = Some (VRef l).
Proof.
  intros H. destruct (field_defined h v k) as (props & Hobj & Hk); [congruence|].
  destruct (objAt_ref _ _ _ Hobj) as (lv & -> & Hl). rewrite H in Hk. eauto.
Qed.

Lemma is_str_eq v text : is_str v text = true -> v = VStr text.
Proof.
  destruct v; cbn; try discriminate. intros H. apply String.eqb_eq in H. now subst.
Qed.

(** *** One tool *)

(** What the callback of [tools.map] does for a tool object: it returns
    the tool itself, or, when both guards hold, a new tool whose
    [imageUrl] schema is a new object, the old one without [format]. *)
Lemma patchTool_run (st : State W) l :
  isTool (heap st) (VRef l) = true ->
  (needsPatch (heap st) (VRef l) = false
   /\ patchTool (VRef l) st = (Returns (VRef l), st))
  \/ (needsPatch (heap st) (VRef l) = true
      /\ exists pu l' h',
           objAt (heap st) (imageUrlOf (heap st) (VRef l)) = Some pu
           /\ patchTool (VRef l) st = (Returns (VRef l'), mkState h' (world st) (trace st))
           /\ heap st !! l' = None
           /\ objAt h' (imageUrlOf h' (VRef l')) = Some (delete "format" pu)).
Proof.
  intros Htool. unfold patchTool, needsPatch.
  rewrite (bind_returns _ _ _ _ _ (hasParameterProperties_run st l Htool)).
  destruct (functionToolWithProperties (heap st) (VRef l)) eqn:G1; [|left; auto].
  unfold functionToolWithProperties in G1.
  apply andb_prop in G1 as [Htype G1]. apply andb_prop in G1 as [Hparams Hprops].
  destruct (truthy_object_ref _ Hparams) as [p Hp].
  rewrite Hp in Hprops. destruct (truthy_object_ref _ Hprops) as [q Hq].
  destruct (field_ref_cell _ _ _ _ Hp) as (f & pf & Hfn & Hf & Hpf).
  rewrite (bind_returns _ _ _ _ _ (getField_ref st l "function")). rewrite Hfn.
  rewrite (bind_returns _ _ _ _ _ (getField_ref st f "parameters")). rewrite <- Hfn, Hp.
  rewrite (bind_returns _ _ _ _ _ (getField_ref st p "properties")). rewrite Hq.
  rewrite (bind_returns _ _ _ _ _ (getField_ref st q "imageUrl")).
  rewrite (bind_returns _ _ _ _ _ (isStringWithFormat_run st _)).
  assert (Himg : imageUrlOf (heap st) (VRef l) = field (heap st) (VRef q) "imageUrl").
  { unfold imageUrlOf, path. cbn [fold_left]. now rewrite Hp, Hq. }
  rewrite Himg. cbn [andb].
  destruct (stringWithFormat (heap st) (field (heap st) (VRef q) "imageUrl")) eqn:G2;
    [right|left; auto].
  split; [reflexivity|].
  unfold stringWithFormat in G2.
  apply andb_prop in G2 as [G2 Hformat]. apply andb_prop in G2 as [Hu Hstring].
  destruct (truthy_object_ref _ Hu) as [u Hu'].
  rewrite Hu' in *.
  apply is_str_eq in Htype, Hstring.
  destruct (field_defined (heap st) (VRef l) "type") as (pt & Hobjt & _); [congruence|].
  destruct (objAt_ref _ _ _ Hobjt) as (l0 & [= <-] & Ht).
  destruct (field_ref_cell _ _ _ _ Hq) as (p0 & pp & [= <-] & Hpcell & Hpp).
  destruct (field_ref_cell _ _ _ _ Hu') as (q0 & pq & [= <-] & Hqcell & Hpq).
  destruct (field_defined (heap st) (VRef u) "type") as (pu & Hobju & _); [congruence|].
  destruct (objAt_ref _ _ _ Hobju) as (u0 & [= <-] & Hucell).
  destruct (withoutFormat_run st l f p q u pt pf pp pq pu Ht Hf Hpcell Hqcell Hucell)
    as (l1 & l2 & l3 & l4 & l5 & h' & Hrun & H5 & H4 & H1 & H2 & H3 & Hnew).
  rewrite Hfn.
  exists pu, l5, h'. split; [exact Hobju|]. split; [exact Hrun|]. split; [exact Hnew|].
  unfold imageUrlOf, path. cbn [fold_left].
  rewrite (field_at _ _ _ "function" (VRef l4) H5) by apply lookup_insert_eq.
  rewrite (field_at _ _ _ "parameters" (VRef l1) H4) by apply lookup_insert_eq.
  rewrite (field_at _ _ _ "properties" (VRef l2) H1) by apply lookup_insert_eq.
  rewrite (field_at _ _ _ "imageUrl" (VRef l3) H2) by apply lookup_insert_eq.
  cbn. now rewrite H3.
Qed.

(** *** The tools array *)

Lemma isTool_ref h v : isTool h v = true -> exists l, v = VRef l.
Proof.
  unfold isTool. intros H.
  destruct (field h v "function") eqn:E; try discriminate.
  destruct (field_ref_cell _ _ _ _ E) as (lv & _ & -> & _). eauto.
Qed.

Lemma isTool_weaken h h' v : h ⊆ h' -> isTool h v = true -> isTool h' v = true.
Proof.
  unfold isTool. intros Hsub H.
  destruct (field h v "function") as [| | | | |f] eqn:E; try discriminate.
  rewrite (field_weaken h h' v "function" Hsub) by congruence. rewrite E.
  apply bool_decide_eq_true in H. destruct H as [props Hobj].
  apply bool_decide_eq_true. rewrite (objAt_weaken _ _ _ _ Hsub Hobj). eauto.
Qed.

Lemma truthy_defined v : truthy v = true -> v <> VUndefined.
Proof. now destruct v. Qed.

(** The chain of objects under a tool that has the [imageUrl] schema. *)
Lemma imageUrlWithFormat_chain h tool :
  imageUrlWithFormat h tool ->
  exists f p q u,
    field h tool "function" = VRef f
    /\ field h (VRef f) "parameters" = VRef p
    /\ field h (VRef p) "properties" = VRef q
    /\ field h (VRef q) "imageUrl" = VRef u
    /\ imageUrlOf h tool = VRef u.
Proof.
  intros (_ & Hstring & _).
  destruct (field_defined h (imageUrlOf h tool) "type") as (pu & Hobj & _); [congruence|].
  destruct (objAt_ref _ _ _ Hobj) as (u & Hu & _).
  unfold imageUrlOf, path in Hu. cbn [fold_left] in Hu.
  destruct (field_ref_cell _ _ _ _ Hu) as (q & _ & Hq & _).
  destruct (field_ref_cell _ _ _ _ Hq) as (p & _ & Hp & _).
  destruct (field_ref_cell _ _ _ _ Hp) as (f & _ & Hf & _).
  exists f, p, q, u. rewrite Hf in Hp, Hq, Hu. rewrite Hp in Hq, Hu. rewrite Hq in Hu.
  unfold imageUrlOf, path. cbn [fold_left]. rewrite Hf, Hp, Hq. auto.
Qed.

Lemma imageUrlWithFormat_needsPatch h tool :
  imageUrlWithFormat h tool -> needsPatch h tool = true.
Proof.
  intros H. destruct (imageUrlWithFormat_chain h tool H) as (f & p & q & u & Hf & Hp & Hq & Hu & Himg).
  destruct H as (Htype & Hstring & Hformat).
  unfold needsPatch, functionToolWithProperties, stringWithFormat.
  rewrite Himg in *. rewrite Htype, Hf, Hp, Hq, Hstring, Hformat. reflexivity.
Qed.

Lemma imageUrlWithFormat_weaken h h' tool :
  h ⊆ h' -> imageUrlWithFormat h tool ->
  imageUrlWithFormat h' tool /\ imageUrlOf h' tool = imageUrlOf h tool.
Proof.
  intros Hsub H.
  destruct (imageUrlWithFormat_chain h tool H) as (f & p & q & u & _ & _ & _ & _ & Himg).
  destruct H as (Htype & Hstring & Hformat).
  assert (Himg' : imageUrlOf h' tool = imageUrlOf h tool).
  { apply path_weaken; [exact Hsub|]. unfold imageUrlOf in Himg. congruence. }
  split; [|exact Himg']. unfold imageUrlWithFormat. rewrite Himg'.
  rewrite (field_weaken h h' tool "type" Hsub) by congruence.
  rewrite (field_weaken h h' (imageUrlOf h tool) "type" Hsub) by congruence.
  rewrite (field_weaken h h' (imageUrlOf h tool) "format" Hsub)
    by now apply truthy_defined.
  auto.
Qed.

Lemma lookup_weaken_None' (h h' : gmap loc Cell) l :
  h ⊆ h' -> h' !! l = None -> h !! l = None.
Proof.
  intros Hsub H. destruct (h !! l) eqn:E; [|reflexivity].
  apply (lookup_weaken _ _ _ _ E) in Hsub. congruence.
Qed.

Lemma objAt_path_weaken h h' v ks props :
  h ⊆ h' -> objAt h (path h v ks) = Some props -> objAt h' (path h' v ks) = Some props.
Proof.
  intros Hsub H. rewrite (path_weaken h h' ks v Hsub).
  - now apply (objAt_weaken h h').
  - intros E. rewrite E in H. discriminate.
Qed.

(** The tools after [tools.map]: at the position of a tool that has the
    [imageUrl] schema with a format stands a new tool, whose [imageUrl]
    schema is the old one without [format]; no cell of the heap the map
    started in has changed. *)
Lemma mapM_patchTool_run elems : forall (st : State W),
  Forall (fun v => isTool (heap st) v = true) elems ->
  exists vs h',
    mapM patchTool elems st = (Returns vs, mkState h' (world st) (trace st))
    /\ heap st ⊆ h'
    /\ forall i tool,
         elems !! i = Some tool -> imageUrlWithFormat (heap st) tool ->
         exists pu l',
           objAt (heap st) (imageUrlOf (heap st) tool) = Some pu
           /\ vs !! i = Some (VRef l')
           /\ heap st !! l' = None
           /\ objAt h' (imageUrlOf h' (VRef l')) = Some (delete "format" pu).
Proof.
  induction elems as [|v rest IH]; intros st Htools.
  - exists [], (heap st). split; [now destruct st|]. split; [reflexivity|].
    intros i tool Hi. discriminate.
  - apply Forall_cons in Htools as [Hv Hrest].
    destruct (isTool_ref _ _ Hv) as [l ->].
    assert (Hstep : exists v1 h1,
               patchTool (VRef l) st = (Returns v1, mkState h1 (world st) (trace st))
               /\ heap st ⊆ h1
               /\ (imageUrlWithFormat (heap st) (VRef l) ->
                   exists pu l',
                     objAt (heap st) (imageUrlOf (heap st) (VRef l)) = Some pu
                     /\ v1 = VRef l'
                     /\ heap st !! l' = None
                     /\ objAt h1 (imageUrlOf h1 (VRef l')) = Some (delete "format" pu))).
    { pose proof (keeps_patchTool (W:=W) (heap st) (VRef l) st (reflexivity _)) as [Hkeep _].
      destruct (patchTool_run st l Hv) as [[Hno Hrun] | [_ (pu & l' & h1 & Hpu & Hrun & Hnew & Hpatched)]].
      - exists (VRef l), (heap st). split; [rewrite Hrun; now destruct st|].
        split; [reflexivity|]. intros Hw.
        rewrite (imageUrlWithFormat_needsPatch _ _ Hw) in Hno. discriminate.
      - rewrite Hrun in Hkeep. exists (VRef l'), h1. split; [exact Hrun|].
        split; [exact Hkeep|]. intros _. exists pu, l'. auto. }
    destruct Hstep as (v1 & h1 & Hrun & Hsub1 & Hhead).
    destruct (IH (mkState h1 (world st) (trace st))) as (vs & h' & Hmap & Hsub & Htail).
    { cbn [heap]. eapply Forall_impl; [exact Hrest|].
      intros x Hx. now apply (isTool_weaken (heap st) h1). }
    cbn [heap world trace] in *.
    exists (v1 :: vs), h'. split.
    { cbn [mapM]. rewrite (bind_returns _ _ _ _ _ Hrun).
      now rewrite (bind_returns _ _ _ _ _ Hmap). }
    split; [now transitivity h1|].
    intros [|i] tool Hi Hw; cbn in Hi.
    + injection Hi as <-. destruct (Hhead Hw) as (pu & l' & Hpu & -> & Hnew & Hpatched).
      exists pu, l'. split; [exact Hpu|]. split; [reflexivity|]. split; [exact Hnew|].
      now apply (objAt_path_weaken h1 h').
    + destruct (imageUrlWithFormat_weaken _ _ _ Hsub1 Hw) as [Hw1 Himg1].
      destruct (Htail i tool Hi Hw1) as (pu & l' & Hpu & Hvs & Hnew & Hpatched).
      exists pu, l'. split.
      { destruct (imageUrlWithFormat_chain _ _ Hw) as (f & p & q & u & _ & _ & _ & _ & Himg).
        destruct Hw as (_ & Hstring & _).
        destruct (field_defined (heap st) (imageUrlOf (heap st) tool) "type")
          as (pu0 & Hobj0 & _); [congruence|].
        rewrite Himg1 in Hpu. rewrite (objAt_weaken _ _ _ _ Hsub1 Hobj0) in Hpu.
        congruence. }
      split; [exact Hvs|]. split; [|exact Hpatched].
      now apply (lookup_weaken_None' (heap st) h1).
Qed.

(** The tools of the request, for a non-empty array of tools. *)
Lemma requestTools_run (st : State W) t elems :
  heap st !! t = Some (CArr elems) ->
  elems <> [] ->
  Forall (fun v => isTool (heap st) v = true) elems ->
  exists vs h' sent,
    requestTools (Some t) st
      = (Returns (Some sent), mkState (<[sent := CArr vs]> h') (world st) (trace st))
    /\ heap st ⊆ h'
    /\ h' !! sent = None
    /\ forall i tool,
         elems !! i = Some tool -> imageUrlWithFormat (heap st) tool ->
         exists pu l',
           objAt (heap st) (imageUrlOf (heap st) tool) = Some pu
           /\ vs !! i = Some (VRef l')
           /\ heap st !! l' = None
           /\ objAt h' (imageUrlOf h' (VRef l')) = Some (delete "format" pu).
Proof.
  intros Ht Hne Htools.
  destruct (mapM_patchTool_run elems st Htools) as (vs & h' & Hmap & Hsub & Heach).
  exists vs, h', (fresh (dom h')).
  split; [|split; [exact Hsub|split; [apply not_elem_of_dom, is_fresh|exact Heach]]].
  unfold requestTools, readArray, readCell. unfold bind at 1. unfold bind at 1. cbn.
  rewrite Ht. cbn. destruct elems as [|v rest]; [congruence|].
  unfold patchTools. unfold bind at 1. unfold bind at 1. now rewrite Hmap.
Qed.

End SchemaPatch.

(** ** The request on the wire *)

Section Wire.

Context {W : Type} (S : Services W).

Lemma tracesOn_ret {A} (a : A) : tracesOn (ret (W:=W) a).
Proof. now intros st e. Qed.

Lemma tracesOn_throw {A} e : tracesOn (throw (W:=W) (A:=A) e).
Proof. now intros st e'. Qed.

Lemma tracesOn_bind {A B} (m : M W A) (k : A -> M W B) :
  tracesOn m -> (forall a, tracesOn (k a)) -> tracesOn (bind m k).
Proof.
  intros Hm Hk st e He. specialize (Hm st e He). unfold bind.
  destruct (m st) as [[a|err] st1]; cbn in *; [now apply Hk | exact Hm].
Qed.

Lemma tracesOn_try_catch {A} (m : M W A) (h : Thrown -> M W A) :
  tracesOn m -> (forall e, tracesOn (h e)) -> tracesOn (try_catch m h).
Proof.
  intros Hm Hh st e He. specialize (Hm st e He). unfold try_catch.
  destruct (m st) as [[a|err] st1]; cbn in *; [exact Hm | now apply Hh].
Qed.

Lemma tracesOn_log level message : tracesOn (log (W:=W) level message).
Proof. intros st e He. cbn. apply elem_of_app. now left. Qed.

Lemma tracesOn_same {A} (m : M W A) :
  (forall st, trace (snd (m st)) = trace st) -> tracesOn m.
Proof. intros H st e He. now rewrite H. Qed.

Lemma tracesOn_parseJson text : tracesOn (parseJson S text).
Proof. now apply tracesOn_same. Qed.

Lemma tracesOn_copyMessages l : tracesOn (copyMessages (W:=W) l).
Proof.
  apply tracesOn_same. intros st.
  unfold copyMessages, readMessages, bind, readCell, alloc, ret. cbn.
  now destruct (heap st !! l) as [[]|].
Qed.

Ltac traces_step :=
  lazymatch goal with
  | |- tracesOn (bind _ _) => apply tracesOn_bind; [ | intros ? ]
  | |- tracesOn (try_catch _ _) => apply tracesOn_try_catch; [ | intros ? ]
  | |- tracesOn (match ?x with _ => _ end) => destruct x
  | |- tracesOn _ =>
      first [ apply tracesOn_ret | apply tracesOn_throw | apply tracesOn_log
            | apply tracesOn_parseJson | apply tracesOn_copyMessages ]
  end.

Lemma tracesOn_completionFailed modelId error :
  tracesOn (completionFailed (W:=W) modelId error).
Proof. unfold completionFailed. repeat traces_step. Qed.

Lemma tracesOn_completionResult modelId messages chatCompletion :
  tracesOn (completionResult S modelId messages chatCompletion).
Proof. unfold completionResult, embeddedError. repeat traces_step. Qed.

Lemma try_catch_bind {A B} (m : M W A) (k : A -> M W B) h st a st1 :
  m st = (Returns a, st1) -> try_catch (bind m k) h st = try_catch (k a) h st1.
Proof. intros H. unfold try_catch, bind. now rewrite H. Qed.

Lemma try_catch_log {B} level message (k : unit -> M W B) h st :
  try_catch (bind (log level message) k) h st
  = try_catch (k tt) h (mkState (heap st) (world st) (trace st ++ [ELog level message])).
Proof. reflexivity. Qed.

(** Once the request is made, it is in the trace of the completion call
    for good, and the heap it was made in is kept. *)
Lemma create_recorded cfg req modelId messages st :
  let out := try_catch (chatCompletion <- create S cfg req ;;
                        completionResult S modelId messages chatCompletion)
               (completionFailed modelId) st in
  ECreate cfg req ∈ trace (snd out) /\ heap st ⊆ heap (snd out).
Proof.
  cbn zeta. unfold try_catch, bind, create.
  destruct (svc_create S cfg req (heap st) (world st)) as [[cc|e] w].
  - set (st1 := mkState (heap st) w (trace st ++ [ECreate cfg req])).
    assert (Hin : ECreate cfg req ∈ trace st1)
      by (apply elem_of_app; right; apply list_elem_of_singleton; reflexivity).
    pose proof (tracesOn_completionResult modelId messages cc st1 _ Hin) as Ht.
    pose proof (keeps_completionResult S (heap st) modelId messages cc st1 (reflexivity _))
      as [Hh _].
    destruct (completionResult S modelId messages cc st1) as [[r|e] st2]; cbn in *.
    + auto.
    + split.
      * now apply tracesOn_completionFailed.
      * now apply (keeps_completionFailed (heap st) modelId e st2).
  - set (st1 := mkState (heap st) w (trace st ++ [ECreate cfg req])).
    assert (Hin : ECreate cfg req ∈ trace st1)
      by (apply elem_of_app; right; apply list_elem_of_singleton; reflexivity).
    split.
    + now apply tracesOn_completionFailed.
    + now apply (keeps_completionFailed (heap st) modelId e st1).
Qed.

Lemma getModel_run modelId st r w :
  svc_getModel S modelId (world st) = (r, w) ->
  getModel S modelId st = (r, mkState (heap st) w (trace st ++ [EGetModel modelId])).
Proof. intros H. unfold getModel. now rewrite H. Qed.

Lemma resolveAndDecryptApiKey_run ref st r w :
  svc_resolveAndDecryptApiKey S ref (world st) = (r, w) ->
  resolveAndDecryptApiKey S ref st
    = (r, mkState (heap st) w (trace st ++ [EResolveKey ref])).
Proof. intros H. unfold resolveAndDecryptApiKey. now rewrite H. Qed.

Lemma readMessages_run (st : State W) l msgs :
  heap st !! l = Some (CMessages msgs) -> readMessages l st = (Returns msgs, st).
Proof. intros H. unfold readMessages, bind, readCell. cbn. now rewrite H. Qed.

Lemma hasField_deleted h v props k :
  objAt h v = Some (delete k props) -> hasField h v k = false.
Proof.
  intros H. unfold hasField. rewrite H. apply bool_decide_eq_false.
  rewrite lookup_delete_eq. now intros [x Hx].
Qed.

(** C8. The tool-schema patch changes no cell of the heap the completion
    call was started in: the caller's tool objects are as they were.  When
    the model and its key resolve and a non-empty array of tools is
    supplied, the request made has a new array as its tools, and at the
    position of a function tool whose [parameters.properties.imageUrl] is
    of string type and carries a format stands a new tool, whose
    [imageUrl] schema is a copy of the caller's without the [format]
    property. *)
Theorem C8_imageUrl_format_stripped_on_copy modelId prompt messages toolsLoc st :
  let out := generateCompletion S modelId prompt messages (Some toolsLoc) st in
  heap st ⊆ heap (snd out)
  /\ forall T elems model key w1 w2 i tool,
       heap st !! messages = Some (CMessages T) ->
       heap st !! toolsLoc = Some (CArr elems) ->
       Forall (fun v => isTool (heap st) v = true) elems ->
       svc_getModel S modelId (world st) = (Returns (Some model), w1) ->
       svc_resolveAndDecryptApiKey S (ApiKey model) w1 = (Returns (Some key), w2) ->
       key <> "" ->
       elems !! i = Some tool ->
       imageUrlWithFormat (heap st) tool ->
       exists cfg req sent patched tool' schema,
         ECreate cfg req ∈ trace (snd out)
         /\ rq_tools req = Some sent
         /\ heap st !! sent = None
         /\ heap (snd out) !! sent = Some (CArr patched)
         /\ patched !! i = Some tool'
         /\ tool' <> tool
         /\ objAt (heap st) (imageUrlOf (heap st) tool) = Some schema
         /\ objAt (heap (snd out)) (imageUrlOf (heap (snd out)) tool')
              = Some (delete "format" schema)
         /\ hasField (heap (snd out)) (imageUrlOf (heap (snd out)) tool') "format" = false
         /\ hasField (heap (snd out)) (imageUrlOf (heap (snd out)) tool) "format" = true.
Proof.
  cbn zeta. split.
  { now apply (keeps_generateCompletion S (heap st) modelId prompt messages (Some toolsLoc) st). }
  intros T elems model key w1 w2 i tool HT Harr Htools Hmodel Hkey Hne Hi Hw.
  remember (generateCompletion S modelId prompt messages (Some toolsLoc) st) as out eqn:Hout.
  unfold generateCompletion in Hout. unfold bind at 1 in Hout. cbn [log emit fst snd] in Hout.
  match type of Hout with context [try_catch _ _ ?s] =>
    rewrite (try_catch_bind _ _ _ _ _ _ (getModel_run modelId s _ _ Hmodel)) in Hout
  end.
  cbn iota beta in Hout.
  match type of Hout with context [try_catch _ _ ?s] =>
    rewrite (try_catch_bind _ _ _ _ _ _
               (resolveAndDecryptApiKey_run (ApiKey model) s _ _ Hkey)) in Hout
  end.
  cbn iota beta in Hout. apply String.eqb_neq in Hne. rewrite Hne in Hout.
  unfold requestCompletion in Hout.
  rewrite !try_catch_log in Hout. cbn [heap world trace] in Hout.
  match type of Hout with context [try_catch _ _ ?s] =>
    rewrite (try_catch_bind _ _ _ _ _ _ (readMessages_run s messages T HT)) in Hout
  end.
  match type of Hout with context [try_catch _ _ ?s] => set (st4 := s) in Hout end.
  destruct (requestTools_run st4 toolsLoc elems Harr)
    as (vs & h' & sent & Hreq & Hsub & Hsent & Heach).
  { intros ->. discriminate. }
  { exact Htools. }
  rewrite (try_catch_bind _ _ _ _ _ _ Hreq) in Hout.
  rewrite !try_catch_log in Hout. subst st4. cbn [heap world trace] in Hout, Hsub, Heach.
  match type of Hout with
  | _ = try_catch (bind (create _ ?cfg ?req) _) _ ?s =>
      destruct (create_recorded cfg req modelId messages s) as [Hin Hheap];
      exists cfg, req
  end.
  cbn zeta in Hin, Hheap. rewrite <- Hout in Hin, Hheap. cbn [heap] in Hheap.
  destruct (Heach i tool Hi Hw) as (schema & l' & Hschema & Hvs & Hnew & Hpatched).
  assert (Hsub' : h' ⊆ heap (snd out)).
  { etransitivity; [|exact Hheap]. now apply insert_subseteq. }
  assert (Hcopy : objAt (heap out.2) (imageUrlOf (heap out.2) (VRef l'))
                  = Some (delete "format" schema))
    by now apply (objAt_path_weaken h' (heap (snd out))).
  exists sent, vs, (VRef l'), schema.
  split; [exact Hin|]. split; [reflexivity|].
  split; [now apply (lookup_weaken_None' (heap st) h')|].
  split; [apply (lookup_weaken _ _ _ _ (lookup_insert_eq _ _ _) Hheap)|].
  split; [exact Hvs|]. split.
  { intros <-. destruct Hw as (Htype & _).
    destruct (field_defined (heap st) (VRef l') "type") as (pt & Hobj & _); [congruence|].
    cbn in Hobj. now rewrite Hnew in Hobj. }
  split; [exact Hschema|]. split; [exact Hcopy|].
  split; [exact (hasField_deleted _ _ _ _ Hcopy)|].
  assert (Hall : heap st ⊆ heap (snd out)) by now transitivity h'.
  destruct (imageUrlWithFormat_weaken _ _ _ Hall Hw) as [(_ & _ & Hformat) Himg].
  apply truthy_defined in Hformat.
  destruct (field_defined _ _ _ Hformat) as (props & Hobj & Hk).
  unfold hasField. rewrite Hobj. apply bool_decide_eq_true. eauto.
Qed.

End Wire.

(** ** The orchestration step *)

Section Orchestration.

Context {W : Type} (S : Services W).

Lemma str_or_empty s : str_or (Some s) "" = s.
Proof. unfold str_or. destruct (String.eqb_spec s ""); congruence. Qed.

Lemma extractToolCall_run tc st :
  extractToolCall S tc st =
    (Returns (extracted S tc),
     mkState (heap st) (world st) (trace st ++ extractionWarnings S [tc])).
Proof.
  unfold extractToolCall, extracted, extractionWarnings, try_catch, bind, parseJson,
    log, emit, ret. simpl.
  destruct (JSON_parse S (tc_arguments tc)); simpl; rewrite ?app_nil_r; now destruct st.
Qed.

Lemma mapM_extractToolCall tcs : forall st,
  mapM (extractToolCall S) tcs st =
    (Returns (map (extracted S) tcs),
     mkState (heap st) (world st) (trace st ++ extractionWarnings S tcs)).
Proof.
  induction tcs as [|tc tcs IH]; intros st; simpl.
  - unfold ret. rewrite app_nil_r. now destruct st.
  - rewrite (bind_returns _ _ _ _ _ (extractToolCall_run tc st)).
    rewrite (bind_returns _ _ _ _ _ (IH _)). unfold ret. simpl.
    unfold extractionWarnings. simpl. now rewrite app_nil_r, <- app_assoc.
Qed.

(** The prelude returns the resolved names and leaves the heap alone. *)
Lemma callModelPrelude_run input st T :
  heap st !! in_messages input = Some (CMessages T) ->
  exists st1,
    callModelPrelude S input st
      = (Returns (resolvedNames S (in_modelId input) (world st)), st1)
    /\ heap st1 = heap st.
Proof.
  intros HT.
  unfold callModelPrelude, lookupDisplayNames, resolvedNames, readMessages, getModel,
    try_catch, bind, readCell, log, emit, ret. simpl.
  destruct (svc_getModel S (in_modelId input) (world st)) as [[[model|]|e] w]; simpl;
    rewrite HT; simpl; eexists; split; reflexivity.
Qed.

(** The success branch of [callModel], run in a state whose heap holds
    the input transcript [T]. *)
Lemma appendAssistant_run input names v st T :
  heap st !! in_messages input = Some (CMessages T) ->
  let l := fresh (dom (heap st)) in
  let content := prefixedContent (in_nodeName input) (fst names) (snd names) (mcr_content v) in
  let tcs := firstChoiceToolCalls (mcr_fullResponse v) in
  let a :=
    {| msg_id := stampId S (world st);
       msg_role := assistant;
       msg_content := Some content;
       msg_tool_calls := tcs;
       msg_tool_call_id := None;
       msg_timestamp := stampTime S (world st);
       msg_processNodeId := in_nodeId input |} in
  appendAssistant S input names v st =
    (Returns (Success {| mcr_content := content;
                         mcr_messages := l;
                         mcr_fullResponse := mcr_fullResponse v;
                         mcr_toolCalls := option_map (map (extracted S)) tcs |}),
     mkState (<[l := CMessages (T ++ [a])]> (heap st)) (stamped S (world st))
       (trace st ++ extractionWarnings S (default [] tcs)
          ++ [ELog Verbose "callModel single step result"])).
Proof.
  intros HT l content tcs a.
  subst a. unfold appendAssistant. rewrite str_or_empty.
  fold content. fold tcs.
  unfold copyMessages, pushMessage, readMessages, uuidv4, Date_now, alloc, writeCell,
    readCell, bind, ret.
  cbn [heap world trace fst snd]. rewrite HT. fold l.
  cbn [heap world trace fst snd]. unfold stampId, stampTime, stamped.
  destruct (svc_uuidv4 S (world st)) as [u w1] eqn:Hu. cbn [fst snd heap world trace].
  destruct (svc_now S w1) as [t w2] eqn:Ht. cbn [fst snd heap world trace].
  rewrite lookup_insert_eq. cbn [fst snd heap world trace]. rewrite insert_insert_eq.
  destruct tcs as [calls|]; cbn [option_map default].
  - rewrite mapM_extractToolCall. unfold log, emit. cbn [heap world trace msg_content].
    now rewrite <- app_assoc.
  - unfold log, emit. cbn [heap world trace msg_content extractionWarnings flat_map].
    reflexivity.
Qed.

Lemma callModel_success input st T v st2 :
  heap st !! in_messages input = Some (CMessages T) ->
  completionCall S input st = (Returns (Success v), st2) ->
  heap st2 !! in_messages input = Some (CMessages T)
  /\ callModel S input st
     = appendAssistant S input (resolvedNames S (in_modelId input) (world st)) v st2.
Proof.
  intros HT Hgen. unfold completionCall in Hgen.
  destruct (callModelPrelude_run input st T HT) as (st1 & Hpre & Hheap).
  rewrite Hpre in Hgen. cbn [snd] in Hgen.
  split.
  - assert (Hsub : heap st1 ⊆ heap st2).
    { pose proof (keeps_generateCompletion S (heap st1) (in_modelId input) (in_prompt input)
                    (in_messages input) (in_tools input) st1 (reflexivity _)) as [H _].
      now rewrite Hgen in H. }
    apply (lookup_weaken _ _ _ _ (eq_ind_r (fun h => h !! _ = _) HT Hheap) Hsub).
  - unfold callModel. rewrite (bind_returns _ _ _ _ _ Hpre).
    now rewrite (bind_returns _ _ _ _ _ Hgen).
Qed.

Lemma callModel_failure input st T e st2 :
  heap st !! in_messages input = Some (CMessages T) ->
  completionCall S input st = (Returns (Failure e), st2) ->
  callModel S input st =
    (Returns (Failure e),
     mkState (heap st2) (world st2) (trace st2 ++ [ELog Verbose "callModel error response"])).
Proof.
  intros HT Hgen. unfold completionCall in Hgen.
  destruct (callModelPrelude_run input st T HT) as (st1 & Hpre & Hheap).
  rewrite Hpre in Hgen. cbn [snd] in Hgen.
  unfold callModel. rewrite (bind_returns _ _ _ _ _ Hpre).
  now rewrite (bind_returns _ _ _ _ _ Hgen).
Qed.

Lemma completionCall_returns input st :
  exists r st2, completionCall S input st = (Returns r, st2).
Proof. apply generateCompletion_returns. Qed.

(** C1. [callModel] changes no cell of the heap it was started in; in
    particular the input transcript [T] is still [T] afterwards.  The
    completion call returns a result; when it is a success, [callModel]
    returns a success whose [messages] is a new array holding [T] followed
    by one message, of role assistant; when it is a failure, [callModel]
    returns that failure, which has no transcript in it. *)
Theorem C1_transcript_not_mutated_one_message_appended input st T :
  heap st !! in_messages input = Some (CMessages T) ->
  let completion := fst (completionCall S input st) in
  let out := callModel S input st in
  heap st ⊆ heap (snd out)
  /\ heap (snd out) !! in_messages input = Some (CMessages T)
  /\ (exists r, completion = Returns r)
  /\ (forall v, completion = Returns (Success v) ->
        exists v' a,
          fst out = Returns (Success v')
          /\ mcr_messages v' <> in_messages input
          /\ heap (snd out) !! mcr_messages v' = Some (CMessages (T ++ [a]))
          /\ msg_role a = assistant)
  /\ (forall e, completion = Returns (Failure e) -> fst out = Returns (Failure e)).
Proof.
  intros HT completion out.
  assert (Hframe : heap st ⊆ heap (snd out)) by apply callModel_frame.
  split; [exact Hframe|]. split; [exact (lookup_weaken _ _ _ _ HT Hframe)|].
  subst completion out.
  destruct (completionCall_returns input st) as (r & st2 & Hgen). rewrite Hgen.
  split; [eauto|]. split.
  - intros v [= ->].
    destruct (callModel_success input st T v st2 HT Hgen) as [HT2 ->].
    rewrite (appendAssistant_run input _ v st2 T HT2). cbn [fst snd heap].
    eexists _, _. split; [reflexivity|]. cbn [mcr_messages]. split; [|split].
    + intros Heq. rewrite <- Heq in HT2.
      pose proof (is_fresh (dom (heap st2))) as Hfresh.
      apply Hfresh, elem_of_dom. eauto.
    + apply lookup_insert_eq.
    + reflexivity.
  - intros e [= ->]. now rewrite (callModel_failure input st T e st2 HT Hgen).
Qed.

(** C3, as the code has it. After a successful completion call with raw
    content [raw], the content of the appended assistant message (and of
    the result) is [raw] itself when [raw] matches the heading pattern, and
    also when the resolved model display name is empty; when [raw] does
    not match and the display name is not empty, it is [raw] behind the
    heading made of the node name, the display name and the technical
    name. *)
Theorem C3_prefix_unless_heading_or_no_display_name input st T v :
  heap st !! in_messages input = Some (CMessages T) ->
  fst (completionCall S input st) = Returns (Success v) ->
  let raw := mcr_content v in
  let display := fst (resolvedNames S (in_modelId input) (world st)) in
  let technical := snd (resolvedNames S (in_modelId input) (world st)) in
  let out := callModel S input st in
  exists v' a,
    fst out = Returns (Success v')
    /\ heap (snd out) !! mcr_messages v' = Some (CMessages (T ++ [a]))
    /\ msg_content a = Some (mcr_content v')
    /\ (hasHeadingPattern raw = true -> msg_content a = Some raw)
    /\ (display = "" -> msg_content a = Some raw)
    /\ (hasHeadingPattern raw = false -> display <> "" ->
         msg_content a
         = Some ("## " +:+ in_nodeName input +:+ " - " +:+ display +:+ " (" +:+ technical
                   +:+ ") says:" +:+ nl +:+ nl +:+ raw)).
Proof.
  intros HT Hc raw display technical out. subst out.
  destruct (completionCall S input st) as [c st2] eqn:Hgen. cbn [fst] in Hc. subst c.
  destruct (callModel_success input st T v st2 HT Hgen) as [HT2 ->].
  rewrite (appendAssistant_run input _ v st2 T HT2). cbn [fst snd heap].
  eexists _, _. split; [reflexivity|]. cbn [mcr_messages mcr_content msg_content].
  split; [apply lookup_insert_eq|]. split; [reflexivity|].
  fold display technical raw. unfold prefixedContent.
  split; [|split].
  - intros ->. now rewrite andb_false_r.
  - intros ->. reflexivity.
  - intros -> Hd. apply String.eqb_neq in Hd. now rewrite Hd.
Qed.

(** C10. When the model lookup made for the display names throws or
    finds no model, both names stay empty; [callModel] goes on to the
    completion call, and when that succeeds [callModel] succeeds, with the
    raw content of the completion, unprefixed, as the content of the
    appended assistant message and of the result, whether or not the raw
    content starts with a heading. *)
Theorem C10_failed_lookup_leaves_content_unprefixed input st T v :
  heap st !! in_messages input = Some (CMessages T) ->
  (exists e, fst (svc_getModel S (in_modelId input) (world st)) = Throws e)
  \/ fst (svc_getModel S (in_modelId input) (world st)) = Returns None ->
  fst (completionCall S input st) = Returns (Success v) ->
  let out := callModel S input st in
  resolvedNames S (in_modelId input) (world st) = ("", "")
  /\ exists v' a,
       fst out = Returns (Success v')
       /\ heap (snd out) !! mcr_messages v' = Some (CMessages (T ++ [a]))
       /\ msg_role a = assistant
       /\ msg_content a = Some (mcr_content v)
       /\ mcr_content v' = mcr_content v.
Proof.
  intros HT Hlookup Hc out. subst out.
  assert (Hnames : resolvedNames S (in_modelId input) (world st) = ("", "")).
  { unfold resolvedNames. destruct Hlookup as [[e ->] | ->]; reflexivity. }
  split; [exact Hnames|].
  destruct (completionCall S input st) as [c st2] eqn:Hgen. cbn [fst] in Hc. subst c.
  destruct (callModel_success input st T v st2 HT Hgen) as [HT2 ->].
  rewrite (appendAssistant_run input _ v st2 T HT2). cbn [fst snd heap].
  eexists _, _. split; [reflexivity|]. cbn [mcr_messages mcr_content msg_content msg_role].
  split; [apply lookup_insert_eq|]. rewrite Hnames. auto.
Qed.

(** C7. The extraction of the requested calls does not make [callModel]
    fail: after a successful completion call [callModel] returns a
    success.  When the first choice carries tool calls, the result lists
    one descriptor per call, in order, with the call's name and id and an
    empty result; a call whose argument string does not parse is listed
    with empty args, and a warning naming its id is in the trace. *)
Theorem C7_extraction_tolerates_unparsable_arguments input st T v :
  heap st !! in_messages input = Some (CMessages T) ->
  fst (completionCall S input st) = Returns (Success v) ->
  let out := callModel S input st in
  exists v',
    fst out = Returns (Success v')
    /\ forall tcs, firstChoiceToolCalls (mcr_fullResponse v) = Some tcs ->
         exists infos,
           mcr_toolCalls v' = Some infos
           /\ map tci_name infos = map tc_name tcs
           /\ map tci_id infos = map tc_id tcs
           /\ Forall (fun info => tci_result info = Some "") infos
           /\ forall i tc e,
                tcs !! i = Some tc ->
                JSON_parse S (tc_arguments tc) = Throws e ->
                infos !! i = Some {| tci_name := tc_name tc; tci_args := JObj [];
                                     tci_id := tc_id tc; tci_result := Some "" |}
                /\ ELog Warn ("Failed to parse tool arguments for call " +:+ tc_id tc)
                     ∈ trace (snd out).
Proof.
  intros HT Hc out. subst out.
  destruct (completionCall S input st) as [c st2] eqn:Hgen. cbn [fst] in Hc. subst c.
  destruct (callModel_success input st T v st2 HT Hgen) as [HT2 ->].
  rewrite (appendAssistant_run input _ v st2 T HT2). cbn [fst snd trace].
  eexists. split; [reflexivity|]. cbn [mcr_toolCalls].
  intros tcs ->. cbn [option_map default].
  exists (map (extracted S) tcs). split; [reflexivity|].
  rewrite !map_map. cbn [extracted tci_name tci_id].
  split; [reflexivity|]. split; [reflexivity|]. split.
  - apply List.Forall_forall. intros info Hin.
    apply in_map_iff in Hin. destruct Hin as (tc & <- & _). reflexivity.
  - intros i tc e Hi Hp. split.
    + rewrite list_lookup_fmap, Hi. cbn. unfold extracted. now rewrite Hp.
    + apply elem_of_app. right. apply elem_of_app. left.
      unfold extractionWarnings. apply list_elem_of_In, in_flat_map.
      exists tc. split.
      * apply list_elem_of_In. eapply list_elem_of_lookup_2. exact Hi.
      * rewrite Hp. now left.
Qed.

End Orchestration.

(** ** The tool dispatcher *)

Section Dispatcher.

Context {W : Type} (S : Services W).

Ltac run :=
  unfold processToolCall, try_catch, bind, parseJson, throw, log, emit, ret,
    uuidv4, Date_now, callTool; simpl.

Ltac tick :=
  cbn [heap world trace];
  repeat match goal with
    | |- context [svc_uuidv4 S ?w] =>
        let u := fresh "u" in let w' := fresh "w" in
        destruct (svc_uuidv4 S w) as [u w'] eqn:?; cbn [heap world trace fst snd]
    | |- context [svc_now S ?w] =>
        let t := fresh "t" in let w' := fresh "w" in
        destruct (svc_now S w) as [t w'] eqn:?; cbn [heap world trace fst snd]
    end.

Ltac stamps := unfold stampId, stampTime, stamped; tick.

Lemma processToolCall_handoff tc acc st args :
  JSON_parse S (tc_arguments tc) = Returns args ->
  isHandoff (tc_name tc) = true ->
  let content := JSON_stringify S (JObj [("handoff", JBool true); ("args", args)]) in
  processToolCall S tc acc st =
    (Returns ((fst acc ++ [toolMessage (stampId S (world st)) (tc_id tc) (Some content)
                             (stampTime S (world st))]),
              (snd acc ++ [{| tci_name := tc_name tc; tci_args := args;
                              tci_id := tc_id tc; tci_result := Some content |}])),
     mkState (heap st) (stamped S (world st))
       (trace st ++ [ELog Info "trying to call tool";
                     ELog Info ("Processing handoff tool: " +:+ tc_name tc)])).
Proof.
  intros Hp Hh. run. rewrite Hp. simpl. rewrite Hh. stamps.
  now rewrite <- app_assoc.
Qed.

Lemma processToolCall_invalid tc acc st args :
  JSON_parse S (tc_arguments tc) = Returns args ->
  isHandoff (tc_name tc) = false ->
  List.length (split (tc_name tc) "_-_-_") <> 3%nat ->
  let content := "Error: Invalid tool name format: " +:+ tc_name tc in
  processToolCall S tc acc st =
    (Returns ((fst acc ++ [toolMessage (stampId S (world st)) (tc_id tc) (Some content)
                             (stampTime S (world st))]),
              (snd acc ++ [{| tci_name := tc_name tc; tci_args := JObj [];
                              tci_id := tc_id tc; tci_result := Some content |}])),
     mkState (heap st) (stamped S (world st))
       (trace st ++ [ELog Info "trying to call tool";
                     ELog Error "invalid tool format"])).
Proof.
  intros Hp Hh Hn. run. rewrite Hp. simpl. rewrite Hh.
  apply Nat.eqb_neq in Hn. rewrite Hn. simpl. stamps.
  now rewrite <- app_assoc.
Qed.

Lemma processToolCall_parse_throws tc acc st e :
  JSON_parse S (tc_arguments tc) = Throws e ->
  let content := "Error: " +:+ message_or_unknown e in
  processToolCall S tc acc st =
    (Returns ((fst acc ++ [toolMessage (stampId S (world st)) (tc_id tc) (Some content)
                             (stampTime S (world st))]),
              (snd acc ++ [{| tci_name := tc_name tc; tci_args := JObj [];
                              tci_id := tc_id tc; tci_result := Some content |}])),
     mkState (heap st) (stamped S (world st)) (trace st)).
Proof.
  intros Hp. run. rewrite Hp. simpl. stamps. reflexivity.
Qed.

Lemma processToolCall_mcp tc acc st args result w :
  JSON_parse S (tc_arguments tc) = Returns args ->
  isHandoff (tc_name tc) = false ->
  List.length (split (tc_name tc) "_-_-_") = 3%nat ->
  let serverName := default "" (split (tc_name tc) "_-_-_" !! 1%nat) in
  let toolName := default "" (split (tc_name tc) "_-_-_" !! 2%nat) in
  svc_callTool S serverName toolName args (world st) = (Returns result, w) ->
  let content := mcpResultContent S result in
  processToolCall S tc acc st =
    (Returns ((fst acc ++ [toolMessage (stampId S w) (tc_id tc) content (stampTime S w)]),
              (snd acc ++ [{| tci_name := tc_name tc; tci_args := args;
                              tci_id := tc_id tc; tci_result := content |}])),
     mkState (heap st) (stamped S w)
       (trace st ++ [ELog Info "trying to call tool";
                     ECallTool serverName toolName args])).
Proof.
  intros Hp Hh Hn serverName toolName Hc. run. rewrite Hp. simpl. rewrite Hh.
  rewrite Hn. simpl. fold serverName toolName. rewrite Hc. simpl. stamps.
  now rewrite <- app_assoc.
Qed.

Lemma processToolCall_mcp_throws tc acc st args e w :
  JSON_parse S (tc_arguments tc) = Returns args ->
  isHandoff (tc_name tc) = false ->
  List.length (split (tc_name tc) "_-_-_") = 3%nat ->
  let serverName := default "" (split (tc_name tc) "_-_-_" !! 1%nat) in
  let toolName := default "" (split (tc_name tc) "_-_-_" !! 2%nat) in
  svc_callTool S serverName toolName args (world st) = (Throws e, w) ->
  let content := "Error: " +:+ message_or_unknown e in
  processToolCall S tc acc st =
    (Returns ((fst acc ++ [toolMessage (stampId S w) (tc_id tc) (Some content) (stampTime S w)]),
              (snd acc ++ [{| tci_name := tc_name tc; tci_args := JObj [];
                              tci_id := tc_id tc; tci_result := Some content |}])),
     mkState (heap st) (stamped S w)
       (trace st ++ [ELog Info "trying to call tool";
                     ECallTool serverName toolName args])).
Proof.
  intros Hp Hh Hn serverName toolName Hc. run. rewrite Hp. simpl. rewrite Hh.
  rewrite Hn. simpl. fold serverName toolName. rewrite Hc. simpl. stamps.
  now rewrite <- app_assoc.
Qed.

(** Whatever happens to a call, the loop body returns, with one tool
    message and one record more, both for this call. *)
Lemma processToolCall_shape tc st :
  exists m r st',
    (forall acc,
        processToolCall S tc acc st = (Returns ((fst acc ++ [m]), (snd acc ++ [r])), st'))
    /\ msg_role m = tool
    /\ msg_tool_call_id m = Some (tc_id tc)
    /\ msg_content m = tci_result r
    /\ tci_id r = tc_id tc
    /\ tci_name r = tc_name tc
    /\ heap st' = heap st.
Proof.
  destruct (JSON_parse S (tc_arguments tc)) as [args|e] eqn:Hp.
  - destruct (isHandoff (tc_name tc)) eqn:Hh.
    + eexists _, _, _. split; [intros acc; apply (processToolCall_handoff _ _ _ _ Hp Hh)|]. now simpl.
    + destruct (decide (List.length (split (tc_name tc) "_-_-_") = 3%nat)) as [Hn|Hn].
      * destruct (svc_callTool S (default "" (split (tc_name tc) "_-_-_" !! 1%nat))
                    (default "" (split (tc_name tc) "_-_-_" !! 2%nat)) args (world st))
          as [[result|e] w] eqn:Hc.
        -- eexists _, _, _. split; [intros acc; apply (processToolCall_mcp _ _ _ _ _ _ Hp Hh Hn Hc)|]. now simpl.
        -- eexists _, _, _. split; [intros acc; apply (processToolCall_mcp_throws _ _ _ _ _ _ Hp Hh Hn Hc)|]. now simpl.
      * eexists _, _, _. split; [intros acc; apply (processToolCall_invalid _ _ _ _ Hp Hh Hn)|]. now simpl.
  - eexists _, _, _. split; [intros acc; apply (processToolCall_parse_throws _ _ _ _ Hp)|]. now simpl.
Qed.

Lemma forOf_processToolCall calls : forall acc st,
  exists ms rs st',
    forOf (processToolCall S) calls acc st
      = (Returns ((fst acc ++ ms), (snd acc ++ rs)), st')
    /\ map msg_tool_call_id ms = map (fun tc => Some (tc_id tc)) calls
    /\ map tci_id rs = map tc_id calls
    /\ map msg_content ms = map tci_result rs
    /\ Forall (fun m => msg_role m = tool) ms
    /\ heap st' = heap st.
Proof.
  induction calls as [|tc calls IH]; intros acc st.
  - exists [], [], st. simpl. rewrite !app_nil_r. now destruct acc.
  - destruct (processToolCall_shape tc st)
      as (m & r & st1 & Hstep & Hrole & Hid & Hcontent & Hrid & _ & Hheap).
    specialize (Hstep acc).
    destruct (IH ((fst acc ++ [m]), (snd acc ++ [r])) st1)
      as (ms & rs & st2 & Hrest & Hids & Hrids & Hcs & Hroles & Hheap2).
    exists (m :: ms), (r :: rs), st2. simpl.
    rewrite (bind_returns _ _ _ _ _ Hstep), Hrest. simpl.
    rewrite <- !app_assoc. simpl.
    rewrite Hid, Hids, Hrid, Hrids, Hcontent, Hcs, Hheap2, Hheap.
    repeat split; auto.
Qed.

Lemma forOf_processToolCall_length calls acc st :
  let out := fst (forOf (processToolCall S) calls acc st) in
  exists c, out = Returns c
    /\ List.length (fst c) = (List.length (fst acc) + List.length calls)%nat
    /\ List.length (snd c) = (List.length (snd acc) + List.length calls)%nat.
Proof.
  destruct (forOf_processToolCall calls acc st)
    as (ms & rs & st' & H & Hids & Hrids & _).
  simpl. rewrite H. eexists. split; [reflexivity|]. simpl.
  rewrite !length_app.
  apply (f_equal (@List.length _)) in Hids, Hrids.
  rewrite !length_map in Hids, Hrids. now rewrite Hids, Hrids.
Qed.

(** The dispatcher on a non-empty sequence: the loop, then the success
    result. *)
Lemma processToolCalls_loop calls st c st' :
  calls <> [] ->
  forOf (processToolCall S) calls ([], []) (loopStart st) = (Returns c, st') ->
  processToolCalls S (Some calls) st =
    (Returns (Success {| toolCallMessages := fst c; processedToolCalls := snd c |}),
     mkState (heap st') (world st')
       (trace st' ++ [ELog Verbose "processToolCalls success result"])).
Proof.
  intros Hne H. destruct calls as [|tc calls]; [congruence|].
  unfold processToolCalls. unfold loopStart in H.
  unfold bind at 1. destruct (log Verbose "processToolCalls input" st) as [[[]|e] st0] eqn:Hlog;
    [|unfold log, emit in Hlog; discriminate].
  cbn [snd] in H.
  apply try_catch_returns. now rewrite (bind_returns _ _ _ _ _ H).
Qed.

Lemma stateBeforeCall_snoc earlier tc st :
  exists acc,
    stateBeforeCall S (earlier ++ [tc]) st
      = snd (processToolCall S tc acc (stateBeforeCall S earlier st)).
Proof.
  unfold stateBeforeCall.
  destruct (forOf_processToolCall earlier ([], []) (loopStart st))
    as (ms & rs & st1 & H & _).
  exists ((([], []) : Collected).1 ++ ms, (([], []) : Collected).2 ++ rs).
  rewrite (forOf_app _ _ _ _ _ _ _ H), H. simpl.
  unfold bind. destruct (processToolCall S tc _ st1) as [[c|e] st2]; reflexivity.
Qed.

(** What the dispatcher returns for the call that comes after [earlier],
    from what the loop body does for it. *)
Lemma processToolCalls_at earlier tc later st m r st2 :
  (forall acc,
      processToolCall S tc acc (stateBeforeCall S earlier st)
        = (Returns ((fst acc ++ [m]), (snd acc ++ [r])), st2)) ->
  dispatchedAs S (earlier ++ tc :: later) st (List.length earlier) m r.
Proof.
  intros Hstep. unfold dispatchedAs.
  destruct (forOf_processToolCall (earlier ++ tc :: later) ([], []) (loopStart st))
    as (ms & rs & st' & Hall & Hids & Hrids & _ & _ & Hheap).
  assert (Hne : (earlier ++ tc :: later) <> []) by (now destruct earlier).
  eexists _, _. split; [apply (processToolCalls_loop _ _ _ _ Hne Hall)|].
  simpl. rewrite Hids, Hrids, Hheap. 
  assert (Hms : ms !! List.length earlier = Some m /\ rs !! List.length earlier = Some r).
  { destruct (forOf_processToolCall earlier ([], []) (loopStart st))
      as (ms1 & rs1 & st1 & Hpre & Hids1 & Hrids1 & _).
    rewrite (forOf_app _ _ _ _ _ _ _ Hpre) in Hall. simpl in Hall, Hpre.
    assert (Hst1 : st1 = stateBeforeCall S earlier st)
      by (unfold stateBeforeCall; now rewrite Hpre).
    subst st1. rewrite (bind_returns _ _ _ _ _ (Hstep (ms1, rs1))) in Hall.
    destruct (forOf_processToolCall later ((ms1, rs1).1 ++ [m], (ms1, rs1).2 ++ [r]) st2)
      as (ms3 & rs3 & st3 & Hpost & _).
    rewrite Hpost in Hall. simpl in Hall. inversion Hall; subst.
    apply (f_equal (@List.length _)) in Hids1, Hrids1.
    rewrite !length_map in Hids1, Hrids1.
    split.
    - rewrite <- Hids1, <- app_assoc. now apply list_lookup_middle.
    - rewrite <- Hrids1, <- app_assoc. now apply list_lookup_middle. }
  destruct Hms as [-> ->]. unfold loopStart. simpl. auto.
Qed.

(** The state a call leaves behind, from what the loop body does for it. *)
Lemma stateBeforeCall_next earlier tc st m r st2 :
  (forall acc,
      processToolCall S tc acc (stateBeforeCall S earlier st)
        = (Returns ((fst acc ++ [m]), (snd acc ++ [r])), st2)) ->
  stateBeforeCall S (earlier ++ [tc]) st = st2.
Proof.
  intros Hstep. destruct (stateBeforeCall_snoc earlier tc st) as [acc ->].
  now rewrite Hstep.
Qed.

(** Every requested call gets one tool message and one record, whatever
    becomes of it. *)
Lemma processToolCalls_each earlier tc later st :
  exists m r,
    dispatchedAs S (earlier ++ tc :: later) st (List.length earlier) m r
    /\ msg_role m = tool
    /\ msg_tool_call_id m = Some (tc_id tc)
    /\ msg_content m = tci_result r
    /\ tci_id r = tc_id tc
    /\ tci_name r = tc_name tc.
Proof.
  destruct (processToolCall_shape tc (stateBeforeCall S earlier st))
    as (m & r & st2 & Hstep & Hrole & Hid & Hcontent & Hrid & Hname & _).
  exists m, r. split; [apply (processToolCalls_at _ _ _ _ _ _ _ Hstep)|]. auto.
Qed.

(** C9. For an empty or absent sequence of requested calls the dispatcher
    returns at once, with success and two empty sequences; it consults no
    collaborator: the world is as before and the trace has grown by the two
    log lines only. *)
Theorem C9_empty_input_immediate_success (st : State W) :
  let done :=
    (Returns (Success {| toolCallMessages := []; processedToolCalls := [] |}),
     mkState (heap st) (world st)
       (trace st ++ [ELog Verbose "processToolCalls input";
                     ELog Verbose "processToolCalls empty result"])) in
  processToolCalls S None st = done /\ processToolCalls S (Some []) st = done.
Proof.
  split; unfold processToolCalls, bind, log, emit, ret; simpl;
    now rewrite <- app_assoc.
Qed.

(** C6. A call named [handoff] or [handoff_to_...] whose arguments parse
    is answered locally and succeeds: the dispatcher returns success, with
    one message for the call, of role [tool], with the call's id as
    [tool_call_id], and one record, both carrying the serialisation of
    [{ handoff: true, args }]; while the call is handled only the id
    generator and the clock are consulted, and the trace grows by two log
    lines: the MCP service is not called. *)
Theorem C6_handoff_handled_locally earlier tc later st args :
  startsWith (tc_name tc) "handoff_to_" = true \/ tc_name tc = "handoff" ->
  JSON_parse S (tc_arguments tc) = Returns args ->
  let content := JSON_stringify S (JObj [("handoff", JBool true); ("args", args)]) in
  let before := stateBeforeCall S earlier st in
  dispatchedAs S (earlier ++ tc :: later) st (List.length earlier)
    {| msg_id := stampId S (world before);
       msg_role := tool;
       msg_content := Some content;
       msg_tool_calls := None;
       msg_tool_call_id := Some (tc_id tc);
       msg_timestamp := stampTime S (world before);
       msg_processNodeId := None |}
    {| tci_name := tc_name tc; tci_args := args; tci_id := tc_id tc;
       tci_result := Some content |}
  /\ stateBeforeCall S (earlier ++ [tc]) st =
       mkState (heap before) (stamped S (world before))
         (trace before ++ [ELog Info "trying to call tool";
                           ELog Info ("Processing handoff tool: " +:+ tc_name tc)]).
Proof.
  intros Hname Hp content before.
  assert (Hh : isHandoff (tc_name tc) = true).
  { unfold isHandoff. destruct Hname as [-> | ->]; [reflexivity|].
    apply orb_true_r. }
  pose proof (fun acc => processToolCall_handoff tc acc before args Hp Hh) as Hstep.
  split.
  - apply (processToolCalls_at _ _ _ _ _ _ _ Hstep).
  - apply (stateBeforeCall_next _ _ _ _ _ _ Hstep).
Qed.

(** C5. A call whose name is neither a handoff name nor made of exactly
    three segments around the delimiter, and whose arguments parse, gets an
    [Invalid tool name format] error result, for itself only: the
    dispatcher still returns success with a message and a record for every
    call, in order; the record of this call has empty args; while the call
    is handled the trace grows by two log lines and no MCP call. *)
Theorem C5_invalid_tool_name_isolated earlier tc later st args :
  tc_name tc <> "handoff" ->
  startsWith (tc_name tc) "handoff_to_" = false ->
  List.length (split (tc_name tc) "_-_-_") <> 3%nat ->
  JSON_parse S (tc_arguments tc) = Returns args ->
  let content := "Error: Invalid tool name format: " +:+ tc_name tc in
  let before := stateBeforeCall S earlier st in
  dispatchedAs S (earlier ++ tc :: later) st (List.length earlier)
    {| msg_id := stampId S (world before);
       msg_role := tool;
       msg_content := Some content;
       msg_tool_calls := None;
       msg_tool_call_id := Some (tc_id tc);
       msg_timestamp := stampTime S (world before);
       msg_processNodeId := None |}
    {| tci_name := tc_name tc; tci_args := JObj []; tci_id := tc_id tc;
       tci_result := Some content |}
  /\ stateBeforeCall S (earlier ++ [tc]) st =
       mkState (heap before) (stamped S (world before))
         (trace before ++ [ELog Info "trying to call tool";
                           ELog Error "invalid tool format"]).
Proof.
  intros Hne Hpre Hn Hp content before.
  assert (Hh : isHandoff (tc_name tc) = false).
  { unfold isHandoff. rewrite Hpre. simpl. now apply String.eqb_neq. }
  pose proof (fun acc => processToolCall_invalid tc acc before args Hp Hh Hn) as Hstep.
  split.
  - apply (processToolCalls_at _ _ _ _ _ _ _ Hstep).
  - apply (stateBeforeCall_next _ _ _ _ _ _ Hstep).
Qed.

(** C4. An MCP-routed call (no handoff name, exactly three segments,
    arguments that parse) gets exactly one message, of role [tool], with
    the call's id as [tool_call_id] and the result of the call's record as
    content, and exactly one record, and the messages and records of the
    dispatcher follow the order of the requested calls.  When the service
    answers, it has been called once, with the second and third segment
    and the parsed arguments, and the content of the message and of the
    record is the serialised payload if it reports success and
    [Error: <message>] if it reports failure.  A payload left out is
    serialised to [undefined], a message left out is printed as
    [undefined]. *)
Theorem C4_mcp_call_recorded_in_order earlier tc later st args :
  tc_name tc <> "handoff" ->
  startsWith (tc_name tc) "handoff_to_" = false ->
  List.length (split (tc_name tc) "_-_-_") = 3%nat ->
  JSON_parse S (tc_arguments tc) = Returns args ->
  let serverName := default "" (split (tc_name tc) "_-_-_" !! 1%nat) in
  let toolName := default "" (split (tc_name tc) "_-_-_" !! 2%nat) in
  let before := stateBeforeCall S earlier st in
  (exists m r,
      dispatchedAs S (earlier ++ tc :: later) st (List.length earlier) m r
      /\ msg_role m = tool
      /\ msg_tool_call_id m = Some (tc_id tc)
      /\ msg_content m = tci_result r
      /\ tci_id r = tc_id tc
      /\ tci_name r = tc_name tc)
  /\ (forall result w,
        svc_callTool S serverName toolName args (world before) = (Returns result, w) ->
        let content :=
          if mcp_success result
          then option_map (JSON_stringify S) (mcp_data result)
          else Some ("Error: " +:+ default "undefined" (mcp_error result)) in
        dispatchedAs S (earlier ++ tc :: later) st (List.length earlier)
          {| msg_id := stampId S w;
             msg_role := tool;
             msg_content := content;
             msg_tool_calls := None;
             msg_tool_call_id := Some (tc_id tc);
             msg_timestamp := stampTime S w;
             msg_processNodeId := None |}
          {| tci_name := tc_name tc; tci_args := args; tci_id := tc_id tc;
             tci_result := content |}
        /\ stateBeforeCall S (earlier ++ [tc]) st =
             mkState (heap before) (stamped S w)
               (trace before ++ [ELog Info "trying to call tool";
                                 ECallTool serverName toolName args])).
Proof.
  intros Hne Hpre Hn Hp serverName toolName before.
  split.
  - destruct (processToolCalls_each earlier tc later st)
      as (m & r & Hd & Hrole & Hid & Hcontent & Hrid & Hname).
    exists m, r. repeat split; assumption.
  - intros result w Hc content.
    assert (Hh : isHandoff (tc_name tc) = false).
    { unfold isHandoff. rewrite Hpre. simpl. now apply String.eqb_neq. }
    pose proof (fun acc => processToolCall_mcp tc acc before args result w Hp Hh Hn Hc)
      as Hstep.
    split.
    + apply (processToolCalls_at _ _ _ _ _ _ _ Hstep).
    + apply (stateBeforeCall_next _ _ _ _ _ _ Hstep).
Qed.

(** C2, as the code has it. A call whose argument string does not parse
    is caught by the [try] around the loop body: the dispatcher returns
    success, the call gets a tool message and a record with the content
    [Error: <message of the parse error>] and empty args, and the other
    calls of the sequence get theirs, in order. *)
Theorem C2_parse_failure_caught_per_call earlier tc later st e :
  JSON_parse S (tc_arguments tc) = Throws e ->
  let content := "Error: " +:+ message_or_unknown e in
  let before := stateBeforeCall S earlier st in
  dispatchedAs S (earlier ++ tc :: later) st (List.length earlier)
    {| msg_id := stampId S (world before);
       msg_role := tool;
       msg_content := Some content;
       msg_tool_calls := None;
       msg_tool_call_id := Some (tc_id tc);
       msg_timestamp := stampTime S (world before);
       msg_processNodeId := None |}
    {| tci_name := tc_name tc; tci_args := JObj []; tci_id := tc_id tc;
       tci_result := Some content |}
  /\ stateBeforeCall S (earlier ++ [tc]) st =
       mkState (heap before) (stamped S (world before)) (trace before).
Proof.
  intros Hp content before.
  pose proof (fun acc => processToolCall_parse_throws tc acc before e Hp) as Hstep.
  split.
  - apply (processToolCalls_at _ _ _ _ _ _ _ Hstep).
  - apply (stateBeforeCall_next _ _ _ _ _ _ Hstep).
Qed.

End Dispatcher.

(** ** The dispatcher on sample inputs *)

Section DispatcherExamples.

Import Reference.

Example lookup_dispatched :
  fst (processToolCalls services (Some [lookupCall]) (mcpAnswers [Returns hits3])) =
  Returns (Success
    {| toolCallMessages := [reply "id-0" "c1" text_hits_3 1700000000001];
       processedToolCalls :=
         [{| tci_name := "_-_-_search_-_-_lookup"; tci_args := JObj [("q", JStr "x")];
             tci_id := "c1"; tci_result := Some text_hits_3 |}] |}).
Proof. vm_compute. reflexivity. Qed.

Example billing_handoff_content :
  stringify (JObj [("handoff", JBool true); ("args", JObj [("x", JNum "1")])])
  = "{" +:+ quote +:+ "handoff" +:+ quote +:+ ":true," +:+ quote +:+ "args" +:+ quote
      +:+ ":" +:+ text_x_1 +:+ "}".
Proof. vm_compute. reflexivity. Qed.

Example misnamed_then_billing :
  fst (processToolCalls services (Some [misnamedCall; billingCall]) (mcpAnswers [])) =
  Returns (Success
    {| toolCallMessages :=
         [reply "id-0" "c3" "Error: Invalid tool name format: lookup" 1700000000001;
          reply "id-2" "c2"
            (stringify (JObj [("handoff", JBool true); ("args", JObj [("x", JNum "1")])]))
            1700000000003];
       processedToolCalls :=
         [{| tci_name := "lookup"; tci_args := JObj []; tci_id := "c3";
             tci_result := Some "Error: Invalid tool name format: lookup" |};
          {| tci_name := "handoff_to_billing"; tci_args := JObj [("x", JNum "1")];
             tci_id := "c2";
             tci_result :=
               Some (stringify (JObj [("handoff", JBool true); ("args", JObj [("x", JNum "1")])])) |}] |}).
Proof. vm_compute. reflexivity. Qed.

(** The handoff call of the specification's example, alone in the
    sequence. *)
Lemma C6_handoff_witness :
  (startsWith (tc_name billingCall) "handoff_to_" = true \/ tc_name billingCall = "handoff")
  /\ JSON_parse services (tc_arguments billingCall) = Returns (JObj [("x", JNum "1")])
  /\ dispatchedAs services [billingCall] (mcpAnswers []) 0
       (reply "id-0" "c2"
          (stringify (JObj [("handoff", JBool true); ("args", JObj [("x", JNum "1")])]))
          1700000000001)
       {| tci_name := "handoff_to_billing"; tci_args := JObj [("x", JNum "1")]; tci_id := "c2";
          tci_result :=
            Some (stringify (JObj [("handoff", JBool true); ("args", JObj [("x", JNum "1")])])) |}.
Proof.
  split; [left; reflexivity|]. split; [reflexivity|].
  exact (proj1 (C6_handoff_handled_locally services [] billingCall [] (mcpAnswers [])
                  (JObj [("x", JNum "1")]) (or_introl eq_refl) eq_refl)).
Defined.

(** A misnamed call ahead of the handoff call. *)
Lemma C5_invalid_name_witness :
  tc_name misnamedCall <> "handoff"
  /\ startsWith (tc_name misnamedCall) "handoff_to_" = false
  /\ List.length (split (tc_name misnamedCall) "_-_-_") <> 3%nat
  /\ JSON_parse services (tc_arguments misnamedCall) = Returns (JObj [("q", JStr "x")])
  /\ dispatchedAs services [misnamedCall; billingCall] (mcpAnswers []) 0
       (reply "id-0" "c3" "Error: Invalid tool name format: lookup" 1700000000001)
       {| tci_name := "lookup"; tci_args := JObj []; tci_id := "c3";
          tci_result := Some "Error: Invalid tool name format: lookup" |}.
Proof.
  assert (H1 : tc_name misnamedCall <> "handoff") by discriminate.
  assert (H3 : List.length (split (tc_name misnamedCall) "_-_-_") <> 3%nat) by discriminate.
  split; [exact H1|]. split; [reflexivity|]. split; [exact H3|]. split; [reflexivity|].
  exact (proj1 (C5_invalid_tool_name_isolated services [] misnamedCall [billingCall]
                  (mcpAnswers []) (JObj [("q", JStr "x")]) H1 eq_refl H3 eq_refl)).
Defined.

(** A reported success without payload has no content, a reported failure
    without message is answered [Error: undefined]. *)
Example success_without_payload :
  fst (processToolCalls services (Some [lookupCall; lookupCall])
         (mcpAnswers [Returns emptySuccess; Returns silentFailure])) =
  Returns (Success
    {| toolCallMessages :=
         [{| msg_id := "id-0"; msg_role := tool; msg_content := None; msg_tool_calls := None;
             msg_tool_call_id := Some "c1"; msg_timestamp := 1700000000001;
             msg_processNodeId := None |};
          reply "id-2" "c1" "Error: undefined" 1700000000003];
       processedToolCalls :=
         [{| tci_name := "_-_-_search_-_-_lookup"; tci_args := JObj [("q", JStr "x")];
             tci_id := "c1"; tci_result := None |};
          {| tci_name := "_-_-_search_-_-_lookup"; tci_args := JObj [("q", JStr "x")];
             tci_id := "c1"; tci_result := Some "Error: undefined" |}] |}).
Proof. vm_compute. reflexivity. Qed.

(** The MCP call of the specification's example, between a handoff call
    and a misnamed call: its message and its record come second. *)
Lemma C4_mcp_call_witness :
  let calls := [billingCall; lookupCall; misnamedCall] in
  let st := mcpAnswers [Returns hits3] in
  tc_name lookupCall <> "handoff"
  /\ startsWith (tc_name lookupCall) "handoff_to_" = false
  /\ List.length (split (tc_name lookupCall) "_-_-_") = 3%nat
  /\ JSON_parse services (tc_arguments lookupCall) = Returns (JObj [("q", JStr "x")])
  /\ fst (svc_callTool services "search" "lookup" (JObj [("q", JStr "x")])
            (world (stateBeforeCall services [billingCall] st)))
     = Returns hits3
  /\ exists v st',
       processToolCalls services (Some calls) st = (Returns (Success v), st')
       /\ toolCallMessages v !! 1%nat = Some (reply "id-2" "c1" text_hits_3 1700000000003)
       /\ processedToolCalls v !! 1%nat
          = Some {| tci_name := "_-_-_search_-_-_lookup"; tci_args := JObj [("q", JStr "x")];
                    tci_id := "c1"; tci_result := Some text_hits_3 |}
       /\ map msg_tool_call_id (toolCallMessages v) = [Some "c2"; Some "c1"; Some "c3"]
       /\ map tci_id (processedToolCalls v) = ["c2"; "c1"; "c3"]
       /\ mcpCalls (trace st') = [("search", "lookup", JObj [("q", JStr "x")])].
Proof.
  intros calls st.
  assert (H1 : tc_name lookupCall <> "handoff") by discriminate.
  split; [exact H1|]. split; [reflexivity|]. split; [reflexivity|]. split; [reflexivity|].
  split; [reflexivity|].
  destruct (proj1 (proj2 (C4_mcp_call_recorded_in_order services [billingCall] lookupCall
                            [misnamedCall] st (JObj [("q", JStr "x")])
                            H1 eq_refl eq_refl eq_refl)
                     hits3 _ eq_refl))
    as (v & st' & Hrun & Hm & Hr & Hids & Hrids & _).
  exists v, st'. split; [exact Hrun|]. split; [exact Hm|]. split; [exact Hr|].
  split; [exact Hids|]. split; [exact Hrids|].
  change calls with [billingCall; lookupCall; misnamedCall] in Hrun.
  apply (f_equal snd) in Hrun. cbn [snd] in Hrun. rewrite <- Hrun.
  vm_compute. reflexivity.
Defined.

(** C2 as claimed fails: a call with a cut-short argument string, ahead
    of a handoff call.  The dispatcher returns success, not a
    [tool_processing_failed] failure, and the later call is processed. *)
Lemma C2_parse_failure_not_fatal_counterexample :
  let out := fst (processToolCalls services (Some [brokenCall; billingCall]) (mcpAnswers [])) in
  JSON_parse services (tc_arguments brokenCall) = Throws SyntaxError
  /\ out = Returns (Success
       {| toolCallMessages :=
            [reply "id-0" "c4" "Error: Unexpected token in JSON" 1700000000001;
             reply "id-2" "c2"
               (stringify (JObj [("handoff", JBool true); ("args", JObj [("x", JNum "1")])]))
               1700000000003];
          processedToolCalls :=
            [{| tci_name := "_-_-_search_-_-_lookup"; tci_args := JObj []; tci_id := "c4";
                tci_result := Some "Error: Unexpected token in JSON" |};
             {| tci_name := "handoff_to_billing"; tci_args := JObj [("x", JNum "1")];
                tci_id := "c2";
                tci_result :=
                  Some (stringify (JObj [("handoff", JBool true); ("args", JObj [("x", JNum "1")])])) |}] |})
  /\ (forall message subject,
        out <> Returns (Failure (createToolError "tool_processing_failed" message subject))).
Proof.
  vm_compute. repeat split; discriminate.
Qed.

(** The same two calls, through the theorem. *)
Lemma C2_parse_failure_witness :
  JSON_parse services (tc_arguments brokenCall) = Throws SyntaxError
  /\ dispatchedAs services [brokenCall; billingCall] (mcpAnswers []) 0
       (reply "id-0" "c4" "Error: Unexpected token in JSON" 1700000000001)
       {| tci_name := "_-_-_search_-_-_lookup"; tci_args := JObj []; tci_id := "c4";
          tci_result := Some "Error: Unexpected token in JSON" |}.
Proof.
  split; [reflexivity|].
  exact (proj1 (C2_parse_failure_caught_per_call services [] brokenCall [billingCall]
                  (mcpAnswers []) SyntaxError eq_refl)).
Defined.

End DispatcherExamples.


(** ** The orchestration step on sample inputs *)

Section OrchestrationExamples.

Import Reference.

(** Number literals that are read as zero, and some that are not:
    [2^-1075] lies between [2e-324] and [3e-324]. *)
Example zero_literals :
  map zero_literal ["0"; "-0"; "0.000"; "0e99"; "1e-400"; "2e-324"; "0.2E-323"]
  = [true; true; true; true; true; true; true].
Proof. vm_compute. reflexivity. Qed.

Example nonzero_literals :
  map zero_literal ["1"; "-0.001"; "1E5"; "3e-324"; "5e-324"; "10e-1"; "0.1e1"]
  = [false; false; false; false; false; false; false].
Proof. vm_compute. reflexivity. Qed.

Example heading_detected :
  hasHeadingPattern ("## Node - GPT (gpt-x) says:" +:+ nl +:+ nl +:+ "hello") = true.
Proof. vm_compute. reflexivity. Qed.

Example heading_any_case_and_spaces :
  hasHeadingPattern ("## bot SAYS: " +:+ nl +:+ nl) = true.
Proof. vm_compute. reflexivity. Qed.

Example heading_needs_text : hasHeadingPattern ("## says:" +:+ nl +:+ nl) = false.
Proof. vm_compute. reflexivity. Qed.

Example heading_needs_blank_line :
  hasHeadingPattern ("## bot says:" +:+ nl +:+ "hello") = false.
Proof. vm_compute. reflexivity. Qed.

Example heading_on_one_line :
  hasHeadingPattern ("## bot" +:+ nl +:+ "says:" +:+ nl +:+ nl) = false.
Proof. vm_compute. reflexivity. Qed.

Example heading_at_start_only :
  hasHeadingPattern ("x## bot says:" +:+ nl +:+ nl) = false.
Proof. vm_compute. reflexivity. Qed.

Example ask_with_catalog_up :
  option_map mcr_content
    (match fst (callModel services askInput (asking catalogUp)) with
     | Returns (Success v) => Some v
     | _ => None
     end)
  = Some ("## Node - GPT (gpt-x) says:" +:+ nl +:+ nl +:+ "hello").
Proof. vm_compute. reflexivity. Qed.

Lemma ask_completion lookups :
  lookups = catalogUp \/ lookups = catalogFlaky ->
  fst (completionCall services askInput (asking lookups)) = Returns (Success helloCompletion).
Proof. intros [-> | ->]; vm_compute; reflexivity. Defined.

Lemma C1_transcript_witness :
  let out := callModel services askInput (asking catalogUp) in
  heap (asking catalogUp) !! in_messages askInput = Some (CMessages [question])
  /\ heap (snd out) !! in_messages askInput = Some (CMessages [question])
  /\ exists v' a,
       fst out = Returns (Success v')
       /\ mcr_messages v' <> in_messages askInput
       /\ heap (snd out) !! mcr_messages v' = Some (CMessages ([question] ++ [a]))
       /\ msg_role a = assistant.
Proof.
  assert (HT : heap (asking catalogUp) !! in_messages askInput = Some (CMessages [question]))
    by reflexivity.
  destruct (C1_transcript_not_mutated_one_message_appended services askInput
              (asking catalogUp) [question] HT) as (_ & Hsame & _ & Hsuccess & _).
  split; [exact HT|]. split; [exact Hsame|].
  exact (Hsuccess helloCompletion (ask_completion catalogUp (or_introl eq_refl))).
Defined.

(** C3 as claimed fails: the lookup for the display names throws, the
    completion call succeeds with the raw content [hello], which has no
    heading; the stored content is [hello], with no prefix. *)
Lemma C3_no_prefix_without_display_name_counterexample :
  let out := callModel services askInput (asking catalogFlaky) in
  fst (completionCall services askInput (asking catalogFlaky))
    = Returns (Success helloCompletion)
  /\ hasHeadingPattern (mcr_content helloCompletion) = false
  /\ exists v' a,
       fst out = Returns (Success v')
       /\ heap (snd out) !! mcr_messages v' = Some (CMessages [question; a])
       /\ msg_content a = Some "hello"
       /\ mcr_content v' = "hello"
       /\ forall display technical,
            msg_content a
            <> Some ("## " +:+ in_nodeName askInput +:+ " - " +:+ display +:+ " (" +:+ technical
                       +:+ ") says:" +:+ nl +:+ nl +:+ mcr_content helloCompletion).
Proof.
  split; [vm_compute; reflexivity|]. split; [vm_compute; reflexivity|].
  eexists _, _. split; [vm_compute; reflexivity|].
  split; [vm_compute; reflexivity|]. cbn [msg_content mcr_content].
  split; [reflexivity|]. split; [reflexivity|].
  intros display technical. discriminate.
Qed.

Lemma C3_prefix_witness :
  let out := callModel services askInput (asking catalogUp) in
  heap (asking catalogUp) !! in_messages askInput = Some (CMessages [question])
  /\ fst (completionCall services askInput (asking catalogUp))
       = Returns (Success helloCompletion)
  /\ exists v' a,
       fst out = Returns (Success v')
       /\ heap (snd out) !! mcr_messages v' = Some (CMessages ([question] ++ [a]))
       /\ msg_content a = Some (mcr_content v')
       /\ msg_content a = Some ("## Node - GPT (gpt-x) says:" +:+ nl +:+ nl +:+ "hello").
Proof.
  assert (HT : heap (asking catalogUp) !! in_messages askInput = Some (CMessages [question]))
    by reflexivity.
  pose proof (ask_completion catalogUp (or_introl eq_refl)) as Hc.
  split; [exact HT|]. split; [exact Hc|].
  destruct (C3_prefix_unless_heading_or_no_display_name services askInput
              (asking catalogUp) [question] helloCompletion HT Hc)
    as (v' & a & Hout & Hheap & Hcontent & _ & _ & Hprefix).
  exists v', a. split; [exact Hout|]. split; [exact Hheap|]. split; [exact Hcontent|].
  apply Hprefix; [reflexivity | discriminate].
Defined.

Lemma C10_failed_lookup_witness :
  let out := callModel services askInput (asking catalogFlaky) in
  heap (asking catalogFlaky) !! in_messages askInput = Some (CMessages [question])
  /\ fst (svc_getModel services (in_modelId askInput) (world (asking catalogFlaky)))
       = Throws (JsError "Error" "catalog offline")
  /\ fst (completionCall services askInput (asking catalogFlaky))
       = Returns (Success helloCompletion)
  /\ exists v' a,
       fst out = Returns (Success v')
       /\ heap (snd out) !! mcr_messages v' = Some (CMessages ([question] ++ [a]))
       /\ msg_role a = assistant
       /\ msg_content a = Some "hello"
       /\ mcr_content v' = "hello".
Proof.
  assert (HT : heap (asking catalogFlaky) !! in_messages askInput
               = Some (CMessages [question])) by reflexivity.
  pose proof (ask_completion catalogFlaky (or_intror eq_refl)) as Hc.
  split; [exact HT|]. split; [reflexivity|]. split; [exact Hc|].
  exact (proj2 (C10_failed_lookup_leaves_content_unprefixed services askInput
                  (asking catalogFlaky) [question] helloCompletion HT
                  (or_introl (ex_intro _ _ eq_refl)) Hc)).
Defined.

Lemma C7_extraction_witness :
  let out := callModel services askInput (asking catalogUp) in
  heap (asking catalogUp) !! in_messages askInput = Some (CMessages [question])
  /\ fst (completionCall services askInput (asking catalogUp))
       = Returns (Success helloCompletion)
  /\ JSON_parse services (tc_arguments brokenCall) = Throws SyntaxError
  /\ exists v' infos,
       fst out = Returns (Success v')
       /\ mcr_toolCalls v' = Some infos
       /\ infos !! 0%nat = Some {| tci_name := "_-_-_search_-_-_lookup"; tci_args := JObj [];
                                   tci_id := "c4"; tci_result := Some "" |}
       /\ ELog Warn "Failed to parse tool arguments for call c4" ∈ trace (snd out).
Proof.
  assert (HT : heap (asking catalogUp) !! in_messages askInput = Some (CMessages [question]))
    by reflexivity.
  pose proof (ask_completion catalogUp (or_introl eq_refl)) as Hc.
  split; [exact HT|]. split; [exact Hc|]. split; [reflexivity|].
  destruct (C7_extraction_tolerates_unparsable_arguments services askInput
              (asking catalogUp) [question] helloCompletion HT Hc) as (v' & Hout & Hcalls).
  destruct (Hcalls [brokenCall; lookupCall] eq_refl) as (infos & Hinfos & _ & _ & _ & Heach).
  destruct (Heach 0%nat brokenCall SyntaxError eq_refl eq_refl) as [Hinfo Hwarn].
  exists v', infos. auto.
Defined.

End OrchestrationExamples.

(** ** The tool-schema patch on sample inputs *)

Section SchemaPatchExamples.

Import Reference.

(** The [uri] format of [imageUrl] is gone from the tool sent, and still
    there in the caller's tool. *)
Example uri_format_stripped_on_the_wire :
  let st' := snd (generateCompletion services "m1" "" 1%positive (Some 10%positive)
                    (drawing (VStr "uri"))) in
  map (map (fun tool => (hasField (heap st') (imageUrlOf (heap st') tool) "format",
                         field (heap st') (imageUrlOf (heap st') tool) "type")))
      (sentTools st')
  = [[(false, VStr "string")]]
  /\ field (heap st') (imageUrlOf (heap st') (VRef 11%positive)) "format" = VStr "uri"
  /\ drawHeap (VStr "uri") ⊆ heap st'.
Proof.
  split; [vm_compute; reflexivity|]. split; [vm_compute; reflexivity|].
  apply (keeps_generateCompletion services (drawHeap (VStr "uri")) "m1" "" 1%positive
           (Some 10%positive) (drawing (VStr "uri")) (reflexivity _)).
Qed.

(** An empty string is no format for the guard ([props.imageUrl.format]
    is falsy): the caller's tool itself is sent. *)
Example empty_format_passed_through :
  let st' := snd (generateCompletion services "m1" "" 1%positive (Some 10%positive)
                    (drawing (VStr ""))) in
  sentTools st' = [[VRef 11%positive]]
  /\ field (heap st') (imageUrlOf (heap st') (VRef 11%positive)) "format" = VStr "".
Proof. split; vm_compute; reflexivity. Qed.

Lemma C8_imageUrl_witness :
  let st := drawing (VStr "uri") in
  let out := generateCompletion services "m1" "" 1%positive (Some 10%positive) st in
  (heap st !! 10%positive = Some (CArr [VRef 11%positive])
   /\ Forall (fun v => isTool (heap st) v = true) [VRef 11%positive]
   /\ imageUrlWithFormat (heap st) (VRef 11%positive))
  /\ exists cfg req sent patched tool' schema,
       ECreate cfg req ∈ trace (snd out)
       /\ rq_tools req = Some sent
       /\ heap st !! sent = None
       /\ heap (snd out) !! sent = Some (CArr patched)
       /\ patched !! 0%nat = Some tool'
       /\ tool' <> VRef 11%positive
       /\ objAt (heap st) (imageUrlOf (heap st) (VRef 11%positive)) = Some schema
       /\ objAt (heap (snd out)) (imageUrlOf (heap (snd out)) tool')
            = Some (delete "format" schema)
       /\ hasField (heap (snd out)) (imageUrlOf (heap (snd out)) tool') "format" = false
       /\ hasField (heap (snd out)) (imageUrlOf (heap (snd out)) (VRef 11%positive)) "format"
            = true.
Proof.
  intros st out.
  assert (Harr : heap st !! 10%positive = Some (CArr [VRef 11%positive])) by reflexivity.
  assert (Htools : Forall (fun v => isTool (heap st) v = true) [VRef 11%positive])
    by (repeat constructor).
  assert (Hw : imageUrlWithFormat (heap st) (VRef 11%positive))
    by (repeat split; vm_compute; reflexivity).
  split; [auto|].
  assert (Hne : "sk-1" <> "") by discriminate.
  exact (proj2 (C8_imageUrl_format_stripped_on_copy services "m1" "" 1%positive 10%positive st)
           [question] [VRef 11%positive] gpt "sk-1" _ _ 0%nat (VRef 11%positive)
           eq_refl Harr Htools eq_refl eq_refl Hne eq_refl Hw).
Defined.

End SchemaPatchExamples.

(** * Further properties *)

(** ** What a run adds to the trace *)

Section Emits.

Context {W : Type} (S : Services W) (Q : Event -> Prop).

Lemma emitsOnly_same {A} (m : M W A) :
  (forall st, trace (snd (m st)) = trace st) -> emitsOnly Q m.
Proof. intros H st. exists []. rewrite H, app_nil_r. auto. Qed.

Lemma emitsOnly_ret {A} (a : A) : emitsOnly Q (ret (W:=W) a).
Proof. now apply emitsOnly_same. Qed.

Lemma emitsOnly_throw {A} e : emitsOnly Q (throw (W:=W) (A:=A) e).
Proof. now apply emitsOnly_same. Qed.

Lemma emitsOnly_bind {A B} (m : M W A) (k : A -> M W B) :
  emitsOnly Q m -> (forall a, emitsOnly Q (k a)) -> emitsOnly Q (bind m k).
Proof.
  intros Hm Hk st. destruct (Hm st) as (evs & E & HQ). unfold bind.
  destruct (m st) as [[a|e] st1]; cbn [snd] in *.
  - destruct (Hk a st1) as (evs' & E' & HQ'). exists (evs ++ evs').
    rewrite E', E, app_assoc. split; [reflexivity | now apply Forall_app].
  - eauto.
Qed.

Lemma emitsOnly_try_catch {A} (m : M W A) (h : Thrown -> M W A) :
  emitsOnly Q m -> (forall e, emitsOnly Q (h e)) -> emitsOnly Q (try_catch m h).
Proof.
  intros Hm Hh st. destruct (Hm st) as (evs & E & HQ). unfold try_catch.
  destruct (m st) as [[a|e] st1]; cbn [snd] in *.
  - eauto.
  - destruct (Hh e st1) as (evs' & E' & HQ'). exists (evs ++ evs').
    rewrite E', E, app_assoc. split; [reflexivity | now apply Forall_app].
Qed.

Lemma emitsOnly_emit e : Q e -> emitsOnly Q (emit (W:=W) e).
Proof. intros H st. exists [e]. split; [reflexivity | now constructor]. Qed.

Lemma emitsOnly_log level message :
  Q (ELog level message) -> emitsOnly Q (log (W:=W) level message).
Proof. apply emitsOnly_emit. Qed.

Lemma emitsOnly_readCell l : emitsOnly Q (readCell (W:=W) l).
Proof. now apply emitsOnly_same. Qed.

Lemma emitsOnly_alloc c : emitsOnly Q (alloc (W:=W) c).
Proof. now apply emitsOnly_same. Qed.

Lemma emitsOnly_writeCell l c : emitsOnly Q (writeCell (W:=W) l c).
Proof. now apply emitsOnly_same. Qed.

Lemma emitsOnly_uuidv4 : emitsOnly Q (uuidv4 S).
Proof.
  apply emitsOnly_same. intros st. unfold uuidv4. now destruct (svc_uuidv4 S (world st)).
Qed.

Lemma emitsOnly_Date_now : emitsOnly Q (Date_now S).
Proof.
  apply emitsOnly_same. intros st. unfold Date_now. now destruct (svc_now S (world st)).
Qed.

Lemma emitsOnly_parseJson text : emitsOnly Q (parseJson S text).
Proof. now apply emitsOnly_same. Qed.

Lemma emitsOnly_getModel modelId : Q (EGetModel modelId) -> emitsOnly Q (getModel S modelId).
Proof.
  intros H st. exists [EGetModel modelId]. unfold getModel.
  destruct (svc_getModel S modelId (world st)). split; [reflexivity | now constructor].
Qed.

Lemma emitsOnly_resolveAndDecryptApiKey ref :
  Q (EResolveKey ref) -> emitsOnly Q (resolveAndDecryptApiKey S ref).
Proof.
  intros H st. exists [EResolveKey ref]. unfold resolveAndDecryptApiKey.
  destruct (svc_resolveAndDecryptApiKey S ref (world st)).
  split; [reflexivity | now constructor].
Qed.

Lemma emitsOnly_create cfg req : Q (ECreate cfg req) -> emitsOnly Q (create S cfg req).
Proof.
  intros H st. exists [ECreate cfg req]. unfold create.
  destruct (svc_create S cfg req (heap st) (world st)).
  split; [reflexivity | now constructor].
Qed.

Lemma emitsOnly_callTool serverName toolName args :
  Q (ECallTool serverName toolName args) -> emitsOnly Q (callTool S serverName toolName args).
Proof.
  intros H st. exists [ECallTool serverName toolName args]. unfold callTool.
  destruct (svc_callTool S serverName toolName args (world st)).
  split; [reflexivity | now constructor].
Qed.

Lemma emitsOnly_mapM {A B} (f : A -> M W B) (l : list A) :
  (forall a, emitsOnly Q (f a)) -> emitsOnly Q (mapM f l).
Proof.
  intros Hf. induction l as [|a l IH]; cbn [mapM].
  - apply emitsOnly_ret.
  - apply emitsOnly_bind; [apply Hf|]. intros b.
    apply emitsOnly_bind; [apply IH|]. intros bs. apply emitsOnly_ret.
Qed.

Lemma emitsOnly_forOf {A Acc} (body : A -> Acc -> M W Acc) (l : list A) :
  (forall a acc, emitsOnly Q (body a acc)) -> forall acc, emitsOnly Q (forOf body l acc).
Proof.
  intros Hf. induction l as [|a l IH]; intros acc; cbn [forOf].
  - apply emitsOnly_ret.
  - apply emitsOnly_bind; [apply Hf|]. intros acc'. apply IH.
Qed.

End Emits.

Ltac emits_leaf :=
  first
    [ apply emitsOnly_ret | apply emitsOnly_throw | apply emitsOnly_readCell
    | apply emitsOnly_alloc | apply emitsOnly_writeCell | apply emitsOnly_uuidv4
    | apply emitsOnly_Date_now | apply emitsOnly_parseJson
    | apply emitsOnly_log; exact I
    | apply emitsOnly_getModel; exact I
    | apply emitsOnly_resolveAndDecryptApiKey; exact I
    | apply emitsOnly_create; exact I
    | apply emitsOnly_callTool; exact I ].

Ltac emits_step :=
  lazymatch goal with
  | |- emitsOnly _ (bind _ _) => apply emitsOnly_bind; [ | intros ? ]
  | |- emitsOnly _ (try_catch _ _) => apply emitsOnly_try_catch; [ | intros ? ]
  | |- emitsOnly _ (mapM _ _) => apply emitsOnly_mapM; intros ?
  | |- emitsOnly _ (forOf _ _ _) => apply emitsOnly_forOf; intros ? ?
  | |- emitsOnly _ (match ?x with _ => _ end) => destruct x
  | |- emitsOnly _ _ => emits_leaf
  end.

Ltac emits :=
  unfold callModel, callModelPrelude, lookupDisplayNames, appendAssistant, extractToolCall,
    generateCompletion, requestCompletion, completionResult, embeddedError, completionFailed,
    requestTools, patchTools, patchTool, hasParameterProperties, isStringWithFormat,
    withoutFormat, deleteField, setField, updateObj, spread, getField, readArray,
    copyMessages, pushMessage, readMessages, processToolCalls, processToolCall;
  cbv zeta; repeat emits_step.

(** ** Who is asked, and how often *)

Section Collaborators.

Context {W : Type} (S : Services W).

Lemma requests_app t1 t2 : requests (t1 ++ t2) = requests t1 ++ requests t2.
Proof. apply omap_app. Qed.

Lemma mcpCalls_app t1 t2 : mcpCalls (t1 ++ t2) = mcpCalls t1 ++ mcpCalls t2.
Proof. apply omap_app. Qed.

Lemma requests_none evs : Forall notRequest evs -> requests evs = [].
Proof.
  induction 1 as [|e evs He _ IH]; [reflexivity|].
  unfold requests in *. cbn. rewrite IH. now destruct e.
Qed.

Lemma mcpCalls_none evs : Forall notMcpCall evs -> mcpCalls evs = [].
Proof.
  induction 1 as [|e evs He _ IH]; [reflexivity|].
  unfold mcpCalls in *. cbn. rewrite IH. now destruct e.
Qed.

Lemma quiet_requests {A} (m : M W A) st :
  emitsOnly notRequest m -> requests (trace (snd (m st))) = requests (trace st).
Proof.
  intros H. destruct (H st) as (evs & -> & HQ).
  now rewrite requests_app, (requests_none _ HQ), app_nil_r.
Qed.

Lemma logOrMcpCall_notRequest evs : Forall logOrMcpCall evs -> Forall notRequest evs.
Proof. intros H. eapply Forall_impl; [exact H|]. now intros []. Qed.

Lemma callModel_emits input : emitsOnly notMcpCall (callModel S input).
Proof. emits. Qed.

Lemma processToolCalls_emits toolCalls : emitsOnly logOrMcpCall (processToolCalls S toolCalls).
Proof. emits. Qed.

(** *** At most one request *)

Lemma atMostOne_quiet {A} (m : M W A) : emitsOnly notRequest m -> atMostOneRequest m.
Proof. intros H st. left. now apply quiet_requests. Qed.

Lemma atMostOne_bind_quiet {A B} (m : M W A) (k : A -> M W B) :
  emitsOnly notRequest m -> (forall a, atMostOneRequest (k a)) -> atMostOneRequest (bind m k).
Proof.
  intros Hm Hk st. pose proof (quiet_requests m st Hm) as E. unfold bind.
  destruct (m st) as [[a|e] st1]; cbn [snd] in *.
  - rewrite <- E. apply Hk.
  - now left.
Qed.

Lemma atMostOne_then_quiet {A B} (m : M W A) (k : A -> M W B) :
  atMostOneRequest m -> (forall a, emitsOnly notRequest (k a)) -> atMostOneRequest (bind m k).
Proof.
  intros Hm Hk st. specialize (Hm st). unfold bind.
  destruct (m st) as [[a|e] st1]; cbn [snd] in *.
  - now rewrite (quiet_requests (k a) st1 (Hk a)).
  - exact Hm.
Qed.

Lemma atMostOne_try_catch {A} (m : M W A) (h : Thrown -> M W A) :
  atMostOneRequest m -> (forall e, emitsOnly notRequest (h e)) ->
  atMostOneRequest (try_catch m h).
Proof.
  intros Hm Hh st. specialize (Hm st). unfold try_catch.
  destruct (m st) as [[a|e] st1]; cbn [snd] in *.
  - exact Hm.
  - now rewrite (quiet_requests (h e) st1 (Hh e)).
Qed.

Lemma atMostOne_create cfg req : atMostOneRequest (create S cfg req).
Proof.
  intros st. right. exists cfg, req. unfold create.
  destruct (svc_create S cfg req (heap st) (world st)). cbn [snd trace].
  now rewrite requests_app.
Qed.

Lemma completionResult_quiet modelId messages chatCompletion :
  emitsOnly notRequest (completionResult S modelId messages chatCompletion).
Proof. emits. Qed.

Lemma completionFailed_quiet modelId error :
  emitsOnly notRequest (completionFailed (W:=W) modelId error).
Proof. emits. Qed.

Lemma requestTools_quiet tools : emitsOnly notRequest (requestTools (W:=W) tools).
Proof. emits. Qed.

Lemma requestCompletion_atMostOne modelId messages tools model key :
  atMostOneRequest (requestCompletion S modelId messages tools model key).
Proof.
  unfold requestCompletion. cbv zeta.
  repeat (apply atMostOne_bind_quiet;
          [solve [apply requestTools_quiet | emits] | intros ?]).
  apply atMostOne_then_quiet; [apply atMostOne_create | intros cc; apply completionResult_quiet].
Qed.

Lemma generateCompletion_atMostOne modelId prompt messages tools :
  atMostOneRequest (generateCompletion S modelId prompt messages tools).
Proof.
  unfold generateCompletion.
  apply atMostOne_bind_quiet; [emits | intros _].
  apply atMostOne_try_catch; [|apply completionFailed_quiet].
  apply atMostOne_bind_quiet; [emits | intros [model|]]; [|apply atMostOne_quiet; emits].
  apply atMostOne_bind_quiet; [emits | intros [key|]]; [|apply atMostOne_quiet; emits].
  destruct (String.eqb key ""); [apply atMostOne_quiet; emits|].
  apply requestCompletion_atMostOne.
Qed.

(** X1. [callModel] performs a single API call: whatever its input and
    whatever the collaborators answer, the completion requests in the trace
    after it are those before it, or those and one more. *)
Theorem X1_callModel_single_request input : atMostOneRequest (callModel S input).
Proof.
  unfold callModel.
  apply atMostOne_bind_quiet; [emits | intros names].
  apply atMostOne_then_quiet; [apply generateCompletion_atMostOne|].
  intros [v|e]; emits.
Qed.

(** X2. [callModel] does not execute tools: the trace only grows while it
    runs, and by no call to the MCP service; the MCP calls recorded after it
    are those recorded before it. *)
Theorem X2_callModel_calls_no_tool input st :
  emitsOnly notMcpCall (callModel S input)
  /\ mcpCalls (trace (snd (callModel S input st))) = mcpCalls (trace st).
Proof.
  split; [apply callModel_emits|].
  destruct (callModel_emits input st) as (evs & -> & HQ).
  now rewrite mcpCalls_app, (mcpCalls_none _ HQ), app_nil_r.
Qed.

End Collaborators.

(** ** The tool-schema patch, cell by cell *)

Section PatchCopies.

Context {W : Type}.

Lemma field_cell h l props k :
  h !! l = Some (CObj props) -> field h (VRef l) k = default VUndefined (props !! k).
Proof. intros Hl. unfold field. cbn. now rewrite Hl. Qed.

Lemma field_insert_ne h l props k k' v :
  h !! l = Some (CObj (<[k := v]> props)) -> k' <> k ->
  field h (VRef l) k' = default VUndefined (props !! k').
Proof. intros Hl Hk. rewrite (field_cell _ _ _ _ Hl). now rewrite lookup_insert_ne. Qed.

(** The copy made for a tool that passes both guards: the five objects on
    the way from the tool to its [imageUrl] schema, and the five new ones. *)
Lemma patchTool_copies (st : State W) l :
  isTool (heap st) (VRef l) = true ->
  needsPatch (heap st) (VRef l) = true ->
  exists f p q u pt pf pp pq pu l1 l2 l3 l4 l5 h',
    patchTool (VRef l) st = (Returns (VRef l5), mkState h' (world st) (trace st))
    /\ heap st ⊆ h'
    /\ heap st !! l5 = None
    /\ (heap st !! l = Some (CObj pt) /\ pt !! "function" = Some (VRef f))
    /\ (heap st !! f = Some (CObj pf) /\ pf !! "parameters" = Some (VRef p))
    /\ (heap st !! p = Some (CObj pp) /\ pp !! "properties" = Some (VRef q))
    /\ (heap st !! q = Some (CObj pq) /\ pq !! "imageUrl" = Some (VRef u))
    /\ heap st !! u = Some (CObj pu)
    /\ h' !! l5 = Some (CObj (<["function" := VRef l4]> pt))
    /\ h' !! l4 = Some (CObj (<["parameters" := VRef l1]> pf))
    /\ h' !! l1 = Some (CObj (<["properties" := VRef l2]> pp))
    /\ h' !! l2 = Some (CObj (<["imageUrl" := VRef l3]> pq))
    /\ h' !! l3 = Some (CObj (delete "format" pu)).
Proof.
  intros Htool Hneeds.
  pose proof (keeps_patchTool (W:=W) (heap st) (VRef l) st (reflexivity _)) as [Hkeep _].
  revert Hkeep. unfold patchTool. unfold needsPatch in Hneeds.
  apply andb_prop in Hneeds as [G1 G2].
  rewrite (bind_returns _ _ _ _ _ (hasParameterProperties_run st l Htool)). rewrite G1.
  unfold functionToolWithProperties in G1.
  apply andb_prop in G1 as [Htype G1]. apply andb_prop in G1 as [Hparams Hprops].
  destruct (truthy_object_ref _ Hparams) as [p Hp].
  rewrite Hp in Hprops. destruct (truthy_object_ref _ Hprops) as [q Hq].
  destruct (field_ref_cell _ _ _ _ Hp) as (f & pf & Hfn & Hf & Hpf).
  rewrite (bind_returns _ _ _ _ _ (getField_ref st l "function")). rewrite Hfn.
  rewrite (bind_returns _ _ _ _ _ (getField_ref st f "parameters")). rewrite <- Hfn, Hp.
  rewrite (bind_returns _ _ _ _ _ (getField_ref st p "properties")). rewrite Hq.
  rewrite (bind_returns _ _ _ _ _ (getField_ref st q "imageUrl")).
  rewrite (bind_returns _ _ _ _ _ (isStringWithFormat_run st _)).
  assert (Himg : imageUrlOf (heap st) (VRef l) = field (heap st) (VRef q) "imageUrl").
  { unfold imageUrlOf, path. cbn [fold_left]. now rewrite Hp, Hq. }
  rewrite Himg in G2. rewrite G2.
  unfold stringWithFormat in G2.
  apply andb_prop in G2 as [G2 Hformat]. apply andb_prop in G2 as [Hu Hstring].
  destruct (truthy_object_ref _ Hu) as [u Hu'].
  rewrite Hu' in *.
  apply is_str_eq in Htype, Hstring.
  destruct (field_ref_cell _ _ _ _ Hfn) as (l0 & pt & [= <-] & Ht & Hpt).
  destruct (field_ref_cell _ _ _ _ Hq) as (p0 & pp & [= <-] & Hpcell & Hpp).
  destruct (field_ref_cell _ _ _ _ Hu') as (q0 & pq & [= <-] & Hqcell & Hpq).
  destruct (field_defined (heap st) (VRef u) "type") as (pu & Hobju & _); [congruence|].
  destruct (objAt_ref _ _ _ Hobju) as (u0 & [= <-] & Hucell).
  destruct (withoutFormat_run st l f p q u pt pf pp pq pu Ht Hf Hpcell Hqcell Hucell)
    as (l1 & l2 & l3 & l4 & l5 & h' & Hrun & H5 & H4 & H1 & H2 & H3 & Hnew).
  rewrite Hfn, Hrun. cbn [snd heap]. intros Hkeep.
  exists f, p, q, u, pt, pf, pp, pq, pu, l1, l2, l3, l4, l5, h'.
  repeat split; assumption.
Qed.

(** X3. The patch takes nothing but [format] away.  For a tool that
    passes both guards, the callback of [tools.map] returns a new tool and
    changes no cell that was there; the new tool, its [function], its
    [parameters], its [properties] and its [imageUrl] schema agree with the
    caller's on every property except the one that leads on to the next
    copy ([function], [parameters], [properties], [imageUrl]) and, for the
    schema, [format], which the new schema does not have. *)
Theorem X3_patch_removes_only_format (st : State W) tool :
  isTool (heap st) tool = true ->
  needsPatch (heap st) tool = true ->
  exists tool' st',
    patchTool tool st = (Returns tool', st')
    /\ heap st ⊆ heap st'
    /\ sameBut (heap st) (heap st') tool tool' "function"
    /\ sameBut (heap st) (heap st')
         (path (heap st) tool ["function"]) (path (heap st') tool' ["function"]) "parameters"
    /\ sameBut (heap st) (heap st')
         (path (heap st) tool ["function"; "parameters"])
         (path (heap st') tool' ["function"; "parameters"]) "properties"
    /\ sameBut (heap st) (heap st')
         (path (heap st) tool ["function"; "parameters"; "properties"])
         (path (heap st') tool' ["function"; "parameters"; "properties"]) "imageUrl"
    /\ sameBut (heap st) (heap st') (imageUrlOf (heap st) tool) (imageUrlOf (heap st') tool')
         "format"
    /\ hasField (heap st') (imageUrlOf (heap st') tool') "format" = false.
Proof.
  intros Htool Hneeds. destruct (isTool_ref _ _ Htool) as [l ->].
  destruct (patchTool_copies st l Htool Hneeds)
    as (f & p & q & u & pt & pf & pp & pq & pu & l1 & l2 & l3 & l4 & l5 & h'
        & Hrun & Hsub & Hnew & [Ht Hpt] & [Hf Hpf] & [Hp Hpp] & [Hq Hpq] & Hu
        & H5 & H4 & H1 & H2 & H3).
  exists (VRef l5), (mkState h' (world st) (trace st)).
  split; [exact Hrun|]. cbn [heap]. split; [exact Hsub|].
  assert (P1 : path (heap st) (VRef l) ["function"] = VRef f)
    by (cbn; now rewrite (field_cell _ _ _ _ Ht), Hpt).
  assert (P2 : path (heap st) (VRef l) ["function"; "parameters"] = VRef p).
  { change (field (heap st) (path (heap st) (VRef l) ["function"]) "parameters" = VRef p).
    now rewrite P1, (field_cell _ _ _ _ Hf), Hpf. }
  assert (P3 : path (heap st) (VRef l) ["function"; "parameters"; "properties"] = VRef q).
  { change (field (heap st) (path (heap st) (VRef l) ["function"; "parameters"]) "properties"
            = VRef q).
    now rewrite P2, (field_cell _ _ _ _ Hp), Hpp. }
  assert (P4 : imageUrlOf (heap st) (VRef l) = VRef u).
  { change (field (heap st) (path (heap st) (VRef l) ["function"; "parameters"; "properties"])
              "imageUrl" = VRef u).
    now rewrite P3, (field_cell _ _ _ _ Hq), Hpq. }
  assert (Q1 : path h' (VRef l5) ["function"] = VRef l4)
    by (cbn; now rewrite (field_cell _ _ _ _ H5), lookup_insert_eq).
  assert (Q2 : path h' (VRef l5) ["function"; "parameters"] = VRef l1).
  { change (field h' (path h' (VRef l5) ["function"]) "parameters" = VRef l1).
    now rewrite Q1, (field_cell _ _ _ _ H4), lookup_insert_eq. }
  assert (Q3 : path h' (VRef l5) ["function"; "parameters"; "properties"] = VRef l2).
  { change (field h' (path h' (VRef l5) ["function"; "parameters"]) "properties" = VRef l2).
    now rewrite Q2, (field_cell _ _ _ _ H1), lookup_insert_eq. }
  assert (Q4 : imageUrlOf h' (VRef l5) = VRef l3).
  { change (field h' (path h' (VRef l5) ["function"; "parameters"; "properties"]) "imageUrl"
            = VRef l3).
    now rewrite Q3, (field_cell _ _ _ _ H2), lookup_insert_eq. }
  rewrite P1, P2, P3, P4, Q1, Q2, Q3, Q4.
  repeat split.
  - intros k Hk. now rewrite (field_insert_ne _ _ _ _ _ _ H5 Hk), (field_cell _ _ _ _ Ht).
  - intros k Hk. now rewrite (field_insert_ne _ _ _ _ _ _ H4 Hk), (field_cell _ _ _ _ Hf).
  - intros k Hk. now rewrite (field_insert_ne _ _ _ _ _ _ H1 Hk), (field_cell _ _ _ _ Hp).
  - intros k Hk. now rewrite (field_insert_ne _ _ _ _ _ _ H2 Hk), (field_cell _ _ _ _ Hq).
  - intros k Hk. rewrite (field_cell _ _ _ _ H3), (field_cell _ _ _ _ Hu).
    now rewrite lookup_delete_ne.
  - unfold hasField. cbn. rewrite H3. apply bool_decide_eq_false.
    rewrite lookup_delete_eq. now intros [x Hx].
Qed.

(** X4. A patched tool needs no patch.  The tool the callback returns
    for a tool that passes both guards is another object than the
    caller's; it does not pass the guards any more, and the callback
    applied to it returns it as it is and changes nothing. *)
Theorem X4_patched_tool_needs_no_patch (st : State W) tool :
  isTool (heap st) tool = true ->
  needsPatch (heap st) tool = true ->
  exists tool' st',
    patchTool tool st = (Returns tool', st')
    /\ tool' <> tool
    /\ needsPatch (heap st') tool' = false
    /\ patchTool tool' st' = (Returns tool', st').
Proof.
  intros Htool Hneeds. destruct (isTool_ref _ _ Htool) as [l ->].
  destruct (patchTool_copies st l Htool Hneeds)
    as (f & p & q & u & pt & pf & pp & pq & pu & l1 & l2 & l3 & l4 & l5 & h'
        & Hrun & Hsub & Hnew & [Ht Hpt] & _ & _ & _ & _ & H5 & H4 & H1 & H2 & H3).
  exists (VRef l5), (mkState h' (world st) (trace st)).
  split; [exact Hrun|]. split; [intros [= ->]; congruence|].
  assert (Hno : needsPatch h' (VRef l5) = false).
  { assert (Hs : stringWithFormat h' (imageUrlOf h' (VRef l5)) = false).
    { unfold stringWithFormat, imageUrlOf, path. cbn [fold_left].
      rewrite (field_cell _ _ _ "function" H5), lookup_insert_eq. cbv [from_option id].
      rewrite (field_cell _ _ _ "parameters" H4), lookup_insert_eq. cbv [from_option id].
      rewrite (field_cell _ _ _ "properties" H1), lookup_insert_eq. cbv [from_option id].
      rewrite (field_cell _ _ _ "imageUrl" H2), lookup_insert_eq. cbv [from_option id].
      rewrite (field_cell _ _ _ "format" H3), lookup_delete_eq. cbv [from_option id truthy].
      now rewrite !andb_false_r. }
    unfold needsPatch. rewrite Hs. apply andb_false_r. }
  split; [exact Hno|].
  assert (Htool' : isTool h' (VRef l5) = true).
  { unfold isTool. rewrite (field_cell _ _ _ "function" H5), lookup_insert_eq.
    cbv [from_option id]. apply bool_decide_eq_true. cbn. rewrite H4. eauto. }
  destruct (patchTool_run (mkState h' (world st) (trace st)) l5 Htool')
    as [[_ Hsame] | [Hyes _]]; [exact Hsame|].
  cbn [heap] in Hyes. congruence.
Qed.

(** Tools that do not pass the guards are mapped to themselves. *)
Lemma mapM_patchTool_unpatched elems (st : State W) :
  Forall (fun v => isTool (heap st) v = true) elems ->
  Forall (fun v => needsPatch (heap st) v = false) elems ->
  mapM patchTool elems st = (Returns elems, st).
Proof.
  induction elems as [|v rest IH]; intros Htools Hno; [reflexivity|].
  apply Forall_cons in Htools as [Hv Hrest]. apply Forall_cons in Hno as [Hn Hnrest].
  destruct (isTool_ref _ _ Hv) as [l ->].
  destruct (patchTool_run st l Hv) as [[_ Hsame] | [Hyes _]]; [|congruence].
  cbn [mapM]. rewrite (bind_returns _ _ _ _ _ Hsame).
  now rewrite (bind_returns _ _ _ _ _ (IH Hrest Hnrest)).
Qed.

Lemma requestTools_unpatched (st : State W) t elems :
  heap st !! t = Some (CArr elems) ->
  elems <> [] ->
  Forall (fun v => isTool (heap st) v = true) elems ->
  Forall (fun v => needsPatch (heap st) v = false) elems ->
  requestTools (Some t) st
  = (Returns (Some (fresh (dom (heap st)))),
     mkState (<[fresh (dom (heap st)) := CArr elems]> (heap st)) (world st) (trace st)).
Proof.
  intros Ht Hne Htools Hno.
  unfold requestTools, readArray, readCell. unfold bind at 1. unfold bind at 1. cbn.
  rewrite Ht. cbn. destruct elems as [|v rest]; [congruence|].
  unfold patchTools. unfold bind at 1. unfold bind at 1.
  now rewrite (mapM_patchTool_unpatched _ _ Htools Hno).
Qed.

Lemma requestTools_noTools tools (st : State W) :
  noTools (heap st) tools -> requestTools tools st = (Returns None, st).
Proof.
  intros [-> | (l & -> & Hl)]; [reflexivity|].
  unfold requestTools, readArray, readCell, bind. cbn. now rewrite Hl.
Qed.

End PatchCopies.

(** ** The completion call, path by path *)

Section Completion.

Context {W : Type} (S : Services W).

Lemma completionFailed_run modelId error (st : State W) :
  exists evs,
    completionFailed modelId error st
      = (Returns (Failure (classified modelId error)),
         mkState (heap st) (world st) (trace st ++ evs))
    /\ Forall isLog evs.
Proof.
  unfold completionFailed, classified, bind, log, emit, ret.
  destruct error; simpl;
    (eexists; split; [rewrite <- ?app_assoc; reflexivity | repeat constructor]).
Qed.

Lemma create_run cfg req (st : State W) r w :
  svc_create S cfg req (heap st) (world st) = (r, w) ->
  create S cfg req st = (r, mkState (heap st) w (trace st ++ [ECreate cfg req])).
Proof. intros H. unfold create. now rewrite H. Qed.

(** Up to the request: with the model and a key resolved and the
    transcript [T] at [messages], [generateCompletion] comes to the call of
    the client with the request made of the model, the key, [T] and the
    tools [sent] that [requestTools] returns, having made no request
    before. *)
Lemma generateCompletion_asks modelId prompt messages tools st T model key w1 w2 sent h' :
  heap st !! messages = Some (CMessages T) ->
  (forall (w : W) t,
      requestTools tools (mkState (heap st) w t) = (Returns sent, mkState h' w t)) ->
  svc_getModel S modelId (world st) = (Returns (Some model), w1) ->
  svc_resolveAndDecryptApiKey S (ApiKey model) w1 = (Returns (Some key), w2) ->
  key <> "" ->
  exists evs,
    generateCompletion S modelId prompt messages tools st
    = try_catch
        (chatCompletion <- create S (requestFor model key T sent).1
                             (requestFor model key T sent).2 ;;
         completionResult S modelId messages chatCompletion)
        (completionFailed modelId)
        (mkState h' w2 (trace st ++ evs))
    /\ Forall notRequest evs.
Proof.
  intros HT Htools Hmodel Hkey Hne.
  remember (generateCompletion S modelId prompt messages tools st) as out eqn:Hout.
  unfold generateCompletion in Hout. unfold bind at 1 in Hout. cbn [log emit fst snd] in Hout.
  match type of Hout with context [try_catch _ _ ?s] =>
    rewrite (try_catch_bind _ _ _ _ _ _ (getModel_run S modelId s _ _ Hmodel)) in Hout
  end.
  cbn iota beta in Hout.
  match type of Hout with context [try_catch _ _ ?s] =>
    rewrite (try_catch_bind _ _ _ _ _ _
               (resolveAndDecryptApiKey_run S (ApiKey model) s _ _ Hkey)) in Hout
  end.
  cbn iota beta in Hout. apply String.eqb_neq in Hne. rewrite Hne in Hout.
  unfold requestCompletion in Hout.
  rewrite !try_catch_log in Hout. cbn [heap world trace] in Hout.
  match type of Hout with context [try_catch _ _ ?s] =>
    rewrite (try_catch_bind _ _ _ _ _ _ (readMessages_run s messages T HT)) in Hout
  end.
  rewrite (try_catch_bind _ _ _ _ _ _ (Htools _ _)) in Hout.
  rewrite !try_catch_log in Hout. cbn [heap world trace] in Hout.
  rewrite <- !app_assoc in Hout. cbn [app] in Hout.
  eexists. split; [exact Hout|]. repeat constructor.
Qed.

Lemma generateCompletion_asks_noTools modelId prompt messages tools st T model key w1 w2 :
  heap st !! messages = Some (CMessages T) ->
  noTools (heap st) tools ->
  svc_getModel S modelId (world st) = (Returns (Some model), w1) ->
  svc_resolveAndDecryptApiKey S (ApiKey model) w1 = (Returns (Some key), w2) ->
  key <> "" ->
  exists evs,
    generateCompletion S modelId prompt messages tools st
    = try_catch
        (chatCompletion <- create S (requestFor model key T None).1
                             (requestFor model key T None).2 ;;
         completionResult S modelId messages chatCompletion)
        (completionFailed modelId)
        (mkState (heap st) w2 (trace st ++ evs))
    /\ Forall notRequest evs.
Proof.
  intros HT Hno. apply generateCompletion_asks; [exact HT|].
  intros w t. now apply (requestTools_noTools tools (mkState (heap st) w t)).
Qed.

(** Once the client is called, the request is the one more request of the
    run, whatever the client answers. *)
Lemma create_then_requests cfg req modelId messages (st : State W) :
  requests (trace (snd (try_catch
                          (chatCompletion <- create S cfg req ;;
                           completionResult S modelId messages chatCompletion)
                          (completionFailed modelId) st)))
  = requests (trace st) ++ [(cfg, req)].
Proof.
  unfold try_catch, bind, create.
  destruct (svc_create S cfg req (heap st) (world st)) as [[cc|e] w].
  - set (st1 := mkState (heap st) w (trace st ++ [ECreate cfg req])).
    pose proof (quiet_requests (completionResult S modelId messages cc) st1
                  (completionResult_quiet S modelId messages cc)) as Hq.
    destruct (completionResult S modelId messages cc st1) as [[r|e] st2]; cbn [snd] in *.
    + rewrite Hq. subst st1. cbn [trace]. now rewrite requests_app.
    + rewrite (quiet_requests (completionFailed modelId e) st2 (completionFailed_quiet modelId e)).
      rewrite Hq. subst st1. cbn [trace]. now rewrite requests_app.
  - set (st1 := mkState (heap st) w (trace st ++ [ECreate cfg req])).
    rewrite (quiet_requests (completionFailed modelId e) st1 (completionFailed_quiet modelId e)).
    subst st1. cbn [trace]. now rewrite requests_app.
Qed.

(** X5. An unknown model is reported without asking anyone else.  When
    the catalog has no model for [modelId], [generateCompletion] returns
    the failure [model_not_found] with the message [Model not found: <id>];
    all it has done is one log line and the catalog lookup: no key is
    resolved, no request is made, the heap is untouched. *)
Theorem X5_unknown_model_asks_no_one modelId prompt messages tools st w1 :
  svc_getModel S modelId (world st) = (Returns None, w1) ->
  generateCompletion S modelId prompt messages tools st
  = (Returns (Failure (createModelError "model_not_found" ("Model not found: " +:+ modelId)
                         modelId)),
     mkState (heap st) w1
       (trace st ++ [ELog Verbose "generateCompletion input"; EGetModel modelId])).
Proof.
  intros Hmodel. unfold generateCompletion. unfold bind at 1. cbn [log emit fst snd].
  match goal with |- context [try_catch _ _ ?s] =>
    rewrite (try_catch_bind _ _ _ _ _ _ (getModel_run S modelId s _ _ Hmodel))
  end.
  cbn. now rewrite <- app_assoc.
Qed.

(** X6. Without a key no request is made.  When the credential resolver
    returns nothing, or the empty string, for the model's key reference,
    [generateCompletion] returns the failure [api_key_error]; all it has
    done is one log line, the catalog lookup and the key resolution: the
    client is not called. *)
Theorem X6_missing_key_makes_no_request modelId prompt messages tools st model k w1 w2 :
  svc_getModel S modelId (world st) = (Returns (Some model), w1) ->
  svc_resolveAndDecryptApiKey S (ApiKey model) w1 = (Returns k, w2) ->
  k = None \/ k = Some "" ->
  generateCompletion S modelId prompt messages tools st
  = (Returns (Failure (createModelError "api_key_error" "Failed to resolve or decrypt API key"
                         modelId)),
     mkState (heap st) w2
       (trace st ++ [ELog Verbose "generateCompletion input"; EGetModel modelId;
                     EResolveKey (ApiKey model)])).
Proof.
  intros Hmodel Hkey Hk. unfold generateCompletion. unfold bind at 1. cbn [log emit fst snd].
  match goal with |- context [try_catch _ _ ?s] =>
    rewrite (try_catch_bind _ _ _ _ _ _ (getModel_run S modelId s _ _ Hmodel))
  end.
  cbn iota beta.
  match goal with |- context [try_catch _ _ ?s] =>
    rewrite (try_catch_bind _ _ _ _ _ _
               (resolveAndDecryptApiKey_run S (ApiKey model) s _ _ Hkey))
  end.
  destruct Hk as [-> | ->]; cbn; now rewrite <- !app_assoc.
Qed.

(** X7. What a collaborator throws comes back as a failure.  When the
    catalog, the credential resolver or the client throws [e],
    [generateCompletion] does not throw: it returns the failure
    [classified modelId e], which is [api_error] with the error's message
    for an [OpenAI.APIError], and [unknown_error] with the message of the
    error, or [String(e)] for a value that is no [Error], otherwise. *)
Theorem X7_thrown_value_classified modelId prompt messages tools st e :
  (exists w1, svc_getModel S modelId (world st) = (Throws e, w1))
  \/ (exists model w1 w2,
         svc_getModel S modelId (world st) = (Returns (Some model), w1)
         /\ svc_resolveAndDecryptApiKey S (ApiKey model) w1 = (Throws e, w2))
  \/ (exists T model key w1 w2 w3,
         heap st !! messages = Some (CMessages T)
         /\ noTools (heap st) tools
         /\ svc_getModel S modelId (world st) = (Returns (Some model), w1)
         /\ svc_resolveAndDecryptApiKey S (ApiKey model) w1 = (Returns (Some key), w2)
         /\ key <> ""
         /\ svc_create S (requestFor model key T None).1 (requestFor model key T None).2
              (heap st) w2 = (Throws e, w3)) ->
  fst (generateCompletion S modelId prompt messages tools st)
  = Returns (Failure (classified modelId e)).
Proof.
  intros [(w1 & Hmodel) | [(model & w1 & w2 & Hmodel & Hkey)
                          | (T & model & key & w1 & w2 & w3 & HT & Hno & Hmodel & Hkey & Hne & Hc)]].
  - unfold generateCompletion. unfold bind at 1. cbn [log emit fst snd].
    unfold try_catch at 1. unfold bind at 1.
    match goal with |- context [getModel S modelId ?s] =>
      rewrite (getModel_run S modelId s _ _ Hmodel)
    end.
    match goal with |- context [completionFailed modelId e ?s] =>
      destruct (completionFailed_run modelId e s) as (evs & -> & _)
    end.
    reflexivity.
  - unfold generateCompletion. unfold bind at 1. cbn [log emit fst snd].
    match goal with |- context [try_catch _ _ ?s] =>
      rewrite (try_catch_bind _ _ _ _ _ _ (getModel_run S modelId s _ _ Hmodel))
    end.
    cbn iota beta. unfold try_catch at 1. unfold bind at 1.
    match goal with |- context [resolveAndDecryptApiKey S _ ?s] =>
      rewrite (resolveAndDecryptApiKey_run S (ApiKey model) s _ _ Hkey)
    end.
    match goal with |- context [completionFailed modelId e ?s] =>
      destruct (completionFailed_run modelId e s) as (evs & -> & _)
    end.
    reflexivity.
  - destruct (generateCompletion_asks_noTools modelId prompt messages tools st T model key w1 w2
                HT Hno Hmodel Hkey Hne) as (evs & -> & _).
    unfold try_catch at 1. unfold bind at 1.
    match goal with |- context [create S ?cfg ?req ?s] =>
      rewrite (create_run cfg req s _ _ Hc)
    end.
    match goal with |- context [completionFailed modelId e ?s] =>
      destruct (completionFailed_run modelId e s) as (evs' & -> & _)
    end.
    reflexivity.
Qed.

(** X8. The request made when there are no tools.  With the model and a
    key resolved, and no array of tools or an empty one, the run of
    [generateCompletion] makes exactly one request, whatever the client
    answers: to the model's base URL with the resolved key, for the model's
    name, with one message per message of the transcript, in order, that
    has the same id, role, content, tool calls, tool call id and process
    node id and no timestamp, and with no [tools] parameter. *)
Theorem X8_request_without_tools modelId prompt messages tools st T model key w1 w2 :
  heap st !! messages = Some (CMessages T) ->
  noTools (heap st) tools ->
  svc_getModel S modelId (world st) = (Returns (Some model), w1) ->
  svc_resolveAndDecryptApiKey S (ApiKey model) w1 = (Returns (Some key), w2) ->
  key <> "" ->
  requests (trace (snd (generateCompletion S modelId prompt messages tools st)))
  = requests (trace st)
      ++ [({| apiKey := key; baseURL := baseUrl model |},
           {| rq_model := name model;
              rq_messages :=
                map (fun m => {| api_id := msg_id m;
                                 api_role := msg_role m;
                                 api_content := msg_content m;
                                 api_tool_calls := msg_tool_calls m;
                                 api_tool_call_id := msg_tool_call_id m;
                                 api_processNodeId := msg_processNodeId m |}) T;
              rq_temperature :=
                match temperature model with
                | Some t => if String.eqb t "" then TempDefault else TempParsed t
                | None => TempDefault
                end;
              rq_tools := None |})].
Proof.
  intros HT Hno Hmodel Hkey Hne.
  destruct (generateCompletion_asks_noTools modelId prompt messages tools st T model key w1 w2
              HT Hno Hmodel Hkey Hne) as (evs & -> & Hq).
  rewrite create_then_requests. cbn [trace].
  now rewrite requests_app, (requests_none _ Hq), app_nil_r.
Qed.

(** X9. Tools that need no patch are sent as they are.  When no tool of
    a non-empty array passes the guards of the patch, the one request of
    the run carries a new array that holds the caller's tool objects
    themselves, in order; no cell of the heap has changed. *)
Theorem X9_unpatched_tools_sent_as_they_are
    modelId prompt messages toolsLoc st T elems model key w1 w2 :
  heap st !! messages = Some (CMessages T) ->
  heap st !! toolsLoc = Some (CArr elems) ->
  elems <> [] ->
  Forall (fun v => isTool (heap st) v = true) elems ->
  Forall (fun v => needsPatch (heap st) v = false) elems ->
  svc_getModel S modelId (world st) = (Returns (Some model), w1) ->
  svc_resolveAndDecryptApiKey S (ApiKey model) w1 = (Returns (Some key), w2) ->
  key <> "" ->
  let out := generateCompletion S modelId prompt messages (Some toolsLoc) st in
  exists sent,
    requests (trace (snd out)) = requests (trace st) ++ [requestFor model key T (Some sent)]
    /\ heap st !! sent = None
    /\ heap (snd out) !! sent = Some (CArr elems)
    /\ heap st ⊆ heap (snd out).
Proof.
  intros HT Harr Hnil Htools Hno Hmodel Hkey Hne out. subst out.
  set (sent := fresh (dom (heap st))).
  destruct (generateCompletion_asks modelId prompt messages (Some toolsLoc) st T model key w1 w2
              (Some sent) (<[sent := CArr elems]> (heap st)) HT) as (evs & -> & Hq);
    [|exact Hmodel|exact Hkey|exact Hne|].
  { intros w t. apply (requestTools_unpatched (mkState (heap st) w t)); assumption. }
  assert (Hfresh : heap st !! sent = None) by apply not_elem_of_dom, is_fresh.
  exists sent. split; [|split; [exact Hfresh|]].
  - rewrite create_then_requests. cbn [trace].
    rewrite requests_app, (requests_none _ Hq), app_nil_r.
    now destruct (requestFor model key T (Some sent)).
  - match goal with |- context [try_catch _ _ ?s] =>
      destruct (create_recorded S (requestFor model key T (Some sent)).1
                  (requestFor model key T (Some sent)).2 modelId messages s) as [_ Hheap]
    end.
    cbn [heap] in Hheap. split.
    + apply (lookup_weaken _ _ _ _ (lookup_insert_eq _ _ _) Hheap).
    + etransitivity; [|exact Hheap]. now apply insert_subseteq.
Qed.

(** *** What is made of the answer *)

Lemma try_catch_fst {A} (m : M W A) h (st : State W) a :
  fst (m st) = Returns a -> fst (try_catch m h st) = Returns a.
Proof. unfold try_catch. destruct (m st) as [[x|e] st']; cbn; congruence. Qed.

Lemma embeddedError_fallback modelId errorObj (st : State W) :
  pe_metadata_raw errorObj = None
  \/ pe_metadata_raw errorObj = Some ""
  \/ (exists raw e, pe_metadata_raw errorObj = Some raw /\ JSON_parse S raw = Throws e) ->
  fst (embeddedError S modelId errorObj st)
  = Returns (Failure (createModelError "api_error"
               (str_or (pe_message errorObj)
                  "Provider returned an unspecified error in the response body.") modelId)).
Proof.
  intros H. unfold embeddedError, try_catch, bind, parseJson, log, emit, ret.
  destruct H as [-> | [-> | (raw & e & -> & Hp)]]; cbn; [reflexivity..|].
  destruct (String.eqb raw ""); cbn; [reflexivity|]. now rewrite Hp.
Qed.

Lemma embeddedError_nested modelId errorObj (st : State W) raw data m :
  pe_metadata_raw errorObj = Some raw ->
  raw <> "" ->
  JSON_parse S raw = Returns data ->
  json_get "message" (json_get "error" (Some data)) = Some (JStr m) ->
  m <> "" ->
  fst (embeddedError S modelId errorObj st)
  = Returns (Failure (createModelError "api_error" m modelId)).
Proof.
  intros Hraw Hne Hp Hm Hm'. unfold embeddedError, try_catch, bind, parseJson, log, emit, ret.
  rewrite Hraw, Hp. apply String.eqb_neq in Hne, Hm'. cbn -[json_get]. rewrite Hne.
  cbn -[json_get]. rewrite Hm. cbn. rewrite Hm'. reflexivity.
Qed.

Lemma completionResult_error modelId messages cc errorObj (st : State W) :
  cc_error cc = Some errorObj ->
  exists st1,
    fst (completionResult S modelId messages cc st) = fst (embeddedError S modelId errorObj st1).
Proof.
  intros H. unfold completionResult. rewrite H. unfold bind at 1 2. cbn [log emit].
  eexists. reflexivity.
Qed.

Section Answered.

(** The model and a key resolve, there are no tools, and the client
    answers the request with the body [cc]. *)
Variables (modelId prompt : string) (messages : loc) (tools : option loc) (st : State W).
Variables (T : list FlujoChatMessage) (model : ModelDescriptor) (key : string) (w1 w2 w3 : W).
Variable (cc : ChatCompletion).

Hypothesis HT : heap st !! messages = Some (CMessages T).
Hypothesis Hno : noTools (heap st) tools.
Hypothesis Hmodel : svc_getModel S modelId (world st) = (Returns (Some model), w1).
Hypothesis Hkey : svc_resolveAndDecryptApiKey S (ApiKey model) w1 = (Returns (Some key), w2).
Hypothesis Hne : key <> "".
Hypothesis Hcreate :
  svc_create S (requestFor model key T None).1 (requestFor model key T None).2 (heap st) w2
  = (Returns cc, w3).

Lemma generateCompletion_answered :
  exists evs,
    generateCompletion S modelId prompt messages tools st
    = try_catch (completionResult S modelId messages cc) (completionFailed modelId)
        (mkState (heap st) w3 (trace st ++ evs)).
Proof.
  destruct (generateCompletion_asks_noTools modelId prompt messages tools st T model key w1 w2
              HT Hno Hmodel Hkey Hne) as (evs & -> & _).
  rewrite (try_catch_bind _ _ _ _ _ _
             (create_run _ _ (mkState (heap st) w2 (trace st ++ evs)) _ _ Hcreate)).
  cbn [heap trace]. rewrite <- app_assoc. eauto.
Qed.

(** X13. The success of the completion call.  When the body has no error
    object and a first choice, [generateCompletion] returns a success: the
    content is the content of the first choice's message, or the empty
    string when there is none; [fullResponse] is the body as received;
    there are no extracted tool calls yet; [messages] is a new array that
    holds the transcript [T], and that new array is the only change to the
    heap. *)
Theorem X13_success_returns_copy_of_transcript choice rest :
  cc_error cc = None ->
  cc_choices cc = Some (choice :: rest) ->
  exists l st',
    generateCompletion S modelId prompt messages tools st
    = (Returns (Success {| mcr_content := choiceContent choice;
                           mcr_messages := l;
                           mcr_fullResponse := cc;
                           mcr_toolCalls := None |}), st')
    /\ heap st !! l = None
    /\ heap st' = <[l := CMessages T]> (heap st).
Proof.
  intros Herr Hch. destruct generateCompletion_answered as (evs & ->).
  exists (fresh (dom (heap st))). eexists. split; [|split].
  - apply try_catch_returns. unfold completionResult, firstChoice. rewrite Herr, Hch.
    unfold copyMessages, readMessages, readCell, alloc, bind, log, emit, ret. cbn.
    rewrite HT. cbn. reflexivity.
  - apply not_elem_of_dom, is_fresh.
  - reflexivity.
Qed.

End Answered.

Section AnsweredAny.

(** The model and a key resolve, [tools] is left out or is an array of
    tools, and the client answers whatever it is asked with the body
    [cc]. *)
Variables (modelId prompt : string) (messages : loc) (tools : option loc) (st : State W).
Variables (T : list FlujoChatMessage) (model : ModelDescriptor) (key : string) (w1 w2 w3 : W).
Variable (cc : ChatCompletion).

Hypothesis HT : heap st !! messages = Some (CMessages T).
Hypothesis Htools : toolsOrNone (heap st) tools.
Hypothesis Hmodel : svc_getModel S modelId (world st) = (Returns (Some model), w1).
Hypothesis Hkey : svc_resolveAndDecryptApiKey S (ApiKey model) w1 = (Returns (Some key), w2).
Hypothesis Hne : key <> "".
Hypothesis Hcreate : forall cfg req h, svc_create S cfg req h w2 = (Returns cc, w3).

Lemma requestTools_returns (s : State W) :
  toolsOrNone (heap s) tools ->
  exists sent h',
    requestTools tools s = (Returns sent, mkState h' (world s) (trace s)) /\ heap s ⊆ h'.
Proof.
  destruct tools as [t|]; cbn [toolsOrNone].
  - intros (elems & Harr & Hall). destruct elems as [|v rest].
    + exists None, (heap s). split; [|reflexivity].
      rewrite (requestTools_noTools (Some t) s); [now destruct s|].
      right. eauto.
    + destruct (requestTools_run s t (v :: rest) Harr) as (vs & h' & sent & Hrun & Hsub & Hnew & _);
        [discriminate | exact Hall |].
      exists (Some sent), (<[sent := CArr vs]> h'). split; [exact Hrun|].
      etransitivity; [exact Hsub|]. now apply insert_subseteq.
  - intros _. exists None, (heap s). split; [now destruct s | reflexivity].
Qed.

Lemma generateCompletion_answered_any :
  exists st4,
    generateCompletion S modelId prompt messages tools st
    = try_catch (completionResult S modelId messages cc) (completionFailed modelId) st4.
Proof.
  remember (generateCompletion S modelId prompt messages tools st) as out eqn:Hout.
  unfold generateCompletion in Hout. unfold bind at 1 in Hout. cbn [log emit fst snd] in Hout.
  match type of Hout with context [try_catch _ _ ?s] =>
    rewrite (try_catch_bind _ _ _ _ _ _ (getModel_run S modelId s _ _ Hmodel)) in Hout
  end.
  cbn iota beta in Hout.
  match type of Hout with context [try_catch _ _ ?s] =>
    rewrite (try_catch_bind _ _ _ _ _ _
               (resolveAndDecryptApiKey_run S (ApiKey model) s _ _ Hkey)) in Hout
  end.
  cbn iota beta in Hout. pose proof Hne as Hne'. apply String.eqb_neq in Hne'.
  rewrite Hne' in Hout.
  unfold requestCompletion in Hout.
  rewrite !try_catch_log in Hout. cbn [heap world trace] in Hout.
  match type of Hout with context [try_catch _ _ ?s] =>
    rewrite (try_catch_bind _ _ _ _ _ _ (readMessages_run s messages T HT)) in Hout
  end.
  match type of Hout with context [try_catch _ _ ?s] =>
    destruct (requestTools_returns s Htools) as (sent & h' & Hreq & _)
  end.
  rewrite (try_catch_bind _ _ _ _ _ _ Hreq) in Hout.
  rewrite !try_catch_log in Hout. cbn [heap world trace] in Hout.
  match type of Hout with context [create S ?cfg ?req] =>
    match type of Hout with context [try_catch _ _ ?s] =>
      rewrite (try_catch_bind _ _ _ _ _ _ (create_run cfg req s _ _ (Hcreate cfg req _))) in Hout
    end
  end.
  eauto.
Qed.

(** X10. An error object in the body makes the call an [api_error], and
    an unreadable [metadata.raw] does not get in the way.  With or without
    tools, when the body carries an error object, whatever its choices,
    and [metadata.raw] is
    absent, empty or not parsable, [generateCompletion] returns the failure
    [api_error] with the error object's own message, or the standard text
    when it has none; the parse error is caught on the spot and is not
    turned into an [unknown_error]. *)
Theorem X10_embedded_error_falls_back errorObj :
  cc_error cc = Some errorObj ->
  pe_metadata_raw errorObj = None
  \/ pe_metadata_raw errorObj = Some ""
  \/ (exists raw e, pe_metadata_raw errorObj = Some raw /\ JSON_parse S raw = Throws e) ->
  fst (generateCompletion S modelId prompt messages tools st)
  = Returns (Failure (createModelError "api_error"
               (str_or (pe_message errorObj)
                  "Provider returned an unspecified error in the response body.") modelId)).
Proof.
  intros Herr Hraw. destruct generateCompletion_answered_any as (st4 & ->).
  apply try_catch_fst.
  match goal with |- context [completionResult S modelId messages cc ?s] =>
    destruct (completionResult_error modelId messages cc errorObj s Herr) as (st1 & ->)
  end.
  now apply embeddedError_fallback.
Qed.

(** X11. The upstream message wins.  With or without tools, when the
    error object of the body carries a [metadata.raw] that parses to an
    object with a non-empty string at [error.message], that string is the
    message of the [api_error] failure, not the error object's own
    message. *)
Theorem X11_embedded_error_nested_message errorObj raw data m :
  cc_error cc = Some errorObj ->
  pe_metadata_raw errorObj = Some raw ->
  raw <> "" ->
  JSON_parse S raw = Returns data ->
  json_get "message" (json_get "error" (Some data)) = Some (JStr m) ->
  m <> "" ->
  fst (generateCompletion S modelId prompt messages tools st)
  = Returns (Failure (createModelError "api_error" m modelId)).
Proof.
  intros Herr Hraw Hr Hp Hm Hm'. destruct generateCompletion_answered_any as (st4 & ->).
  apply try_catch_fst.
  match goal with |- context [completionResult S modelId messages cc ?s] =>
    destruct (completionResult_error modelId messages cc errorObj s Herr) as (st1 & ->)
  end.
  now apply (embeddedError_nested _ _ _ raw data).
Qed.

(** X12. A body without a first choice is an [api_error].  With or
    without tools, when the body has no error object and its [choices] are
    absent or empty, [generateCompletion] returns the failure [api_error]
    with the message [Invalid response structure from API: Missing
    choices.] *)
Theorem X12_missing_choices :
  cc_error cc = None ->
  cc_choices cc = None \/ cc_choices cc = Some [] ->
  fst (generateCompletion S modelId prompt messages tools st)
  = Returns (Failure (createModelError "api_error"
               "Invalid response structure from API: Missing choices." modelId)).
Proof.
  intros Herr Hch. destruct generateCompletion_answered_any as (st4 & ->).
  apply try_catch_fst. unfold completionResult, firstChoice. rewrite Herr.
  destruct Hch as [-> | ->]; reflexivity.
Qed.

End AnsweredAny.

End Completion.

(** ** The failures of a model call *)

Section Returns.

Context {W : Type} (S : Services W).

Lemma returnsOnly_ret {A} (Q : A -> Prop) (a : A) : Q a -> returnsOnly Q (ret (W:=W) a).
Proof. intros H st x [= <-]. exact H. Qed.

Lemma returnsOnly_bind {A B} (Q : B -> Prop) (m : M W A) (k : A -> M W B) :
  (forall a, returnsOnly Q (k a)) -> returnsOnly Q (bind m k).
Proof.
  intros Hk st b. unfold bind. destruct (m st) as [[a|e] st1]; [apply Hk | discriminate].
Qed.

Lemma returnsOnly_try_catch {A} (Q : A -> Prop) (m : M W A) (h : Thrown -> M W A) :
  returnsOnly Q m -> (forall e, returnsOnly Q (h e)) -> returnsOnly Q (try_catch m h).
Proof.
  intros Hm Hh st a. unfold try_catch. specialize (Hm st).
  destruct (m st) as [[x|e] st1]; [apply Hm | apply Hh].
Qed.

Lemma modelFailure_kind kind message modelId :
  kind ∈ modelErrorKinds -> modelFailure modelId (createModelError kind message modelId).
Proof. intros H. repeat split. exact H. Qed.

Ltac returns_step :=
  lazymatch goal with
  | |- returnsOnly _ (bind _ _) => apply returnsOnly_bind; intros ?
  | |- returnsOnly _ (try_catch _ _) => apply returnsOnly_try_catch; [ | intros ? ]
  | |- returnsOnly _ (ret (Failure _)) =>
      apply returnsOnly_ret; intros ? [= <-]; apply modelFailure_kind;
      unfold modelErrorKinds; set_solver
  | |- returnsOnly _ (ret (Success _)) => apply returnsOnly_ret; intros ? [=]
  | |- returnsOnly _ (match ?x with _ => _ end) => destruct x
  end.

Lemma generateCompletion_failsWith modelId prompt messages tools :
  returnsOnly (failsWith modelId) (generateCompletion S modelId prompt messages tools).
Proof.
  unfold generateCompletion, requestCompletion, completionResult, embeddedError,
    completionFailed, copyMessages. cbv zeta.
  repeat returns_step.
Qed.

Lemma appendAssistant_failsWith input names v :
  returnsOnly (failsWith (in_modelId input)) (appendAssistant S input names v).
Proof. unfold appendAssistant. cbv zeta. repeat returns_step. Qed.

(** X14. The failures of [callModel].  A failure that [callModel]
    returns is a model error made for the model id of the input, of one of
    four kinds: [model_not_found], [api_key_error], [api_error],
    [unknown_error]. *)
Theorem X14_failure_kinds input (st : State W) e :
  fst (callModel S input st) = Returns (Failure e) ->
  err_source e = ModelError
  /\ err_subject e = in_modelId input
  /\ err_type e ∈ ["model_not_found"; "api_key_error"; "api_error"; "unknown_error"].
Proof.
  intros H.
  assert (Hall : returnsOnly (failsWith (in_modelId input)) (callModel S input)).
  { unfold callModel. apply returnsOnly_bind. intros names.
    unfold bind. intros st1 r.
    pose proof (generateCompletion_failsWith (in_modelId input) (in_prompt input)
                  (in_messages input) (in_tools input) st1) as Hgen.
    destruct (generateCompletion S _ _ _ _ st1) as [[[v|err]|thrown] st2]; cbn [fst] in Hgen.
    - apply appendAssistant_failsWith.
    - cbn. intros [= <-]. intros e' [= <-]. now apply (Hgen _ eq_refl).
    - discriminate. }
  exact (Hall st _ H e eq_refl).
Qed.

End Returns.

(** ** The dispatcher as a whole *)

Section Dispatch.

Context {W : Type} (S : Services W).

Lemma processToolCall_mcpCalls tc acc (st : State W) :
  mcpCalls (trace (snd (processToolCall S tc acc st)))
  = mcpCalls (trace st) ++ option_list (routed S tc).
Proof.
  unfold routed.
  destruct (JSON_parse S (tc_arguments tc)) as [args|e] eqn:Hp.
  - destruct (isHandoff (tc_name tc)) eqn:Hh.
    + rewrite (processToolCall_handoff S _ _ _ _ Hp Hh). cbn [snd trace].
      rewrite mcpCalls_app. cbn. now rewrite app_nil_r.
    + destruct (decide (List.length (split (tc_name tc) "_-_-_") = 3%nat)) as [Hn|Hn].
      * rewrite Hn. cbn [Nat.eqb option_list].
        destruct (svc_callTool S (default "" (split (tc_name tc) "_-_-_" !! 1%nat))
                    (default "" (split (tc_name tc) "_-_-_" !! 2%nat)) args (world st))
          as [[result|e] w] eqn:Hc.
        -- rewrite (processToolCall_mcp S _ _ _ _ _ _ Hp Hh Hn Hc). cbn [snd trace].
           now rewrite mcpCalls_app.
        -- rewrite (processToolCall_mcp_throws S _ _ _ _ _ _ Hp Hh Hn Hc). cbn [snd trace].
           now rewrite mcpCalls_app.
      * rewrite (processToolCall_invalid S _ _ _ _ Hp Hh Hn). cbn [snd trace].
        apply Nat.eqb_neq in Hn. rewrite Hn. rewrite mcpCalls_app. cbn. now rewrite app_nil_r.
  - rewrite (processToolCall_parse_throws S _ _ _ _ Hp). cbn. now rewrite app_nil_r.
Qed.

Lemma forOf_processToolCall_mcpCalls calls : forall acc (st : State W),
  mcpCalls (trace (snd (forOf (processToolCall S) calls acc st)))
  = mcpCalls (trace st) ++ omap (routed S) calls.
Proof.
  induction calls as [|tc calls IH]; intros acc st.
  - cbn. now rewrite app_nil_r.
  - destruct (processToolCall_shape S tc st) as (m & r & st1 & Hstep & _).
    pose proof (processToolCall_mcpCalls tc acc st) as H1.
    cbn [forOf]. rewrite (bind_returns _ _ _ _ _ (Hstep acc)).
    rewrite (Hstep acc) in H1. cbn [snd] in H1.
    rewrite IH, H1, <- app_assoc. f_equal.
    cbn [omap list_omap]. now destruct (routed S tc).
Qed.

(** X15. The dispatcher does not fail.  For every sequence of requested
    calls, absent and empty included, and whatever the MCP service does,
    [processToolCalls] returns a success (the [tool_processing_failed]
    failure of its outer [catch] is never returned): one tool message and
    one record per call, in the order of the calls, the message with the
    call's id as [tool_call_id] and with the record's result as content;
    the heap is as it was. *)
Theorem X15_dispatcher_always_succeeds toolCalls (st : State W) :
  let calls := default [] toolCalls in
  exists v st',
    processToolCalls S toolCalls st = (Returns (Success v), st')
    /\ map msg_tool_call_id (toolCallMessages v) = map (fun tc => Some (tc_id tc)) calls
    /\ map tci_id (processedToolCalls v) = map tc_id calls
    /\ map msg_content (toolCallMessages v) = map tci_result (processedToolCalls v)
    /\ Forall (fun m => msg_role m = tool) (toolCallMessages v)
    /\ heap st' = heap st.
Proof.
  intros calls. subst calls.
  destruct toolCalls as [[|tc rest]|]; cbn [default].
  - eexists _, _. split; [reflexivity|]. cbn. auto.
  - destruct (forOf_processToolCall S (tc :: rest) ([], []) (loopStart st))
      as (ms & rs & st' & Hall & Hids & Hrids & Hcs & Hroles & Hheap).
    assert (Hne : tc :: rest <> []) by discriminate.
    eexists _, _. split; [apply (processToolCalls_loop S _ _ _ _ Hne Hall)|].
    cbn [toolCallMessages processedToolCalls fst snd app heap].
    rewrite Hheap. auto.
  - eexists _, _. split; [reflexivity|]. cbn. auto.
Qed.

(** X16. Who the dispatcher asks.  While [processToolCalls] runs the
    trace grows by log lines and MCP calls only: the catalog, the
    credential resolver and the completion client are not asked.  The MCP
    calls it makes are those of the requested calls that are routed (the
    arguments parse, the name is no handoff name and has three segments),
    one per such call, in the order of the calls, each to the server and
    the tool named by the second and third segment, with the parsed
    arguments. *)
Theorem X16_dispatcher_routes_in_order toolCalls :
  emitsOnly logOrMcpCall (processToolCalls S toolCalls)
  /\ forall st : State W,
       mcpCalls (trace (snd (processToolCalls S toolCalls st)))
       = mcpCalls (trace st) ++ omap (routed S) (default [] toolCalls).
Proof.
  split; [apply processToolCalls_emits|]. intros st.
  assert (Hempty : toolCalls = None \/ toolCalls = Some [] ->
            mcpCalls (trace (snd (processToolCalls S toolCalls st)))
            = mcpCalls (trace st) ++ omap (routed S) (default [] toolCalls)).
  { intros [-> | ->]; cbn; rewrite app_nil_r, <- app_assoc, mcpCalls_app; cbn;
      now rewrite app_nil_r. }
  destruct toolCalls as [[|tc rest]|]; [auto| |auto].
  cbn [default].
  destruct (forOf_processToolCall S (tc :: rest) ([], []) (loopStart st))
    as (ms & rs & st' & Hall & _).
  assert (Hne : tc :: rest <> []) by discriminate.
  rewrite (processToolCalls_loop S _ _ _ _ Hne Hall). cbn [snd trace].
  pose proof (forOf_processToolCall_mcpCalls (tc :: rest) ([], []) (loopStart st)) as H.
  rewrite Hall in H. cbn [snd] in H.
  rewrite mcpCalls_app, H. unfold loopStart, log, emit. cbn [snd trace].
  rewrite mcpCalls_app. cbn. now rewrite !app_nil_r.
Qed.

(** X17. An MCP call that throws is answered for itself only.  When the
    MCP service throws [e] for a routed call, the dispatcher still returns
    a success with a message and a record for every call, in order; the
    message and the record of this call carry [Error: <message of e>], or
    [Error: Unknown error] when [e] is no [Error], and the record has
    empty args although the arguments had parsed. *)
Theorem X17_mcp_throw_answered_per_call earlier tc later (st : State W) args e w :
  tc_name tc <> "handoff" ->
  startsWith (tc_name tc) "handoff_to_" = false ->
  List.length (split (tc_name tc) "_-_-_") = 3%nat ->
  JSON_parse S (tc_arguments tc) = Returns args ->
  let serverName := default "" (split (tc_name tc) "_-_-_" !! 1%nat) in
  let toolName := default "" (split (tc_name tc) "_-_-_" !! 2%nat) in
  let before := stateBeforeCall S earlier st in
  svc_callTool S serverName toolName args (world before) = (Throws e, w) ->
  let content := "Error: " +:+ message_or_unknown e in
  dispatchedAs S (earlier ++ tc :: later) st (List.length earlier)
    {| msg_id := stampId S w;
       msg_role := tool;
       msg_content := Some content;
       msg_tool_calls := None;
       msg_tool_call_id := Some (tc_id tc);
       msg_timestamp := stampTime S w;
       msg_processNodeId := None |}
    {| tci_name := tc_name tc; tci_args := JObj []; tci_id := tc_id tc;
       tci_result := Some content |}
  /\ stateBeforeCall S (earlier ++ [tc]) st =
       mkState (heap before) (stamped S w)
         (trace before ++ [ELog Info "trying to call tool";
                           ECallTool serverName toolName args]).
Proof.
  intros Hne Hpre Hn Hp serverName toolName before Hc content.
  assert (Hh : isHandoff (tc_name tc) = false).
  { unfold isHandoff. rewrite Hpre. simpl. now apply String.eqb_neq. }
  pose proof (fun acc => processToolCall_mcp_throws S tc acc before args e w Hp Hh Hn Hc)
    as Hstep.
  split.
  - apply (processToolCalls_at S _ _ _ _ _ _ _ Hstep).
  - apply (stateBeforeCall_next S _ _ _ _ _ _ Hstep).
Qed.

End Dispatch.

(** ** The heading *)

Section Prefix.

Import Regex.

Lemma matches_word_lit_i w : matches (word lit_i w) w.
Proof.
  induction w as [|c w IH]; [constructor|].
  change (String c w) with (String c "" +:+ w). cbn [word]. constructor; [|exact IH].
  constructor. apply Ascii.eqb_refl.
Qed.

Lemma matches_star_dot s : oneLine s = true -> matches (Star dot) s.
Proof.
  induction s as [|c s IH]; [constructor|].
  cbn [oneLine]. intros H. apply andb_prop in H as [Hc Hs].
  change (String c s) with (String c "" +:+ s). constructor; [|now apply IH].
  now constructor.
Qed.

Lemma matches_plus_dot c s : oneLine (String c s) = true -> matches (Plus dot) (String c s).
Proof.
  cbn [oneLine]. intros H. apply andb_prop in H as [Hc Hs].
  change (String c s) with (String c "" +:+ s). constructor; [now constructor|].
  now apply matches_star_dot.
Qed.

Lemma oneLine_app a b : oneLine (a +:+ b) = (oneLine a && oneLine b)%bool.
Proof.
  induction a as [|c a IH]; [reflexivity|].
  rewrite append_cons. cbn [oneLine]. now rewrite IH, andb_assoc.
Qed.

Lemma prefixWith_heading node disp tech content :
  oneLine node = true -> oneLine disp = true -> oneLine tech = true ->
  hasHeadingPattern (prefixWith node disp tech content) = true.
Proof.
  intros Hn Hd Ht. apply hasHeadingPattern_prefix.
  set (mid := node +:+ " - " +:+ disp +:+ " (" +:+ tech +:+ ") ").
  exists ("## " +:+ mid +:+ "says:" +:+ "" +:+ nl +:+ nl), content. split.
  - unfold prefixWith, mid. rewrite !append_assoc. reflexivity.
  - unfold headingPattern. constructor; [apply matches_word_lit_i|].
    constructor.
    + assert (Hmid : oneLine mid = true).
      { unfold mid. rewrite !oneLine_app, Hn, Hd, Ht. reflexivity. }
      assert (Hne : exists c s, mid = String c s).
      { unfold mid. destruct node as [|c node].
        - eexists _, _. reflexivity.
        - rewrite append_cons. eauto. }
      destruct Hne as (c & s & E). rewrite E in *. now apply matches_plus_dot.
    + constructor; [apply matches_word_lit_i|].
      constructor; [constructor | apply matches_word_lit_i].
Qed.

(** X18. The heading is not doubled.  When the node name and the two
    model names have no line break in them, a content that [callModel] has
    prefixed matches the heading pattern, whatever the content; so
    prefixing what is already prefixed changes nothing. *)
Theorem X18_heading_not_doubled node disp tech content :
  oneLine node = true -> oneLine disp = true -> oneLine tech = true ->
  hasHeadingPattern (prefixWith node disp tech content) = true
  /\ prefixedContent node disp tech (prefixedContent node disp tech content)
     = prefixedContent node disp tech content.
Proof.
  intros Hn Hd Ht.
  pose proof (prefixWith_heading node disp tech content Hn Hd Ht) as H.
  split; [exact H|]. unfold prefixedContent.
  destruct (String.eqb disp ""); [reflexivity|]. cbn [negb andb].
  destruct (hasHeadingPattern content) eqn:Hc; cbn [negb].
  - now rewrite Hc.
  - now rewrite H.
Qed.

End Prefix.

(** ** From the model call to the dispatcher *)

Section Handover.

Context {W : Type} (S : Services W).

(** A success of [callModel] is what [appendAssistant] makes of a success
    of the completion call. *)
Lemma callModel_succeeded input (st : State W) T v' :
  heap st !! in_messages input = Some (CMessages T) ->
  fst (callModel S input st) = Returns (Success v') ->
  exists a,
    heap (snd (callModel S input st)) !! mcr_messages v' = Some (CMessages (T ++ [a]))
    /\ msg_tool_calls a = firstChoiceToolCalls (mcr_fullResponse v')
    /\ mcr_toolCalls v'
       = option_map (map (extracted S)) (firstChoiceToolCalls (mcr_fullResponse v')).
Proof.
  intros HT H.
  destruct (completionCall_returns S input st) as ([v|e] & st2 & Hgen).
  - destruct (callModel_success S input st T v st2 HT Hgen) as [HT2 Hrun].
    rewrite Hrun in H |- *. rewrite (appendAssistant_run S input _ v st2 T HT2) in H |- *.
    cbn [fst snd heap] in *. injection H as <-.
    cbn [mcr_toolCalls mcr_fullResponse mcr_messages].
    eexists. split; [apply lookup_insert_eq|]. split; reflexivity.
  - rewrite (callModel_failure S input st T e st2 HT Hgen) in H. discriminate.
Qed.

(** X19. [hasToolCalls] agrees with the extraction.  For a success of
    [callModel], [hasToolCalls] holds exactly when the result lists at
    least one extracted tool call; the appended assistant message carries
    the tool calls of the first choice as they came, and the extracted
    calls are made of these, one for one. *)
Theorem X19_hasToolCalls_agrees_with_extraction input (st : State W) T v' :
  heap st !! in_messages input = Some (CMessages T) ->
  fst (callModel S input st) = Returns (Success v') ->
  let requested := firstChoiceToolCalls (mcr_fullResponse v') in
  (hasToolCalls v' = true <-> exists info infos, mcr_toolCalls v' = Some (info :: infos))
  /\ mcr_toolCalls v' = option_map (map (extracted S)) requested
  /\ exists a,
       heap (snd (callModel S input st)) !! mcr_messages v' = Some (CMessages (T ++ [a]))
       /\ msg_tool_calls a = requested.
Proof.
  intros HT H requested. subst requested.
  destruct (callModel_succeeded input st T v' HT H) as (a & Ha & Hcalls & Hinfos).
  split; [|split; [exact Hinfos | eauto]].
  rewrite Hinfos. unfold hasToolCalls.
  destruct (firstChoiceToolCalls (mcr_fullResponse v')) as [[|tc tcs]|]; cbn.
  - split; [discriminate | intros (? & ? & [=])].
  - split; [eauto | reflexivity].
  - split; [discriminate | intros (? & ? & [=])].
Qed.

(** X20. The tool messages answer the extracted calls.  When the tool
    calls of the first choice of a successful [callModel] are given to
    [processToolCalls], in whatever state, it returns a success with one
    tool message per extracted call of the [callModel] result, in the same
    order, whose [tool_call_id] is that call's id; the records have the
    same ids and names. *)
Theorem X20_tool_messages_answer_extracted_calls
    input (st : State W) T v' requested (st2 : State W) :
  heap st !! in_messages input = Some (CMessages T) ->
  fst (callModel S input st) = Returns (Success v') ->
  firstChoiceToolCalls (mcr_fullResponse v') = Some requested ->
  exists infos r st3,
    mcr_toolCalls v' = Some infos
    /\ processToolCalls S (Some requested) st2 = (Returns (Success r), st3)
    /\ map msg_tool_call_id (toolCallMessages r) = map (fun info => Some (tci_id info)) infos
    /\ map tci_id (processedToolCalls r) = map tci_id infos
    /\ map msg_content (toolCallMessages r) = map tci_result (processedToolCalls r).
Proof.
  intros HT H Hreq.
  destruct (callModel_succeeded input st T v' HT H) as (_ & _ & _ & Hinfos).
  rewrite Hreq in Hinfos. cbn in Hinfos.
  exists (map (extracted S) requested).
  rewrite !map_map. cbn [extracted tci_id].
  destruct requested as [|tc rest].
  - eexists _, _. split; [exact Hinfos|]. split; [reflexivity|]. cbn. auto.
  - destruct (forOf_processToolCall S (tc :: rest) ([], []) (loopStart st2))
      as (ms & rs & st3 & Hall & Hids & Hrids & Hcs & _).
    assert (Hne : tc :: rest <> []) by discriminate.
    eexists _, _. split; [exact Hinfos|].
    split; [apply (processToolCalls_loop S _ _ _ _ Hne Hall)|].
    cbn [toolCallMessages processedToolCalls fst snd app]. auto.
Qed.

End Handover.

(** ** The further properties on sample inputs *)

Section FurtherExamples.

Import Reference.

(** The [draw] tool with the [uri] format: the copy keeps the [type] of
    the schema and the [caption] parameter. *)
Lemma X3_patch_witness :
  let st := drawing (VStr "uri") in
  isTool (heap st) (VRef 11%positive) = true
  /\ needsPatch (heap st) (VRef 11%positive) = true
  /\ exists tool' st',
       patchTool (VRef 11%positive) st = (Returns tool', st')
       /\ field (heap st') (imageUrlOf (heap st') tool') "type" = VStr "string"
       /\ field (heap st') (path (heap st') tool' ["function"; "parameters"; "properties"])
            "caption" = VRef 16%positive
       /\ hasField (heap st') (imageUrlOf (heap st') tool') "format" = false.
Proof.
  intros st.
  assert (H1 : isTool (heap st) (VRef 11%positive) = true) by (vm_compute; reflexivity).
  assert (H2 : needsPatch (heap st) (VRef 11%positive) = true) by (vm_compute; reflexivity).
  split; [exact H1|]. split; [exact H2|].
  destruct (X3_patch_removes_only_format st (VRef 11%positive) H1 H2)
    as (tool' & st' & Hrun & _ & _ & _ & _ & Hprops & Hschema & Hformat).
  exists tool', st'. split; [exact Hrun|]. split; [|split; [|exact Hformat]].
  - rewrite (Hschema "type") by discriminate. vm_compute. reflexivity.
  - rewrite (Hprops "caption") by discriminate. vm_compute. reflexivity.
Defined.

Lemma X4_patched_tool_witness :
  let st := drawing (VStr "uri") in
  isTool (heap st) (VRef 11%positive) = true
  /\ needsPatch (heap st) (VRef 11%positive) = true
  /\ exists tool' st',
       patchTool (VRef 11%positive) st = (Returns tool', st')
       /\ tool' <> VRef 11%positive
       /\ needsPatch (heap st') tool' = false
       /\ patchTool tool' st' = (Returns tool', st').
Proof.
  intros st.
  assert (H1 : isTool (heap st) (VRef 11%positive) = true) by (vm_compute; reflexivity).
  assert (H2 : needsPatch (heap st) (VRef 11%positive) = true) by (vm_compute; reflexivity).
  split; [exact H1|]. split; [exact H2|].
  exact (X4_patched_tool_needs_no_patch st (VRef 11%positive) H1 H2).
Defined.

(** An empty catalog. *)
Lemma X5_unknown_model_witness :
  fst (svc_getModel services "m1" (world (asking []))) = Returns None
  /\ fst (generateCompletion services "m1" "" 1%positive None (asking []))
     = Returns (Failure (createModelError "model_not_found" "Model not found: m1" "m1"))
  /\ trace (snd (generateCompletion services "m1" "" 1%positive None (asking [])))
     = [ELog Verbose "generateCompletion input"; EGetModel "m1"].
Proof.
  split; [reflexivity|].
  pose proof (X5_unknown_model_asks_no_one services "m1" "" 1%positive None (asking []) _
                eq_refl) as H.
  rewrite H. split; reflexivity.
Defined.

(** The credential resolver answers with the empty string. *)
Lemma X6_missing_key_witness :
  let st := keyed (Returns (Some "")) in
  fst (svc_getModel services "m1" (world st)) = Returns (Some gpt)
  /\ fst (generateCompletion services "m1" "" 1%positive None st)
     = Returns (Failure (createModelError "api_key_error"
                          "Failed to resolve or decrypt API key" "m1"))
  /\ trace (snd (generateCompletion services "m1" "" 1%positive None st))
     = [ELog Verbose "generateCompletion input"; EGetModel "m1"; EResolveKey "key-ref"].
Proof.
  intros st. split; [reflexivity|].
  pose proof (X6_missing_key_makes_no_request services "m1" "" 1%positive None st gpt
                (Some "") _ _ eq_refl eq_refl (or_intror eq_refl)) as H.
  rewrite H. split; reflexivity.
Defined.

(** The client throws an [APIError]. *)
Lemma X7_thrown_value_witness :
  let e := APIError "rate limited" (Some "429") None None None in
  let st := answering (Throws e) in
  heap st !! 1%positive = Some (CMessages [question])
  /\ fst (generateCompletion services "m1" "" 1%positive None st)
     = Returns (Failure (createModelError "api_error" "rate limited" "m1")).
Proof.
  intros e st.
  assert (HT : heap st !! 1%positive = Some (CMessages [question])) by reflexivity.
  split; [exact HT|].
  assert (Hne : "sk-1" <> "") by discriminate.
  apply (X7_thrown_value_classified services "m1" "" 1%positive None st e).
  right. right. exists [question], gpt, "sk-1". eexists _, _, _.
  split; [exact HT|]. split; [left; reflexivity|]. split; [reflexivity|].
  split; [reflexivity|]. split; [exact Hne|]. reflexivity.
Defined.

(** An empty array of tools at location 3. *)
Lemma X8_request_witness :
  let st := answering (Returns helloResponse) in
  heap st !! 3%positive = Some (CArr [])
  /\ requests (trace (snd (generateCompletion services "m1" "" 1%positive (Some 3%positive) st)))
     = [({| apiKey := "sk-1"; baseURL := None |},
         {| rq_model := "gpt-x";
            rq_messages :=
              [{| api_id := "m-1"; api_role := user; api_content := Some "hi";
                  api_tool_calls := None; api_tool_call_id := None;
                  api_processNodeId := None |}];
            rq_temperature := TempDefault; rq_tools := None |})].
Proof.
  intros st.
  assert (Harr : heap st !! 3%positive = Some (CArr [])) by reflexivity.
  split; [exact Harr|].
  assert (Hne : "sk-1" <> "") by discriminate.
  exact (X8_request_without_tools services "m1" "" 1%positive (Some 3%positive) st [question]
           gpt "sk-1" _ _ eq_refl (or_intror (ex_intro _ 3%positive (conj eq_refl Harr)))
           eq_refl eq_refl Hne).
Defined.

(** The [draw] tool with an empty format, which the guard takes for no
    format. *)
Lemma X9_unpatched_tools_witness :
  let st := drawing (VStr "") in
  let out := generateCompletion services "m1" "" 1%positive (Some 10%positive) st in
  Forall (fun v => needsPatch (heap st) v = false) [VRef 11%positive]
  /\ exists sent,
       requests (trace (snd out)) = [requestFor gpt "sk-1" [question] (Some sent)]
       /\ heap st !! sent = None
       /\ heap (snd out) !! sent = Some (CArr [VRef 11%positive]).
Proof.
  intros st out.
  assert (HT : heap st !! 1%positive = Some (CMessages [question])) by reflexivity.
  assert (Harr : heap st !! 10%positive = Some (CArr [VRef 11%positive])) by reflexivity.
  assert (Hnil : [VRef 11%positive] <> []) by discriminate.
  assert (Htools : Forall (fun v => isTool (heap st) v = true) [VRef 11%positive])
    by (repeat constructor).
  assert (Hno : Forall (fun v => needsPatch (heap st) v = false) [VRef 11%positive])
    by (repeat constructor).
  assert (Hne : "sk-1" <> "") by discriminate.
  split; [exact Hno|].
  destruct (X9_unpatched_tools_sent_as_they_are services "m1" "" 1%positive 10%positive st
              [question] [VRef 11%positive] gpt "sk-1" _ _ HT Harr Hnil Htools Hno
              eq_refl eq_refl Hne) as (sent & Hreq & Hnew & Hsent & _).
  exists sent. auto.
Defined.

(** The [draw] tool is supplied; the body carries an error object whose
    raw text is cut short. *)
Lemma drawn_tools : toolsOrNone (drawHeap (VStr "uri")) (Some 10%positive).
Proof. exists [VRef 11%positive]. split; [reflexivity | repeat constructor]. Defined.

Lemma X10_embedded_error_witness :
  let st := drawingAnswered (Returns (rejected "{")) in
  heap st !! 10%positive = Some (CArr [VRef 11%positive])
  /\ JSON_parse services "{" = Throws SyntaxError
  /\ fst (generateCompletion services "m1" "" 1%positive (Some 10%positive) st)
     = Returns (Failure (createModelError "api_error" "Provider returned error" "m1")).
Proof.
  intros st. split; [reflexivity|]. split; [reflexivity|].
  assert (Hne : "sk-1" <> "") by discriminate.
  exact (X10_embedded_error_falls_back services "m1" "" 1%positive (Some 10%positive) st
           [question] gpt "sk-1" _ _ script0 (rejected "{") eq_refl drawn_tools eq_refl eq_refl
           Hne (fun _ _ _ => eq_refl) _ eq_refl
           (or_intror (or_intror (ex_intro _ "{" (ex_intro _ SyntaxError (conj eq_refl eq_refl)))))).
Defined.

(** An error object whose raw text carries the upstream message. *)
Lemma X11_nested_message_witness :
  let st := drawingAnswered (Returns (rejected text_overloaded)) in
  heap st !! 10%positive = Some (CArr [VRef 11%positive])
  /\ JSON_parse services text_overloaded
     = Returns (JObj [("error", JObj [("message", JStr "model overloaded")])])
  /\ fst (generateCompletion services "m1" "" 1%positive (Some 10%positive) st)
     = Returns (Failure (createModelError "api_error" "model overloaded" "m1")).
Proof.
  intros st. split; [reflexivity|]. split; [reflexivity|].
  assert (Hne : "sk-1" <> "") by discriminate.
  assert (Hraw : text_overloaded <> "") by discriminate.
  assert (Hm : "model overloaded" <> "") by discriminate.
  exact (X11_embedded_error_nested_message services "m1" "" 1%positive (Some 10%positive) st
           [question] gpt "sk-1" _ _ script0 (rejected text_overloaded) eq_refl drawn_tools
           eq_refl eq_refl Hne (fun _ _ _ => eq_refl) _ text_overloaded _ "model overloaded"
           eq_refl eq_refl Hraw eq_refl eq_refl Hm).
Defined.

Lemma X12_missing_choices_witness :
  let st := drawingAnswered (Returns noChoices) in
  heap st !! 10%positive = Some (CArr [VRef 11%positive])
  /\ cc_choices noChoices = Some []
  /\ fst (generateCompletion services "m1" "" 1%positive (Some 10%positive) st)
     = Returns (Failure (createModelError "api_error"
                          "Invalid response structure from API: Missing choices." "m1")).
Proof.
  intros st. split; [reflexivity|]. split; [reflexivity|].
  assert (Hne : "sk-1" <> "") by discriminate.
  exact (X12_missing_choices services "m1" "" 1%positive (Some 10%positive) st [question] gpt
           "sk-1" _ _ script0 noChoices eq_refl drawn_tools eq_refl eq_refl Hne
           (fun _ _ _ => eq_refl) eq_refl (or_intror eq_refl)).
Defined.

(** A first choice without content. *)
Lemma X13_success_witness :
  let st := answering (Returns silentResponse) in
  exists l st',
    generateCompletion services "m1" "" 1%positive None st
    = (Returns (Success {| mcr_content := ""; mcr_messages := l;
                           mcr_fullResponse := silentResponse; mcr_toolCalls := None |}), st')
    /\ heap st !! l = None
    /\ heap st' = <[l := CMessages [question]]> (heap st).
Proof.
  intros st.
  assert (Hne : "sk-1" <> "") by discriminate.
  exact (X13_success_returns_copy_of_transcript services "m1" "" 1%positive None st [question]
           gpt "sk-1" _ _ _ silentResponse eq_refl (or_introl eq_refl) eq_refl eq_refl Hne
           eq_refl _ _ eq_refl eq_refl).
Defined.

Lemma X14_failure_kinds_witness :
  let e := createModelError "model_not_found" "Model not found: m1" "m1" in
  fst (callModel services askInput (asking [])) = Returns (Failure e)
  /\ err_source e = ModelError
  /\ err_subject e = "m1"
  /\ err_type e ∈ ["model_not_found"; "api_key_error"; "api_error"; "unknown_error"].
Proof.
  intros e.
  assert (H : fst (callModel services askInput (asking [])) = Returns (Failure e))
    by (vm_compute; reflexivity).
  split; [exact H|].
  exact (X14_failure_kinds services askInput (asking []) e H).
Defined.

(** The MCP service is down when the lookup call is dispatched. *)
Lemma X17_mcp_throw_witness :
  tc_name lookupCall <> "handoff"
  /\ fst (svc_callTool services "search" "lookup" (JObj [("q", JStr "x")])
            (world (mcpAnswers [])))
     = Throws (JsError "Error" "service unavailable")
  /\ dispatchedAs services [lookupCall; billingCall] (mcpAnswers []) 0
       (reply "id-0" "c1" "Error: service unavailable" 1700000000001)
       {| tci_name := "_-_-_search_-_-_lookup"; tci_args := JObj []; tci_id := "c1";
          tci_result := Some "Error: service unavailable" |}.
Proof.
  assert (H1 : tc_name lookupCall <> "handoff") by discriminate.
  split; [exact H1|]. split; [reflexivity|].
  exact (proj1 (X17_mcp_throw_answered_per_call services [] lookupCall [billingCall]
                  (mcpAnswers []) (JObj [("q", JStr "x")])
                  (JsError "Error" "service unavailable") _
                  H1 eq_refl eq_refl eq_refl eq_refl)).
Defined.

Lemma X18_heading_witness :
  oneLine "Node" = true
  /\ prefixedContent "Node" "GPT" "gpt-x" "hello"
     = "## Node - GPT (gpt-x) says:" +:+ nl +:+ nl +:+ "hello"
  /\ prefixedContent "Node" "GPT" "gpt-x" (prefixedContent "Node" "GPT" "gpt-x" "hello")
     = prefixedContent "Node" "GPT" "gpt-x" "hello".
Proof.
  split; [reflexivity|]. split; [vm_compute; reflexivity|].
  exact (proj2 (X18_heading_not_doubled "Node" "GPT" "gpt-x" "hello" eq_refl eq_refl eq_refl)).
Defined.

(** The ask of the orchestration examples: the completion requests two
    tool calls. *)
Lemma ask_succeeds :
  exists v', fst (callModel services askInput (asking catalogUp)) = Returns (Success v')
             /\ firstChoiceToolCalls (mcr_fullResponse v') = Some [brokenCall; lookupCall].
Proof. eexists. split; vm_compute; reflexivity. Defined.

Lemma X19_hasToolCalls_witness :
  exists v',
    fst (callModel services askInput (asking catalogUp)) = Returns (Success v')
    /\ hasToolCalls v' = true
    /\ exists info infos, mcr_toolCalls v' = Some (info :: infos).
Proof.
  destruct ask_succeeds as (v' & Hrun & Hreq).
  exists v'. split; [exact Hrun|].
  assert (Hhas : hasToolCalls v' = true) by (unfold hasToolCalls; now rewrite Hreq).
  split; [exact Hhas|].
  exact (proj1 (proj1 (X19_hasToolCalls_agrees_with_extraction services askInput
                         (asking catalogUp) [question] v' eq_refl Hrun)) Hhas).
Defined.

Lemma X20_handover_witness :
  exists v' infos r,
    fst (callModel services askInput (asking catalogUp)) = Returns (Success v')
    /\ mcr_toolCalls v' = Some infos
    /\ fst (processToolCalls services (Some [brokenCall; lookupCall])
              (mcpAnswers [Returns hits3]))
       = Returns (Success r)
    /\ map msg_tool_call_id (toolCallMessages r) = map (fun info => Some (tci_id info)) infos.
Proof.
  destruct ask_succeeds as (v' & Hrun & Hreq).
  destruct (X20_tool_messages_answer_extracted_calls services askInput (asking catalogUp)
              [question] v' [brokenCall; lookupCall] (mcpAnswers [Returns hits3])
              eq_refl Hrun Hreq) as (infos & r & st3 & Hinfos & Hdone & Hids & _).
  exists v', infos, r. rewrite Hdone. auto.
Defined.

End FurtherExamples.
